(** * Scan: the step-execution engine and the gradient constructor

    A shallow embedding of [Scan.execute] and of the configuration part of
    [Scan.grad] from [theano/scan_module/scan_op.py], and the properties of
    the ring buffers, the loop and the backward configuration that are
    established from it.

    Tensors with a leading time dimension are lists of slices; a slice is an
    element of an arbitrary type [V].  Python integers are [Z]; indices that
    Python normalises (negative indices, slice bounds) are normalised the
    same way here; an exception is a [Raise]. *)

From Stdlib Require Import ZArith Lia.
From stdpp Require Import base tactics option list list_misc numbers.

(** ** Exceptions and the error monad *)

Inductive error : Type :=
  | SeqTooShort (idx : nat)   (* the ValueError of step 1 of [execute] *)
  | ZeroDivisionError
  | IndexError
  | TypeError                 (* an operation on [None] *)
  | ValueError
  | InnerError.               (* the inner function raised *)

Inductive res (A : Type) : Type :=
  | Ok (a : A)
  | Raise (e : error).
Arguments Ok {A} a.
Arguments Raise {A} e.

Definition bind {A B} (m : res A) (f : A -> res B) : res B :=
  match m with
  | Ok a => f a
  | Raise e => Raise e
  end.

Notation "'do' x <- m ; f" := (bind m (fun x => f))
  (at level 10, x pattern, m at level 100, f at level 200).

Definition from_opt {A} (e : error) (o : option A) : res A :=
  match o with
  | Some a => Ok a
  | None => Raise e
  end.

Fixpoint res_mapM {A B} (f : A -> res B) (l : list A) : res (list B) :=
  match l with
  | [] => Ok []
  | x :: r => do y <- f x; do ys <- res_mapM f r; Ok (y :: ys)
  end.

(** [for j in js: s = body(j, s)] *)
Fixpoint for_each {J S} (js : list J) (body : J -> S -> res S) (s : S)
  : res S :=
  match js with
  | [] => Ok s
  | j :: r => do s' <- body j s; for_each r body s'
  end.

(** [cells[j] = f(cells[j])] *)
Definition update_cell {A} (j : nat) (f : A -> res A) (cells : list A)
  : res (list A) :=
  do c <- from_opt IndexError (cells !! j);
  do c' <- f c;
  Ok (<[j:=c']> cells).

(** [xrange(b, e)] *)
Definition xrange (b e : nat) : list nat := seq b (e - b).

(** ** Python and numpy primitives *)

(** [a % b]: floored remainder, an exception on a zero divisor. *)
Definition py_mod (a b : Z) : res Z :=
  if (b =? 0)%Z then Raise ZeroDivisionError else Ok (a `mod` b)%Z.

(** An index [k] into a sequence of length [len]; negative indices count
    from the end. *)
Definition py_index (len : nat) (k : Z) : res nat :=
  if ((0 <=? k) && (k <? Z.of_nat len))%Z then Ok (Z.to_nat k)
  else if ((- Z.of_nat len <=? k) && (k <? 0))%Z
       then Ok (Z.to_nat (Z.of_nat len + k))
  else Raise IndexError.

(** [l[k]] *)
Definition py_getitem {A} (l : list A) (k : Z) : res A :=
  do n <- py_index (length l) k; from_opt IndexError (l !! n).

(** [l[k] = v] *)
Definition py_setitem {A} (l : list A) (k : Z) (v : A) : res (list A) :=
  do n <- py_index (length l) k; Ok (<[n:=v]> l).

(** A slice bound [k] clipped to a sequence of length [len]. *)
Definition py_clip (len : nat) (k : Z) : nat :=
  if (k <? 0)%Z then Z.to_nat (Z.max (Z.of_nat len + k) 0)
  else Z.to_nat (Z.min k (Z.of_nat len)).

(** [l[a:]], [l[:b]] and [l[::-1]] *)
Definition slice_from {A} (l : list A) (a : Z) : list A :=
  drop (py_clip (length l) a) l.
Definition slice_to {A} (l : list A) (b : Z) : list A :=
  take (py_clip (length l) b) l.

(** [l[:b] = src] and [l[a:] = src], for a source of the length of the
    slice it replaces (numpy assigns in place, the length of [l] is kept;
    every use below has a source of that length, see
    [length_reorder]). *)
Definition assign_to {A} (l : list A) (b : Z) (src : list A) : list A :=
  src ++ slice_from l b.
Definition assign_from {A} (l : list A) (a : Z) (src : list A) : list A :=
  slice_to l a ++ src.

(** [numpy.min(x)] of a non-empty list; the constructor of the op raises
    on an empty one, so no op has one. *)
Definition np_min (l : list Z) : Z :=
  match l with
  | [] => 0%Z
  | x :: r => foldl Z.min x r
  end.

(** ** The channel model *)

(** The entries of [info] that [execute] and [grad] read. *)
Record Scan : Type := {
  n_seqs : nat;
  n_mit_mot : nat;
  n_mit_sot : nat;
  n_sit_sot : nat;
  n_nit_sot : nat;
  n_shared_outs : nat;
  n_mit_mot_outs : nat;
  tap_array : list (list Z);
  mit_mot_out_slices : list (list Z);
  truncate_gradient : Z;
  as_while : bool;
  inplace : bool
}.

(** The values [__init__] precomputes. *)
Definition n_outs (op : Scan) : nat :=
  n_mit_mot op + n_mit_sot op + n_sit_sot op.

Definition mintaps (op : Scan) : list Z :=
  (np_min <$> tap_array op) ++ replicate (n_nit_sot op) 0%Z.

(** Number of tracked outputs, [self.n_outs + self.n_nit_sot]. *)
Definition n_tracked (op : Scan) : nat := n_outs op + n_nit_sot op.

(** The arguments of one call of [execute], already cut at the offsets
    [seqs_arg_offset], [shared_arg_offset] and [nit_sot_arg_offset]:
    [n_steps_arg] is [args[0]], [seq_args] is
    [args[1:seqs_arg_offset]], [init_args] is
    [args[seqs_arg_offset:shared_arg_offset]], [shared_args] the
    [n_shared_outs] entries from [shared_arg_offset], [nit_sot_args] is
    [args[nit_sot_arg_offset:nit_sot_arg_offset + n_nit_sot]] and
    [other_args] the rest. *)
Record Args (V : Type) : Type := {
  n_steps_arg : Z;
  seq_args : list (list V);
  init_args : list (list V);
  shared_args : list V;
  nit_sot_args : list Z;
  other_args : list V
}.
Arguments n_steps_arg {V} _.
Arguments seq_args {V} _.
Arguments init_args {V} _.
Arguments shared_args {V} _.
Arguments nit_sot_args {V} _.
Arguments other_args {V} _.

(** One invocation of the inner function: what was put in
    [input_storage] and what it left in [output_storage]. *)
Record call (V : Type) : Type := { c_in : list V; c_out : list V }.
Arguments c_in {V} _.
Arguments c_out {V} _.

(** The variables of the main loop.  [ls_bufs] is [outs[:n_outs +
    n_nit_sot]] ([None] for a cell without storage) and [ls_shared] the
    cells of the shared outputs after it. *)
Record LoopState (V : Type) : Type := {
  ls_i : nat;
  ls_cond : bool;
  ls_pos : list Z;
  ls_bufs : list (option (list V));
  ls_shared : list (option V);
  ls_calls : list (call V)
}.
Arguments ls_i {V} _.
Arguments ls_cond {V} _.
Arguments ls_pos {V} _.
Arguments ls_bufs {V} _.
Arguments ls_shared {V} _.
Arguments ls_calls {V} _.

(** What a call of [execute] leaves: the output cells and the iterations
    that ran, or the exception and the iterations completed before it. *)
Inductive outcome (V : Type) : Type :=
  | Returned (bufs : list (option (list V))) (shared : list (option V))
             (calls : list (call V))
  | Raised (e : error) (calls : list (call V)).
Arguments Returned {V} bufs shared calls.
Arguments Raised {V} e calls.

(** ** [Scan.execute] *)

Section Execute.
Variable V : Type.
(** [numpy.zeros] of the shape and dtype of a slice. *)
Variable zeros_like : V -> V.
(** [x == 0] on the scalar of the termination condition. *)
Variable is_zero : V -> bool.
(** [a.shape[1:] == b.shape[1:]] for two arrays. *)
Variable same_tail : list V -> list V -> bool.
(** [a.shape[1:] == x.shape and a.dtype == x.dtype] for an array and a
    slice. *)
Variable fits : list V -> V -> bool.
(** The compiled inner function, from the contents of [input_storage]
    to those of [output_storage]; [None] when it raises. *)
Variable fn : list V -> option (list V).

Abbreviation bufs_t := (list (option (list V))).

(** *** 1. The number of steps and the sequences *)

Fixpoint check_seqs (n : Z) (flip : bool) (idx : nat)
    (l : list (list V)) : res (list (list V)) :=
  match l with
  | [] => Ok []
  | s :: r =>
      if (Z.of_nat (length s) <? n)%Z then Raise (SeqTooShort idx)
      else do rest <- check_seqs n flip (S idx) r;
           Ok ((if flip then reverse s else s) :: rest)
  end.

Definition unzip_seqs (a : Args V) : res (Z * list (list V)) :=
  let n_steps := n_steps_arg a in
  if (n_steps <? 0)%Z then
    let n_steps := Z.abs n_steps in
    do seqs <- check_seqs n_steps true 0 (seq_args a);
    Ok (n_steps, seqs)
  else
    do seqs <- check_seqs n_steps false 0 (seq_args a);
    Ok (n_steps, seqs).

(** *** 2. Lengths, positions and storage of the outputs *)

Definition store_steps (a : Args V) : list Z :=
  ((fun arg => Z.of_nat (length arg)) <$> init_args a) ++ nit_sot_args a.

Definition init_pos (op : Scan) (ss : list Z) : res (list Z) :=
  res_mapM (fun idx =>
              do m <- from_opt IndexError (mintaps op !! idx);
              do s <- from_opt IndexError (ss !! idx);
              py_mod (- m) s)
           (xrange 0 (n_tracked op)).

(** 2.1, the storage of output [idx]: the initial state itself, a
    buffer of the caller cut to [store] entries and seeded, or a copy of
    the initial state. *)
Definition alloc_out (op : Scan) (idx : nat) (prev : option (list V))
    (init : list V) (store mintap : Z) : list V :=
  if inplace op then init
  else match prev with
       | Some o =>
           if same_tail o init && (store <=? Z.of_nat (length o))%Z then
             let o' := slice_to o store in
             if (n_mit_mot op <? idx)%nat then
               let l := (- mintap)%Z in
               assign_to o' l (slice_to init l)
             else init
           else init
       | None => init
       end.

Definition init_bufs (op : Scan) (a : Args V) (ss : list Z)
    (outs : bufs_t) : res bufs_t :=
  for_each (xrange 0 (n_outs op))
    (fun idx outs =>
       do init <- from_opt IndexError (init_args a !! idx);
       do s <- from_opt IndexError (ss !! idx);
       do m <- from_opt IndexError (mintaps op !! idx);
       update_cell idx
         (fun prev => Ok (Some (alloc_out op idx prev init s m))) outs)
    outs.

(** *** 3. The input slices of iteration [i] *)

Definition gather_seqs (op : Scan) (seqs : list (list V)) (i : nat)
    : res (list V) :=
  res_mapM (fun idx =>
              do s <- from_opt IndexError (seqs !! idx);
              py_getitem s (Z.of_nat i))
           (xrange 0 (n_seqs op)).

(** [outs[idx][0][(pos[idx] + tap) % store_steps[idx]]] *)
Definition read_tap (ss pos : list Z) (bufs : bufs_t) (idx : nat)
    (tap : Z) : res V :=
  do p <- from_opt IndexError (pos !! idx);
  do s <- from_opt IndexError (ss !! idx);
  do _idx <- py_mod (p + tap) s;
  do c <- from_opt IndexError (bufs !! idx);
  do b <- from_opt TypeError c;
  py_getitem b _idx.

Definition gather_taps (op : Scan) (ss pos : list Z) (bufs : bufs_t)
    : res (list V) :=
  do slices <- res_mapM
                 (fun idx =>
                    do taps <- from_opt IndexError (tap_array op !! idx);
                    res_mapM (read_tap ss pos bufs idx) taps)
                 (xrange 0 (n_outs op));
  Ok (concat slices).

Definition gather_shared (op : Scan) (a : Args V) (i : nat)
    (shared : list (option V)) : res (list V) :=
  if (i =? 0)%nat then
    res_mapM (fun j => from_opt IndexError (shared_args a !! j))
             (xrange 0 (n_shared_outs op))
  else
    res_mapM (fun j => do c <- from_opt IndexError (shared !! j);
                       from_opt TypeError c)
             (xrange 0 (n_shared_outs op)).

(** *** 5. Storing the outputs of iteration [i] *)

(** [outs[j][0][k] = v] *)
Definition set_slot (j : nat) (k : Z) (v : V) (bufs : bufs_t)
    : res bufs_t :=
  update_cell j (fun c => do b <- from_opt TypeError c;
                          do b' <- py_setitem b k v;
                          Ok (Some b')) bufs.

(** 5.1, one slice [k] of MIT-MOT output [j]; the second component is
    [offset_out]. *)
Definition write_slice (pos : list Z) (out : list V) (j : nat) (k : Z)
    (st : bufs_t * nat) : res (bufs_t * nat) :=
  let '(bufs, offset_out) := st in
  do v <- from_opt IndexError (out !! offset_out);
  do p <- from_opt IndexError (pos !! j);
  do bufs' <- set_slot j (k + p) v bufs;
  Ok (bufs', S offset_out).

Definition scatter_mit_mot (op : Scan) (pos : list Z) (out : list V)
    (bufs : bufs_t) : res (bufs_t * nat) :=
  for_each (xrange 0 (n_mit_mot op))
    (fun j st =>
       do ks <- from_opt IndexError (mit_mot_out_slices op !! j);
       for_each ks (write_slice pos out j) st)
    (bufs, 0).

(** 5.2, a MIT-SOT or SIT-SOT output [j]; [off] is [offset_out] after
    5.1, so the output read is [offset_out - n_mit_mot + j]. *)
Definition write_cur (op : Scan) (pos : list Z) (out : list V)
    (off : nat) (j : nat) (bufs : bufs_t) : res bufs_t :=
  do p <- from_opt IndexError (pos !! j);
  do v <- from_opt IndexError (out !! (off + j - n_mit_mot op));
  set_slot j p v bufs.

(** 5.3, a NIT-SOT output [j]: on the first iteration its storage is
    allocated, or the caller's is kept when it fits. *)
Definition nit_sot_storage (s : Z) (v : V) (c : option (list V))
    : res (list V) :=
  let fresh :=
    if (s <? 0)%Z then Raise ValueError
    else Ok (replicate (Z.to_nat s) (zeros_like v)) in
  match c with
  | None => fresh
  | Some o =>
      if (Z.of_nat (length o) <? s)%Z || negb (fits o v) then fresh
      else if negb (Z.of_nat (length o) =? s)%Z then Ok (slice_to o s)
      else Ok o
  end.

Definition write_nit_sot (op : Scan) (ss pos : list Z) (out : list V)
    (off : nat) (i : nat) (j : nat) (bufs : bufs_t) : res bufs_t :=
  if (i =? 0)%nat then
    do s <- from_opt IndexError (ss !! j);
    do v <- from_opt IndexError (out !! (off + j - n_mit_mot op));
    do p <- from_opt IndexError (pos !! j);
    update_cell j (fun c => do b <- nit_sot_storage s v c;
                            do b' <- py_setitem b p v;
                            Ok (Some b')) bufs
  else write_cur op pos out off j bufs.

(** 5.4, the shared output [jj] after the tracked ones. *)
Definition write_shared (op : Scan) (out : list V) (off : nat) (jj : nat)
    (shared : list (option V)) : res (list (option V)) :=
  do v <- from_opt IndexError
            (out !! (off + (n_tracked op + jj) - n_mit_mot op));
  update_cell jj (fun _ => Ok (Some v)) shared.

Definition advance_pos (pos ss : list Z) : res (list Z) :=
  res_mapM (fun '(idx, store) => py_mod (idx + 1) store) (zip pos ss).

(** The index of the termination condition in [output_storage]. *)
Definition cond_index (op : Scan) : nat :=
  n_mit_mot_outs op + (n_tracked op - n_mit_mot op) + n_shared_outs op.

(** *** The body of the main loop

    Step 4 of the loop hands slots of the buffers to the inner function
    as its output storage, so that it may write in place; on values this
    has no effect, and the copies of 5.2 and 5.3, which the code skips
    when the output already is the slot, are the assignments below.  The
    flags [vector_seqs] and [vector_outs] only choose between a slot and
    its reshaped view of rank 0, the same entry. *)

Definition step (op : Scan) (a : Args V) (seqs : list (list V))
    (ss : list Z) (st : LoopState V) : res (LoopState V) :=
  let i := ls_i st in
  let pos := ls_pos st in
  do in_seqs <- gather_seqs op seqs i;
  do in_taps <- gather_taps op ss pos (ls_bufs st);
  do in_shared <- gather_shared op a i (ls_shared st);
  let ins := in_seqs ++ in_taps ++ in_shared ++ other_args a in
  do out <- from_opt InnerError (fn ins);
  do cond <- (if as_while op then
                do c <- from_opt IndexError (out !! cond_index op);
                Ok (is_zero c)
              else Ok (ls_cond st));
  do r1 <- scatter_mit_mot op pos out (ls_bufs st);
  let '(bufs1, off) := r1 in
  do bufs2 <- for_each (xrange (n_mit_mot op) (n_outs op))
                (write_cur op pos out off) bufs1;
  do bufs3 <- for_each (xrange (n_outs op) (n_tracked op))
                (write_nit_sot op ss pos out off i) bufs2;
  do shared' <- for_each (xrange 0 (n_shared_outs op))
                  (write_shared op out off) (ls_shared st);
  do pos' <- advance_pos pos ss;
  Ok {| ls_i := S i; ls_cond := cond; ls_pos := pos';
        ls_bufs := bufs3; ls_shared := shared';
        ls_calls := ls_calls st ++ [{| c_in := ins; c_out := out |}] |}.

(** [while (i < n_steps) and cond], with [fuel] the steps left,
    [n_steps - i]. *)
Fixpoint main_loop (op : Scan) (a : Args V) (seqs : list (list V))
    (ss : list Z) (fuel : nat) (st : LoopState V)
    : LoopState V + error * list (call V) :=
  match fuel with
  | O => inl st
  | S fuel' =>
      if ls_cond st then
        match step op a seqs ss st with
        | Ok st' => main_loop op a seqs ss fuel' st'
        | Raise e => inr (e, ls_calls st)
        end
      else inl st
  end.

(** *** 6. Re-ordering the output buffers *)

(** The rotation of a wrapped buffer: the temporary [tmp] and the buffer
    after the two assignments. *)
Definition reorder (store pdx : Z) (b : list V) : list V * list V :=
  if (pdx <? store / 2)%Z then
    let tmp := slice_to b pdx in
    let b1 := assign_to b (store - pdx) (slice_from b pdx) in
    let b2 := assign_from b1 (store - pdx) tmp in
    (tmp, b2)
  else
    let tmp := slice_from b pdx in
    let b1 := assign_from b (store - pdx) (slice_to b pdx) in
    let b2 := assign_to b1 (store - pdx) tmp in
    (tmp, b2).

(** [outs[idx][0][k:] = 0] *)
Definition zero_from (b : list V) (k : Z) : list V :=
  slice_to b k ++ (zeros_like <$> slice_from b k).

(** The branch of an output that stopped before filling its buffer. *)
Definition pad_and_trim (n_steps : Z) (i : nat) (mintap : Z)
    (b : list V) : list V :=
  let b1 := zero_from b (Z.of_nat i - mintap) in
  if (Z.of_nat i <? n_steps)%Z then slice_to b1 (- (n_steps - Z.of_nat i))
  else b1.

Definition reconcile_one (op : Scan) (ss pos : list Z) (n_steps : Z)
    (i : nat) (idx : nat) (c : option (list V))
    : res (option (list V)) :=
  do m <- from_opt IndexError (mintaps op !! idx);
  do s <- from_opt IndexError (ss !! idx);
  do p <- from_opt IndexError (pos !! idx);
  if ((s <? Z.of_nat i - m) && (p <? s))%Z then
    do b <- from_opt TypeError c;
    Ok (Some (snd (reorder s p b)))
  else if (s >? Z.of_nat i - m)%Z then
    do b <- from_opt TypeError c;
    Ok (Some (pad_and_trim n_steps i m b))
  else Ok c.

Definition reconcile (op : Scan) (ss : list Z) (n_steps : Z)
    (st : LoopState V) : res bufs_t :=
  for_each (xrange (n_mit_mot op) (n_tracked op))
    (fun idx => update_cell idx
                  (reconcile_one op ss (ls_pos st) n_steps (ls_i st) idx))
    (ls_bufs st).

(** *** The whole call

    [outs] and [shared] are the output cells as the caller hands them
    over ([None], or the storage left by an earlier call). *)
Definition prepare (op : Scan) (a : Args V) (outs : bufs_t)
    : res (Z * list (list V) * list Z * list Z * bufs_t) :=
  do r <- unzip_seqs a;
  let '(n_steps, seqs) := r in
  let ss := store_steps a in
  do pos <- init_pos op ss;
  do bufs <- init_bufs op a ss outs;
  Ok (n_steps, seqs, ss, pos, bufs).

Definition execute (op : Scan) (a : Args V) (outs : bufs_t)
    (shared : list (option V)) : outcome V :=
  match prepare op a outs with
  | Raise e => Raised e []
  | Ok (n_steps, seqs, ss, pos, bufs) =>
      let st0 := {| ls_i := 0; ls_cond := true; ls_pos := pos;
                    ls_bufs := bufs; ls_shared := shared;
                    ls_calls := [] |} in
      match main_loop op a seqs ss (Z.to_nat n_steps) st0 with
      | inr (e, calls) => Raised e calls
      | inl st =>
          match reconcile op ss n_steps st with
          | Ok bufs' => Returned bufs' (ls_shared st) (ls_calls st)
          | Raise e => Raised e (ls_calls st)
          end
      end
  end.
End Execute.

Arguments check_seqs {V} n flip idx l.
Arguments unzip_seqs {V} a.
Arguments store_steps {V} a.
Arguments alloc_out {V} same_tail op idx prev init store mintap.
Arguments init_bufs {V} same_tail op a ss outs.
Arguments gather_seqs {V} op seqs i.
Arguments read_tap {V} ss pos bufs idx tap.
Arguments gather_taps {V} op ss pos bufs.
Arguments gather_shared {V} op a i shared.
Arguments set_slot {V} j k v bufs.
Arguments write_slice {V} pos out j k st.
Arguments scatter_mit_mot {V} op pos out bufs.
Arguments write_cur {V} op pos out off j bufs.
Arguments nit_sot_storage {V} zeros_like fits s v c.
Arguments write_nit_sot {V} zeros_like fits op ss pos out off i j bufs.
Arguments write_shared {V} op out off jj shared.
Arguments step {V} zeros_like is_zero fits fn op a seqs ss st.
Arguments main_loop {V} zeros_like is_zero fits fn op a seqs ss fuel st.
Arguments reorder {V} store pdx b.
Arguments zero_from {V} zeros_like b k.
Arguments pad_and_trim {V} zeros_like n_steps i mintap b.
Arguments reconcile_one {V} zeros_like op ss pos n_steps i idx c.
Arguments reconcile {V} zeros_like op ss n_steps st.
Arguments prepare {V} same_tail op a outs.
Arguments execute {V} zeros_like is_zero same_tail fits fn op a outs shared.


(** ** [Scan.grad]: the configuration of the backward loop *)

Module Grad.

(** [numpy.sum([0] + [len(self.tap_array[x]) for x in xrange(b, e)])] *)
Definition n_ins (op : Scan) (b e : nat) : res nat :=
  do ls <- res_mapM (fun x => do t <- from_opt IndexError
                                       (tap_array op !! x);
                              Ok (length t))
                    (xrange b e);
  Ok (sum_list ls).

(** The lists [mit_mot_taps] and [mit_mot_out_slices] and the counter
    [n_mit_mot_outs] that step 10 builds. *)
Record taps : Type := {
  mit_mot_taps : list (list Z);
  out_slices : list (list Z);
  n_outs_acc : nat
}.

(** [ll[idx].append(v)] *)
Definition append_at (idx : nat) (v : Z) (ll : list (list Z))
    : res (list (list Z)) :=
  update_cell idx (fun l => Ok (l ++ [v])) ll.

Definition open_channel (t0 s0 : list Z) (t : taps) : taps :=
  {| mit_mot_taps := mit_mot_taps t ++ [t0];
     out_slices := out_slices t ++ [s0];
     n_outs_acc := n_outs_acc t |}.

(** The loop over the forward MIT-MOT outputs. *)
Definition mit_mot_body (op : Scan) (idx : nat) (t : taps) : res taps :=
  let t := open_channel [] [] t in
  do sl <- from_opt IndexError (mit_mot_out_slices op !! idx);
  do t <- for_each sl
            (fun k t =>
               do tp <- append_at idx (- k) (mit_mot_taps t);
               Ok {| mit_mot_taps := tp; out_slices := out_slices t;
                     n_outs_acc := n_outs_acc t |}) t;
  do ta <- from_opt IndexError (tap_array op !! idx);
  for_each ta
    (fun k t =>
       do tp <- append_at idx (- k) (mit_mot_taps t);
       do os <- append_at idx (- k) (out_slices t);
       Ok {| mit_mot_taps := tp; out_slices := os;
             n_outs_acc := S (n_outs_acc t) |}) t.

(** The loop over the forward MIT-SOT outputs; [offset] is
    [self.n_mit_mot].  The taps go to entry [idx + offset], the output
    slices to entry [idx]. *)
Definition mit_sot_body (op : Scan) (idx : nat) (t : taps) : res taps :=
  let offset := n_mit_mot op in
  let t := open_channel [] [] t in
  let idx_tap := idx + n_mit_mot op in
  do ta <- from_opt IndexError (tap_array op !! idx_tap);
  do t <- for_each ta
            (fun k t =>
               do tp <- append_at (idx + offset) (- k) (mit_mot_taps t);
               do os <- append_at idx (- k) (out_slices t);
               Ok {| mit_mot_taps := tp; out_slices := os;
                     n_outs_acc := S (n_outs_acc t) |}) t;
  do tp <- append_at (idx + offset) 0 (mit_mot_taps t);
  Ok {| mit_mot_taps := tp; out_slices := out_slices t;
        n_outs_acc := n_outs_acc t |}.

(** The loop over the forward SIT-SOT outputs. *)
Definition sit_sot_body (idx : nat) (t : taps) : res taps :=
  let t := open_channel [0; 1]%Z [1%Z] t in
  Ok {| mit_mot_taps := mit_mot_taps t; out_slices := out_slices t;
        n_outs_acc := S (n_outs_acc t) |}.

Definition backward_taps (op : Scan) : res taps :=
  let t := {| mit_mot_taps := []; out_slices := []; n_outs_acc := 0 |} in
  do t <- for_each (xrange 0 (n_mit_mot op)) (mit_mot_body op) t;
  do t <- for_each (xrange 0 (n_mit_sot op)) (mit_sot_body op) t;
  for_each (xrange 0 (n_sit_sot op)) sit_sot_body t.

(** The [info] of the backward op; [n_other] is the number of
    non-sequence inputs of the inner function, [len(other_args)]. *)
Definition backward_info (op : Scan) (n_other : nat) : res Scan :=
  do n_ins_mit_mot <- n_ins op 0 (n_mit_mot op);
  do n_ins_mit_sot <- n_ins op (n_mit_mot op)
                        (n_mit_mot op + n_mit_sot op);
  do t <- backward_taps op;
  Ok {| n_seqs := n_seqs op + n_ins_mit_mot + n_ins_mit_sot
                  + n_sit_sot op + n_nit_sot op;
        n_mit_sot := 0;
        tap_array := mit_mot_taps t;
        n_mit_mot := n_mit_mot op + n_mit_sot op + n_sit_sot op;
        n_mit_mot_outs := n_outs_acc t;
        mit_mot_out_slices := out_slices t;
        truncate_gradient := truncate_gradient op;
        n_sit_sot := 0;
        n_shared_outs := n_other + n_shared_outs op;
        n_nit_sot := n_seqs op;
        as_while := as_while op;
        inplace := false |}.

(** The number of steps the backward op is called with, [do_steps]. *)
Definition do_steps (op : Scan) (n_steps : Z) : Z :=
  if negb (truncate_gradient op =? -1)%Z
  then Z.min n_steps (truncate_gradient op)
  else n_steps.

(** The integer arguments of the call [local_op( *scan_inputs)]: the
    number of steps and the trip counts of the NIT-SOT outputs of the
    backward op, [args[0]] each. *)
Definition backward_steps (op : Scan) (n_steps : Z) : Z * list Z :=
  (do_steps op n_steps, replicate (n_seqs op) n_steps).

(** *** Steps 5 to 8: the gradients of the inner inputs

    The inner graph is symbolic; the terms below are the graph nodes
    the code builds. *)
Inductive gexpr : Type :=
  | GLocal (dx p : nat)   (* the gradient of output [dx] with respect to
                             [diff_inputs[p]], for the incoming [g_dx] *)
  | GPrev (p : nat)       (* [prev_inner_gfn_outs[p]] *)
  | GAdd (x y : gexpr)    (* [x + y] *)
  | GZeros (p : nat).     (* [tensor.zeros_like(diff_inputs[p])] *)

Section Gradients.
(** [has_path dx p]: [grad_sources_inputs] returns a gradient of
    output [dx] for [diff_inputs[p]]. *)
Variable has_path : nat -> nat -> bool.
Variable n_diff : nat.     (* [len(diff_inputs)] *)
Variable n_clean : nat.    (* [len(clean_outputs)] *)

Definition compute_gradient (dx : nat) : list (option gexpr) :=
  (fun p => if has_path dx p then Some (GLocal dx p) else None)
    <$> seq 0 n_diff.

(** 7.4, one entry: [x + y] if both are there, else the one that is (a
    graph variable counts as true, [None] as false). *)
Definition sum_pair (x y : option gexpr) : option gexpr :=
  match x, y with
  | Some x, Some y => Some (GAdd x y)
  | _, Some y => Some y
  | x, None => x
  end.

(** The body of loop 7.3 for output [dx]. *)
Definition add_output (op : Scan) (dx : nat)
    (inner_gfn_outs : list (option gexpr)) : list (option gexpr) :=
  let grad_outs := compute_gradient dx in
  let inner_gfn_outs :=
    match inner_gfn_outs with
    | [] => imap (fun idx _ => if (n_seqs op <=? idx)%nat
                               then Some (GPrev idx) else None)
                 grad_outs
    | _ => inner_gfn_outs
    end in
  zip_with sum_pair grad_outs inner_gfn_outs.

(** Step 8, the entries still [None]. *)
Definition mask (i : nat) (o : option gexpr) : gexpr :=
  match o with
  | None => GZeros i
  | Some e => e
  end.

Definition inner_gfn_outs (op : Scan) : list gexpr :=
  imap mask (foldl (fun acc dx => add_output op dx acc) []
                   (seq 0 n_clean)).
End Gradients.

(** The value of a gradient term at one element of the tensors. *)
Fixpoint denote (local : nat -> nat -> Z) (prev : nat -> Z) (e : gexpr)
    : Z :=
  match e with
  | GLocal dx p => local dx p
  | GPrev p => prev p
  | GAdd x y => (denote local prev x + denote local prev y)%Z
  | GZeros _ => 0%Z
  end.

(** The accumulator that the body of loop 7.3 adds to: the initial one
    when the list is still empty. *)
Definition eff (has_path : nat -> nat -> bool) (n_diff : nat) (op : Scan)
    (acc : list (option gexpr)) : list (option gexpr) :=
  match acc with
  | [] => imap (fun idx _ => if (n_seqs op <=? idx)%nat
                             then Some (GPrev idx) else None)
               (compute_gradient has_path n_diff 0)
  | _ => acc
  end.

(** The value of an accumulator entry, 0 for [None]. *)
Definition dopt (local : nat -> nat -> Z) (prev : nat -> Z)
    (o : option gexpr) : Z :=
  match o with
  | Some e => denote local prev e
  | None => 0%Z
  end.

(** The sum of the gradients that the outputs [0 .. n_clean - 1] send to
    input [p], at one element. *)
Definition path_sum (has_path : nat -> nat -> bool)
    (local : nat -> nat -> Z) (n_clean p : nat) : Z :=
  foldr Z.add 0%Z
    ((fun dx => if has_path dx p then local dx p else 0%Z) <$> seq 0 n_clean).

(** The entry for input [p] of the accumulator after the outputs
    [0 .. m - 1]. *)
Definition acc_entry (has_path : nat -> nat -> bool) (op : Scan)
    (m p : nat) : option gexpr :=
  foldl (fun y dx =>
           sum_pair (if has_path dx p then Some (GLocal dx p) else None) y)
        (if (n_seqs op <=? p)%nat then Some (GPrev p) else None)
        (seq 0 m).

End Grad.

(** Runs used as examples below. *)
Module Examples.
Definition run (fn : list Z -> option (list Z)) (op : Scan) (a : Args Z)
    (outs : list (option (list Z))) (shared : list (option Z))
    : outcome Z :=
  execute (fun _ => 0%Z) (Z.eqb 0) (fun _ _ => true) (fun _ _ => true)
          fn op a outs shared.

(** One sequence and no output but a NIT-SOT one that stacks the
    slices read. *)
Definition stack_op : Scan :=
  {| n_seqs := 1; n_mit_mot := 0; n_mit_sot := 0; n_sit_sot := 0;
     n_nit_sot := 1; n_shared_outs := 0; n_mit_mot_outs := 0;
     tap_array := []; mit_mot_out_slices := [];
     truncate_gradient := (-1)%Z; as_while := false; inplace := false |}.
Definition stack_fn (ins : list Z) : option (list Z) :=
  match ins with
  | [x] => Some [x]
  | _ => None
  end.
Definition stack_args (n_steps trip : Z) (s : list Z) : Args Z :=
  {| n_steps_arg := n_steps; seq_args := [s]; init_args := [];
     shared_args := []; nit_sot_args := [trip]; other_args := [] |}.
(** A loop with a termination condition: a SIT-SOT counter that stops
    once it exceeds 3. *)
Definition count_op : Scan :=
  {| n_seqs := 0; n_mit_mot := 0; n_mit_sot := 0; n_sit_sot := 1;
     n_nit_sot := 0; n_shared_outs := 0; n_mit_mot_outs := 0;
     tap_array := [[(-1)%Z]]; mit_mot_out_slices := [];
     truncate_gradient := (-1)%Z; as_while := true; inplace := false |}.
Definition count_fn (ins : list Z) : option (list Z) :=
  match ins with
  | [h] => Some [(h + 1)%Z; if (3 <? h + 1)%Z then 1%Z else 0%Z]
  | _ => None
  end.
Definition count_args (n_steps : Z) : Args Z :=
  {| n_steps_arg := n_steps; seq_args := [];
     init_args := [replicate (S (Z.to_nat n_steps)) 0%Z];
     shared_args := []; nit_sot_args := []; other_args := [] |}.
(** A MIT-MOT output as the gradient constructor makes them: taps 0 and
    1, one output slice at 1; the inner function adds the two taps. *)
Definition carry_op : Scan :=
  {| n_seqs := 0; n_mit_mot := 1; n_mit_sot := 0; n_sit_sot := 0;
     n_nit_sot := 0; n_shared_outs := 0; n_mit_mot_outs := 1;
     tap_array := [[0; 1]%Z]; mit_mot_out_slices := [[1%Z]];
     truncate_gradient := (-1)%Z; as_while := false; inplace := false |}.
Definition carry_fn (ins : list Z) : option (list Z) :=
  match ins with
  | [g0; g1] => Some [(g0 + g1)%Z]
  | _ => None
  end.
Definition carry_args : Args Z :=
  {| n_steps_arg := 3; seq_args := []; init_args := [[1; 1; 1; 1]%Z];
     shared_args := []; nit_sot_args := []; other_args := [] |}.
(** An op with one output of each kind that carries taps: a MIT-MOT
    output, a MIT-SOT output with taps -2 and -1 and a SIT-SOT output. *)
Definition mixed_op : Scan :=
  {| n_seqs := 1; n_mit_mot := 1; n_mit_sot := 1; n_sit_sot := 1;
     n_nit_sot := 0; n_shared_outs := 0; n_mit_mot_outs := 1;
     tap_array := [[0; 1]; [-2; -1]; [-1]]%Z;
     mit_mot_out_slices := [[1%Z]];
     truncate_gradient := 5; as_while := false; inplace := false |}.

(** The same without the MIT-MOT output. *)
Definition sot_op : Scan :=
  {| n_seqs := 1; n_mit_mot := 0; n_mit_sot := 1; n_sit_sot := 1;
     n_nit_sot := 0; n_shared_outs := 0; n_mit_mot_outs := 0;
     tap_array := [[-2; -1]; [-1]]%Z; mit_mot_out_slices := [];
     truncate_gradient := (-1)%Z; as_while := false; inplace := false |}.
(** A MIT-SOT output with the taps -2 and -1 whose inner function adds
    them: the Fibonacci numbers. *)
Definition fib_op : Scan :=
  {| n_seqs := 0; n_mit_mot := 0; n_mit_sot := 1; n_sit_sot := 0;
     n_nit_sot := 0; n_shared_outs := 0; n_mit_mot_outs := 0;
     tap_array := [[-2; -1]%Z]; mit_mot_out_slices := [];
     truncate_gradient := (-1)%Z; as_while := false; inplace := false |}.
Definition fib_fn (ins : list Z) : option (list Z) :=
  match ins with
  | [x; y] => Some [(x + y)%Z]
  | _ => None
  end.
Definition fib_args : Args Z :=
  {| n_steps_arg := 3; seq_args := []; init_args := [[1; 1; 0; 0; 0]%Z];
     shared_args := []; nit_sot_args := []; other_args := [] |}.
End Examples.

(** ** Vocabulary of the properties *)

(** A loop body that replaces cell [j] by a cell related to it by [R j]
    and leaves the other cells alone. *)
Definition cell_update {A} (body : nat -> list A -> res (list A))
    (R : nat -> A -> A -> Prop) : Prop :=
  forall j cells cells',
    body j cells = Ok cells' ->
    exists c c', cells !! j = Some c /\ R j c c' /\ cells' = <[j:=c']> cells.


(** [offset_out] after step 5.1: the number of output slices of the
    MIT-MOT outputs. *)
Definition mit_mot_total (op : Scan) : nat :=
  sum_list ((fun j => length (default [] (mit_mot_out_slices op !! j)))
              <$> xrange 0 (n_mit_mot op)).

(** The entry of [output_storage] that holds the new value of the tracked
    output [j], for [j] after the MIT-MOT block. *)
Definition sot_out_index (op : Scan) (j : nat) : nat :=
  mit_mot_total op + j - n_mit_mot op.

(** The first input of the inner function that belongs to output [j]:
    the sequences, then the taps of the outputs before [j]. *)
Definition tap_offset (op : Scan) (j : nat) : nat :=
  n_seqs op + sum_list (length <$> take j (tap_array op)).

(** Cell [c'] is cell [c] after [b[p] = v], where [b] is the storage
    that [pre] finds for [c]. *)
Definition wrote {V} (pre : nat -> option (list V) -> list V -> Prop)
    (pos : list Z) (out : list V) (oi : nat -> nat)
    (j : nat) (c c' : option (list V)) : Prop :=
  exists b b' p v,
    pre j c b /\ pos !! j = Some p /\ out !! oi j = Some v
    /\ py_setitem b p v = Ok b' /\ c' = Some b'.

(** The value of a MIT-SOT or SIT-SOT output at the logical step [z]: the
    entry of the initial state [seed] for a step before the loop (the
    initial state covers the steps [m .. -1]), and for a step of the loop
    the entry [oi] of what the inner function returned at that step. *)
Definition step_value {V} (calls : list (call V)) (seed : list V) (m : Z)
    (oi : nat) (z : Z) : option V :=
  if (z <? 0)%Z then seed !! Z.to_nat (z - m)
  else c ← calls !! Z.to_nat z; c_out c !! oi.

(** The ring buffer [b] of an output with [store_steps = s] and
    [mintap = m] after [i] iterations: the last [s] logical steps before
    step [i], as far as they exist (from step [m] on), sit each in the
    slot [(- m + z) mod s]. *)
Definition ring_ok {V} (s m : Z) (seed : list V) (oi : nat) (i : nat)
    (calls : list (call V)) (b : list V) : Prop :=
  Z.of_nat (length b) = s
  /\ forall z, (m <= z)%Z -> (Z.of_nat i - s <= z < Z.of_nat i)%Z ->
       b !! Z.to_nat ((- m + z) `mod` s)
       = step_value calls seed m oi z.

(** The positions after [i] iterations. *)
Definition pos_ok (op : Scan) (ss : list Z) (i : nat) (pos : list Z)
    : Prop :=
  length pos = n_tracked op
  /\ forall idx, idx < n_tracked op ->
       exists m s, mintaps op !! idx = Some m /\ ss !! idx = Some s
                   /\ s <> 0%Z
                   /\ pos !! idx = Some ((- m + Z.of_nat i) `mod` s)%Z.

(** The buffers after [i] iterations have their [store_steps] entries:
    those of the outputs with an initial state from the start, those of
    the NIT-SOT outputs once allocated. *)
Definition bufs_ok {V} (op : Scan) (ss : list Z) (i : nat)
    (bufs : list (option (list V))) : Prop :=
  forall idx s b,
    bufs !! idx = Some (Some b) -> ss !! idx = Some s ->
    idx < n_outs op \/ (0 < i /\ idx < n_tracked op /\ (0 <= s)%Z) ->
    Z.of_nat (length b) = s.

(** Every cell of [bufs'] is a cell of [bufs] of the same length. *)
Definition same_lengths {V} (bufs bufs' : list (option (list V))) : Prop :=
  forall k c', bufs' !! k = Some c' ->
    exists c, bufs !! k = Some c /\ length <$> c' = length <$> c.

(** What one successful iteration did, phase by phase. *)
Inductive step_trace {V} (zeros_like : V -> V) (is_zero : V -> bool)
    (fits : list V -> V -> bool) (fn : list V -> option (list V))
    (op : Scan) (a : Args V) (seqs : list (list V)) (ss : list Z)
    (st st' : LoopState V) : Prop :=
  StepTrace (in_seqs in_taps in_shared out : list V)
    (bufs1 : list (option (list V))) (off : nat)
    (bufs2 : list (option (list V)))
    (Hgather_seqs : gather_seqs op seqs (ls_i st) = Ok in_seqs)
    (Hgather_taps :
       gather_taps op ss (ls_pos st) (ls_bufs st) = Ok in_taps)
    (Hgather_shared :
       gather_shared op a (ls_i st) (ls_shared st) = Ok in_shared)
    (Hfn : fn (in_seqs ++ in_taps ++ in_shared ++ other_args a)
           = Some out)
    (Hcond :
       if as_while op
       then exists c, out !! cond_index op = Some c
                      /\ ls_cond st' = is_zero c
       else ls_cond st' = ls_cond st)
    (Hmit_mot :
       scatter_mit_mot op (ls_pos st) out (ls_bufs st) = Ok (bufs1, off))
    (Hsot :
       for_each (xrange (n_mit_mot op) (n_outs op))
         (write_cur op (ls_pos st) out off) bufs1 = Ok bufs2)
    (Hnit_sot :
       for_each (xrange (n_outs op) (n_tracked op))
         (write_nit_sot zeros_like fits op ss (ls_pos st) out off
            (ls_i st)) bufs2 = Ok (ls_bufs st'))
    (Hshared :
       for_each (xrange 0 (n_shared_outs op))
         (write_shared op out off) (ls_shared st) = Ok (ls_shared st'))
    (Hadvance : advance_pos (ls_pos st) ss = Ok (ls_pos st'))
    (Hi : ls_i st' = S (ls_i st))
    (Hcalls :
       ls_calls st'
       = ls_calls st
         ++ [{| c_in := in_seqs ++ in_taps ++ in_shared ++ other_args a;
                c_out := out |}]).


(** The run behind a returned result. *)
Inductive loop_run {V} (zeros_like : V -> V) (is_zero : V -> bool)
    (same_tail : list V -> list V -> bool) (fits : list V -> V -> bool)
    (fn : list V -> option (list V)) (op : Scan) (a : Args V)
    (outs : list (option (list V))) (shared : list (option V))
    (bufs : list (option (list V))) (sh : list (option V))
    (calls : list (call V)) : Prop :=
  Run (seqs : list (list V)) (pos0 : list Z)
    (bufs0 : list (option (list V))) (st : LoopState V)
    (Hseqs : unzip_seqs a = Ok (Z.abs (n_steps_arg a), seqs))
    (Hpos0 : init_pos op (store_steps a) = Ok pos0)
    (Hbufs0 : init_bufs same_tail op a (store_steps a) outs = Ok bufs0)
    (Hloop : main_loop zeros_like is_zero fits fn op a seqs
               (store_steps a) (Z.to_nat (Z.abs (n_steps_arg a)))
               {| ls_i := 0; ls_cond := true; ls_pos := pos0;
                  ls_bufs := bufs0; ls_shared := shared;
                  ls_calls := [] |} = inl st)
    (Hrec : reconcile zeros_like op (store_steps a)
              (Z.abs (n_steps_arg a)) st = Ok bufs)
    (Hsh : sh = ls_shared st)
    (Hcalls : calls = ls_calls st)
    (Hi : ls_i st = length calls)
    (Hpos : pos_ok op (store_steps a) (ls_i st) (ls_pos st))
    (Hbufs : bufs_ok op (store_steps a) (ls_i st) (ls_bufs st)).


(** The ring of the tracked output [j] in a state of the loop; a NIT-SOT
    output has no storage of its own before the first iteration. *)
Definition chan_inv {V} (op : Scan) (j : nat) (m s : Z) (seed : list V)
    (st : LoopState V) : Prop :=
  (n_outs op <= j /\ ls_i st = 0)
  \/ exists b, ls_bufs st !! j = Some (Some b)
               /\ ring_ok s m seed (sot_out_index op j) (ls_i st)
                    (ls_calls st) b.

(** ** Further vocabulary of [execute] *)

(** The entry of [output_storage] that holds the new value of the shared
    output [j]: after those of all the tracked outputs. *)
Definition shared_out_index (op : Scan) (j : nat) : nat :=
  mit_mot_total op + (n_tracked op + j) - n_mit_mot op.

(** The first input of the inner function that is a shared variable:
    after the sequences and the taps of all the outputs with taps. *)
Definition shared_offset (op : Scan) : nat := tap_offset op (n_outs op).

(** The cells that hold storage after [i] iterations: those of the
    outputs with an initial state, and those of the NIT-SOT outputs once
    the first iteration has allocated them. *)
Definition cells_some {V} (op : Scan) (i : nat)
    (bufs : list (option (list V))) : Prop :=
  forall idx, idx < n_outs op \/ (0 < i /\ idx < n_tracked op) ->
    exists b, bufs !! idx = Some (Some b).

(** What the loop keeps about the shared outputs: their cells hold what
    the last call returned for them, and every call read what the call
    before it returned, the first one the arguments. *)
Definition shared_inv {V} (op : Scan) (a : Args V)
    (shared : list (option V)) (st : LoopState V) : Prop :=
  ls_i st = length (ls_calls st)
  /\ (ls_calls st = [] -> ls_shared st = shared)
  /\ (forall calls' c j, ls_calls st = calls' ++ [c] ->
        j < n_shared_outs op ->
        exists v, c_out c !! shared_out_index op j = Some v
                  /\ ls_shared st !! j = Some (Some v))
  /\ forall i c j, ls_calls st !! i = Some c -> j < n_shared_outs op ->
       exists v, c_in c !! (shared_offset op + j) = Some v
         /\ (i = 0 -> shared_args a !! j = Some v)
         /\ (forall i', i = S i' ->
               exists c', ls_calls st !! i' = Some c'
                          /\ c_out c' !! shared_out_index op j = Some v).

(** More runs used as examples. *)
Module Runs.
(** A shared accumulator and one non-sequence argument that is added to
    it at every step. *)
Definition acc_op : Scan :=
  {| n_seqs := 0; n_mit_mot := 0; n_mit_sot := 0; n_sit_sot := 0;
     n_nit_sot := 0; n_shared_outs := 1; n_mit_mot_outs := 0;
     tap_array := []; mit_mot_out_slices := [];
     truncate_gradient := (-1)%Z; as_while := false; inplace := false |}.
Definition acc_fn (ins : list Z) : option (list Z) :=
  match ins with
  | [x; k] => Some [(x + k)%Z]
  | _ => None
  end.
Definition acc_args : Args Z :=
  {| n_steps_arg := 3; seq_args := []; init_args := [];
     shared_args := [0%Z]; nit_sot_args := []; other_args := [5%Z] |}.
Definition acc_calls : list (call Z) :=
  [{| c_in := [0; 5]%Z; c_out := [5%Z] |};
   {| c_in := [5; 5]%Z; c_out := [10%Z] |};
   {| c_in := [10; 5]%Z; c_out := [15%Z] |}].
(** The three iterations of the Fibonacci loop of [Examples]. *)
Definition fib_calls : list (call Z) :=
  [{| c_in := [1; 1]%Z; c_out := [2%Z] |};
   {| c_in := [1; 2]%Z; c_out := [3%Z] |};
   {| c_in := [2; 3]%Z; c_out := [5%Z] |}].
End Runs.

(** ** The accessors of the inner and outer variables *)

(** [l[b:e]] for non-negative bounds. *)
Definition py_slice {A} (l : list A) (b e : nat) : list A :=
  take (e - b) (drop b l).

(** [sum(len(x) for x in self.tap_array[:n])] *)
Definition n_taps_upto (op : Scan) (n : nat) : nat :=
  sum_list (length <$> take n (tap_array op)).

(** [sum(len(x) for x in self.mit_mot_out_slices)] *)
Definition n_out_slices (op : Scan) : nat :=
  sum_list (length <$> mit_mot_out_slices op).

(** [inputs] and [outputs] are [self.inputs] and [self.outputs], the
    variables of the inner function; [node_inputs] and [node_outputs] are
    [node.inputs] and [node.outputs]. *)
Section Accessors.
Context {A : Type}.
Variable op : Scan.

Definition inner_seqs (inputs : list A) : list A :=
  take (n_seqs op) inputs.

Definition outer_seqs (node_inputs : list A) : list A :=
  py_slice node_inputs 1 (1 + n_seqs op).

Definition inner_mitmot (inputs : list A) : list A :=
  let n_taps := n_taps_upto op (n_mit_mot op) in
  py_slice inputs (n_seqs op) (n_seqs op + n_taps).

Definition outer_mitmot (node_inputs : list A) : list A :=
  py_slice node_inputs (1 + n_seqs op) (1 + n_seqs op + n_mit_mot op).

Definition inner_mitmot_outs (outputs : list A) : list A :=
  let n_taps := n_out_slices op in
  take n_taps outputs.

Definition outer_mitmot_outs (node_outputs : list A) : list A :=
  take (n_mit_mot op) node_outputs.

Definition mitmot_taps : list (list Z) :=
  take (n_mit_mot op) (tap_array op).

Definition mitmot_out_taps : list (list Z) :=
  take (n_mit_mot op) (mit_mot_out_slices op).

Definition inner_mitsot (inputs : list A) : list A :=
  let n_mitmot_taps := n_taps_upto op (n_mit_mot op) in
  let ntaps_upto_sit_sot := n_taps_upto op (n_mit_mot op + n_mit_sot op) in
  py_slice inputs (n_seqs op + n_mitmot_taps)
           (n_seqs op + ntaps_upto_sit_sot).

Definition outer_mitsot (node_inputs : list A) : list A :=
  let offset := 1 + n_seqs op + n_mit_mot op in
  py_slice node_inputs offset (offset + n_mit_sot op).

Definition inner_mitsot_outs (outputs : list A) : list A :=
  let n_taps := n_out_slices op in
  py_slice outputs n_taps (n_taps + n_mit_sot op).

Definition outer_mitsot_outs (node_outputs : list A) : list A :=
  py_slice node_outputs (n_mit_mot op) (n_mit_mot op + n_mit_sot op).

Definition mitsot_taps : list (list Z) :=
  py_slice (tap_array op) (n_mit_mot op) (n_mit_mot op + n_mit_sot op).

Definition inner_sitsot (inputs : list A) : list A :=
  let n_taps_upto_sit_sot := n_taps_upto op (n_mit_mot op + n_mit_sot op) in
  let offset := n_seqs op + n_taps_upto_sit_sot in
  py_slice inputs offset (offset + n_sit_sot op).

Definition outer_sitsot (node_inputs : list A) : list A :=
  let offset := 1 + n_seqs op + n_mit_mot op + n_mit_sot op in
  py_slice node_inputs offset (offset + n_sit_sot op).

Definition inner_sitsot_outs (outputs : list A) : list A :=
  let n_taps := n_out_slices op in
  let offset := n_mit_sot op + n_taps in
  py_slice outputs offset (offset + n_sit_sot op).

Definition outer_sitsot_outs (node_outputs : list A) : list A :=
  let offset := n_mit_mot op + n_mit_sot op in
  py_slice node_outputs offset (offset + n_sit_sot op).

Definition outer_nitsot (node_inputs : list A) : list A :=
  let offset := 1 + n_seqs op + n_mit_mot op + n_mit_sot op
                + n_sit_sot op + n_shared_outs op in
  py_slice node_inputs offset (offset + n_nit_sot op).

Definition inner_nitsot_outs (outputs : list A) : list A :=
  let n_taps := n_out_slices op in
  let offset := n_mit_sot op + n_taps + n_sit_sot op in
  py_slice outputs offset (offset + n_nit_sot op).

Definition outer_nitsot_outs (node_outputs : list A) : list A :=
  let offset := n_mit_mot op + n_mit_sot op + n_sit_sot op in
  py_slice node_outputs offset (offset + n_nit_sot op).

Definition inner_shared (inputs : list A) : list A :=
  let n_taps_upto_sit_sot := n_taps_upto op (n_mit_mot op + n_mit_sot op) in
  let offset := n_seqs op + n_taps_upto_sit_sot + n_sit_sot op in
  py_slice inputs offset (offset + n_shared_outs op).

Definition outer_shared (node_inputs : list A) : list A :=
  let offset := 1 + n_seqs op + n_mit_mot op + n_mit_sot op
                + n_sit_sot op in
  py_slice node_inputs offset (offset + n_shared_outs op).

Definition inner_shared_outs (outputs : list A) : list A :=
  let n_taps := n_out_slices op in
  let offset := n_mit_sot op + n_taps + n_sit_sot op + n_nit_sot op in
  py_slice outputs offset (offset + n_shared_outs op).

Definition outer_shared_outs (node_outputs : list A) : list A :=
  let offset := n_mit_mot op + n_mit_sot op + n_sit_sot op
                + n_nit_sot op in
  py_slice node_outputs offset (offset + n_shared_outs op).

Definition inner_non_seqs (inputs : list A) : list A :=
  let n_taps_upto_sit_sot := n_taps_upto op (n_mit_mot op + n_mit_sot op) in
  let offset := n_seqs op + n_taps_upto_sit_sot + n_sit_sot op
                + n_shared_outs op in
  drop offset inputs.

Definition outer_non_seqs (node_inputs : list A) : list A :=
  let offset := 1 + n_seqs op + n_mit_mot op + n_mit_sot op
                + n_sit_sot op + n_nit_sot op + n_shared_outs op in
  drop offset node_inputs.
End Accessors.

(** ** [Scan.__init__]: the types of the outputs and the destroy map *)

Section OutputTypes.
Context {T : Type}.
(** [typeConstructor(broadcastable=(False,) + o.type.broadcastable,
    dtype=o.type.dtype)], the type of [o] with a leading dimension. *)
Variable with_time : T -> T.

(** The loop [while idx < self.n_mit_mot_outs]; [rest] is
    [self.mit_mot_out_slices[jdx:]].  It returns the types appended and
    the final [idx]. *)
Fixpoint mit_mot_types (n_mit_mot_outs : nat) (outputs : list T)
    (rest : list (list Z)) (idx : nat) {struct rest}
    : res (list T * nat) :=
  if (idx <? n_mit_mot_outs)%nat then
    do o <- from_opt IndexError (outputs !! idx);
    match rest with
    | [] => Raise IndexError
    | sl :: rest' =>
        do r <- mit_mot_types n_mit_mot_outs outputs rest'
                  (idx + length sl);
        Ok (with_time o :: fst r, snd r)
    end
  else Ok ([], idx).

(** [self.output_types], from the types of [outputs]. *)
Definition output_types (op : Scan) (outputs : list T) : res (list T) :=
  do r <- mit_mot_types (n_mit_mot_outs op) outputs
            (mit_mot_out_slices op) 0;
  let idx := snd r in
  let end_ := idx + n_mit_sot op + n_sit_sot op + n_nit_sot op in
  let tys := fst r ++ (with_time <$> py_slice outputs idx end_)
             ++ drop end_ outputs in
  Ok (if as_while op then slice_to tys (-1) else tys).
End OutputTypes.

(** [self.destroy_map], as the list of its items. *)
Definition destroy_map (op : Scan) : list (nat * list nat) :=
  if inplace op then
    (fun idx => (idx, [idx + 1 + n_seqs op]))
      <$> xrange 0 (n_mit_mot op + n_mit_sot op + n_sit_sot op)
  else [].

(** ** [Scan.grad]: the arguments of the backward loop and its results *)

(** [numpy.max(x)] of a non-empty list. *)
Definition np_max (l : list Z) : Z :=
  match l with
  | [] => 0%Z
  | x :: r => foldl Z.max x r
  end.

(** [l[a:b]] for bounds of any sign. *)
Definition py_slice_z {A} (l : list A) (a b : Z) : list A :=
  let a' := py_clip (length l) a in
  let b' := py_clip (length l) b in
  take (b' - a') (drop a' l).

Module GradArgs.
Section Sequences.
Context {V : Type}.

(** The sequence cut for the tap [k] of an output with the taps [taps],
    from [seq], the output reversed. *)
Definition tap_seq (mintap maxtap : Z) (seq : list V) (k : Z) : list V :=
  let dim_offset := if (maxtap <? 0)%Z then Z.abs maxtap else 0%Z in
  if (maxtap =? mintap)%Z && negb (maxtap =? 0)%Z then
    slice_to seq (Z.abs maxtap)
  else if negb (maxtap - k =? 0)%Z then
    py_slice_z seq (dim_offset + k - mintap) (- (maxtap - k))
  else slice_from seq (dim_offset + k - mintap).

(** The body of the loop over the MIT-MOT and MIT-SOT outputs; [offset]
    is 0.  [numpy.min] raises on an empty list of taps. *)
Definition tap_seqs (op : Scan) (scan_outputs : list (list V)) (idx : nat)
    (scan_seqs : list (list V)) : res (list (list V)) :=
  let offset := 0 in
  do taps <- from_opt IndexError (tap_array op !! idx);
  do _ <- (if decide (taps = []) then Raise ValueError else Ok tt);
  let mintap := np_min taps in
  let maxtap := np_max taps in
  do out <- from_opt IndexError (scan_outputs !! (offset + idx));
  let seq := reverse out in
  Ok (scan_seqs ++ (tap_seq mintap maxtap seq <$> taps)).

(** The body of the loop over the SIT-SOT outputs; [offset] is
    [self.n_mit_sot]. *)
Definition sit_sot_seq (op : Scan) (scan_outputs : list (list V))
    (idx : nat) (scan_seqs : list (list V)) : res (list (list V)) :=
  let offset := n_mit_sot op in
  do out <- from_opt IndexError (scan_outputs !! (offset + idx));
  let seq := slice_to out (-1) in
  Ok (scan_seqs ++ [reverse seq]).

(** [scan_seqs], the sequences of the backward loop: [seqs] is
    [args[1:self.n_seqs + 1]], [scan_outputs] the outputs of the forward
    loop and [g_outs] the gradients that come in for them. *)
Definition scan_seqs (op : Scan) (seqs scan_outputs g_outs : list (list V))
    : res (list (list V)) :=
  let scan_seqs := reverse <$> seqs in
  do scan_seqs <- for_each (xrange 0 (n_mit_mot op + n_mit_sot op))
                    (tap_seqs op scan_outputs) scan_seqs;
  do scan_seqs <- for_each (xrange 0 (n_sit_sot op))
                    (sit_sot_seq op scan_outputs) scan_seqs;
  let offset := n_mit_mot_outs op + n_mit_sot op + n_sit_sot op in
  Ok (scan_seqs
      ++ (reverse <$> py_slice g_outs offset (offset + n_nit_sot op))).

(** The list that [grad] returns, from the outputs of the backward loop;
    [n_other] is the local variable [n_shared_outs], the number of
    non-sequences of the inner function. *)
Definition gradients (op : Scan) (n_other : nat)
    (outputs : list (list V)) : list (option (list V)) :=
  let offset := n_mit_mot op + n_mit_sot op + n_sit_sot op in
  let end_ := n_mit_mot op + n_mit_sot op + n_sit_sot op in
  let begin := end_ + n_seqs op in
  let end' := begin + n_other in
  [None]
  ++ ((fun x => Some (reverse x))
        <$> py_slice outputs offset (offset + n_seqs op))
  ++ ((fun x => Some (reverse x)) <$> take end_ outputs)
  ++ replicate (n_shared_outs op) None
  ++ replicate (n_nit_sot op) None
  ++ (Some <$> py_slice outputs begin end').
End Sequences.

(** The lists that step 10 of [grad] builds after [k] channels: one list
    of taps and one list of output slices per channel, and the counter
    of the output slices. *)
Definition channels_ok (k : nat) (t : Grad.taps) : Prop :=
  length (Grad.mit_mot_taps t) = k
  /\ length (Grad.out_slices t) = k
  /\ sum_list (length <$> Grad.out_slices t) = Grad.n_outs_acc t.
End GradArgs.

(** ** [Scan.R_op] *)

Module Rop.

(** The [info] of the op that [R_op] builds. *)
Definition info (op : Scan) : Scan :=
  let new_tap_array :=
    let b := 0 in
    let e := n_mit_mot op in
    let t1 := py_slice (tap_array op) b e ++ py_slice (tap_array op) b e in
    let b := e in
    let e := e + n_mit_sot op in
    let t2 := py_slice (tap_array op) b e ++ py_slice (tap_array op) b e in
    let b := e in
    let e := e + n_sit_sot op in
    let t3 := py_slice (tap_array op) b e ++ py_slice (tap_array op) b e in
    t1 ++ t2 ++ t3 in
  {| n_seqs := n_seqs op * 2;
     n_mit_sot := n_mit_sot op * 2;
     n_sit_sot := n_sit_sot op * 2;
     n_mit_mot := n_mit_mot op * 2;
     n_nit_sot := n_nit_sot op * 2;
     n_shared_outs := n_shared_outs op * 2;
     as_while := as_while op;
     truncate_gradient := truncate_gradient op;
     inplace := false;
     mit_mot_out_slices := mit_mot_out_slices op ++ mit_mot_out_slices op;
     tap_array := new_tap_array;
     n_mit_mot_outs := n_out_slices op |}.

Section Variables.
Context {A : Type}.

(** The inputs of the node of the new op, from the inputs of the node
    of [op] and their evaluation points. *)
Definition scan_inputs (op : Scan) (inputs eval_points : list A)
    : res (list A) :=
  let b := 1 in
  let e := 1 + n_seqs op in
  let scan_seqs := py_slice inputs b e ++ py_slice eval_points b e in
  let b := e in
  let e := e + n_mit_mot op in
  let scan_mit_mot := py_slice inputs b e ++ py_slice eval_points b e in
  let b := e in
  let e := e + n_mit_sot op in
  let scan_mit_sot := py_slice inputs b e ++ py_slice eval_points b e in
  let b := e in
  let e := e + n_sit_sot op in
  let scan_sit_sot := py_slice inputs b e ++ py_slice eval_points b e in
  let b := e in
  let e := e + n_shared_outs op in
  let scan_shared := py_slice inputs b e ++ py_slice eval_points b e in
  let b := e in
  let e := e + n_nit_sot op in
  let scan_nit_sot := py_slice inputs b e ++ py_slice inputs b e in
  let scan_other := drop e inputs ++ drop e eval_points in
  do n_steps <- from_opt IndexError (inputs !! 0);
  Ok ([n_steps] ++ scan_seqs ++ scan_mit_mot ++ scan_mit_sot
      ++ scan_sit_sot ++ scan_shared ++ scan_nit_sot ++ scan_other).

(** The inputs of the inner function of the new op, from those of [op]
    and their evaluation points. *)
Definition inner_ins (op : Scan) (self_inputs inner_eval_points : list A)
    : list A :=
  let ib := 0 in
  let ie := n_seqs op in
  let inner_seqs := py_slice self_inputs ib ie
                    ++ py_slice inner_eval_points ib ie in
  let ib := ie in
  let ie := ie + n_taps_upto op (n_mit_mot op) in
  let inner_mit_mot := py_slice self_inputs ib ie
                       ++ py_slice inner_eval_points ib ie in
  let ib := ie in
  let ie := ie + sum_list (length <$> py_slice (tap_array op) (n_mit_mot op)
                                        (n_mit_mot op + n_mit_sot op)) in
  let inner_mit_sot := py_slice self_inputs ib ie
                       ++ py_slice inner_eval_points ib ie in
  let ib := ie in
  let ie := ie + n_sit_sot op in
  let inner_sit_sot := py_slice self_inputs ib ie
                       ++ py_slice inner_eval_points ib ie in
  let ib := ie in
  let ie := ie + n_shared_outs op in
  let inner_shared := py_slice self_inputs ib ie
                      ++ py_slice inner_eval_points ib ie in
  let inner_other := drop ie self_inputs ++ drop ie inner_eval_points in
  inner_seqs ++ inner_mit_mot ++ inner_mit_sot ++ inner_sit_sot
  ++ inner_shared ++ inner_other.

(** The outputs of the inner function of the new op, from those of [op]
    and the results [rop_outs] of [tensor.Rop] on them. *)
Definition inner_outs (op : Scan) (self_outputs rop_outs : list A)
    : res (list A) :=
  let n_mit_mot_outs := n_out_slices op in
  let b := 0 in
  let e := n_mit_mot_outs in
  let inner_out_mit_mot := py_slice self_outputs b e
                           ++ py_slice rop_outs b e in
  let b := e in
  let e := e + n_mit_sot op in
  let inner_out_mit_sot := py_slice self_outputs b e
                           ++ py_slice rop_outs b e in
  let b := e in
  let e := e + n_sit_sot op in
  let inner_out_sit_sot := py_slice self_outputs b e
                           ++ py_slice rop_outs b e in
  let b := e in
  let e := e + n_nit_sot op in
  let inner_out_nit_sot := py_slice self_outputs b e
                           ++ py_slice rop_outs b e in
  let b := e in
  let e := e + n_shared_outs op in
  let inner_out_shared := py_slice self_outputs b e
                          ++ py_slice rop_outs b e in
  let inner_outs := inner_out_mit_mot ++ inner_out_mit_sot
                    ++ inner_out_sit_sot ++ inner_out_nit_sot
                    ++ inner_out_shared in
  if as_while op then
    do c <- py_getitem self_outputs (-1);
    Ok (inner_outs ++ [c])
  else Ok inner_outs.

(** The results that [R_op] selects among the outputs of the node of
    the new op. *)
Definition final_outs (op : Scan) (outputs : list A) : list A :=
  let b := n_mit_mot op in
  let e := n_mit_mot op * 2 in
  let f1 := py_slice outputs b e in
  let b := e + n_mit_sot op in
  let e := e + n_mit_sot op * 2 in
  let f2 := py_slice outputs b e in
  let b := e + n_sit_sot op in
  let e := e + n_sit_sot op * 2 in
  let f3 := py_slice outputs b e in
  let b := e + n_nit_sot op in
  let e := e + n_nit_sot op * 2 in
  let f4 := py_slice outputs b e in
  let b := e + n_shared_outs op in
  let e := e + n_shared_outs op * 2 in
  let f5 := py_slice outputs b e in
  f1 ++ f2 ++ f3 ++ f4 ++ f5.
End Variables.

(** The output of the new op that stands for the output [k] of [op]
    ([twin = false]) or for its evaluation point ([twin = true]); [k]
    counts the outputs of the node of [op]: those with an initial state,
    the NIT-SOT ones, the shared ones. *)
Definition twin_index (op : Scan) (twin : bool) (k : nat) : nat :=
  let block (start size : nat) :=
    2 * start + (k - start) + (if twin then size else 0) in
  if (k <? n_mit_mot op)%nat then block 0 (n_mit_mot op)
  else if (k <? n_mit_mot op + n_mit_sot op)%nat
       then block (n_mit_mot op) (n_mit_sot op)
  else if (k <? n_outs op)%nat
       then block (n_mit_mot op + n_mit_sot op) (n_sit_sot op)
  else if (k <? n_tracked op)%nat then block (n_outs op) (n_nit_sot op)
  else block (n_tracked op) (n_shared_outs op).
End Rop.

(** ** [Scan.make_node] *)

Module Node.

(** The exceptions of [make_node]: its three [ValueError]s, by message,
    and the errors of indexing and of attribute access. *)
Inductive node_error : Type :=
  | SequenceDtype (idx : nat)   (* [err_msg1] for the sequence [idx] *)
  | StateDtype (index : nat)    (* [err_msg1] for the initial state that
                                   is the input [index] of the node *)
  | OutputDtype (index : nat)   (* [err_msg2] for the input [index] *)
  | TripCountNotInt             (* "you need to provide a scalar int" *)
  | NodeIndexError
  | AttributeError.

Definition nres (A : Type) : Type := (node_error + A)%type.

Definition nbind {A B} (m : nres A) (f : A -> nres B) : nres B :=
  match m with
  | inl e => inl e
  | inr a => f a
  end.

Notation "'nodo' x <- m ; f" := (nbind m (fun x => f))
  (at level 10, x pattern, m at level 100, f at level 200).

Definition nfrom_opt {A} (o : option A) : nres A :=
  match o with
  | Some a => inr a
  | None => inl NodeIndexError
  end.

Fixpoint nfor_each {J S} (js : list J) (body : J -> S -> nres S) (s : S)
  : nres S :=
  match js with
  | [] => inr s
  | j :: r => nodo s' <- body j s; nfor_each r body s'
  end.

(** A variable of a graph: a tensor variable, with its dtype and its
    number of dimensions, or a variable of another type, which has
    neither attribute. *)
Inductive variable (D : Type) : Type :=
  | Tensor (dtype : D) (ndim : nat)
  | Generic.
Arguments Tensor {D} dtype ndim.
Arguments Generic {D}.

(** What [make_node] leaves: the two lists of flags it sets on the op
    and the [Apply] node. *)
Record apply_node (D T : Type) : Type := {
  vector_seqs : list bool;
  vector_outs : list bool;
  node_inputs : list (variable D);
  node_outputs : list T
}.
Arguments vector_seqs {D T} _.
Arguments vector_outs {D T} _.
Arguments node_inputs {D T} _.
Arguments node_outputs {D T} _.

Section MakeNode.
Context {D : Type} `{EqDecision D}.
(** [str(dtype)[:3] in ('uin', 'int')] *)
Variable is_int : D -> bool.

Definition dtype (v : variable D) : nres D :=
  match v with
  | Tensor d _ => inr d
  | Generic => inl AttributeError
  end.

Definition ndim (v : variable D) : nres nat :=
  match v with
  | Tensor _ n => inr n
  | Generic => inl AttributeError
  end.

(** [[x.ndim == 1 for x in l]] *)
Fixpoint vector_flags (l : list (variable D)) : nres (list bool) :=
  match l with
  | [] => inr []
  | x :: r => nodo n <- ndim x;
              nodo fs <- vector_flags r;
              inr ((n =? 1)%nat :: fs)
  end.

(** [a.dtype != b.dtype] raises [e], for [a = l1[i1]] and
    [b = l2[i2]]. *)
Definition check_dtypes (l1 : list (variable D)) (i1 : nat)
    (l2 : list (variable D)) (i2 : nat) (e : node_error) : nres unit :=
  nodo x <- nfrom_opt (l1 !! i1);
  nodo dx <- dtype x;
  nodo y <- nfrom_opt (l2 !! i2);
  nodo dy <- dtype y;
  if decide (dx = dy) then inr tt else inl e.

Section Checks.
(** [inputs] are the inputs of the node, [self_inputs] and
    [self_outputs] the variables of the inner function. *)
Variable op : Scan.
Variables inputs self_inputs self_outputs : list (variable D).

Definition check_seq (idx : nat) (_ : unit) : nres unit :=
  check_dtypes inputs (1 + idx) self_inputs idx (SequenceDtype idx).

(** One tap of the initial state [inputs[index]]; the state of the loop
    is [index_i]. *)
Definition check_tap (index : nat) (k : Z) (index_i : nat) : nres nat :=
  nodo _ <- check_dtypes inputs index self_inputs index_i
              (StateDtype index);
  inr (S index_i).

(** One output for the initial state [inputs[index]]; the state is
    [index_o]. *)
Definition check_out (index : nat) (index_o : nat) : nres nat :=
  nodo _ <- check_dtypes inputs index self_outputs index_o
              (OutputDtype index);
  inr (S index_o).

(** The body of the loop over the MIT-MOT outputs; the state is
    [(index_i, index_o)]. *)
Definition mit_mot_checks (start index : nat) (st : nat * nat)
    : nres (nat * nat) :=
  nodo taps <- nfrom_opt (tap_array op !! (index - start));
  nodo index_i <- nfor_each taps (check_tap index) (fst st);
  nodo slices <- nfrom_opt (mit_mot_out_slices op !! (index - start));
  nodo index_o <- nfor_each slices (fun _ => check_out index) (snd st);
  inr (index_i, index_o).

(** The body of the loop over the MIT-SOT and SIT-SOT outputs. *)
Definition sot_checks (start index : nat) (st : nat * nat)
    : nres (nat * nat) :=
  nodo taps <- nfrom_opt (tap_array op !! (index - start));
  nodo index_i <- nfor_each taps (check_tap index) (fst st);
  nodo index_o <- check_out index (snd st);
  inr (index_i, index_o).

(** The body of the loop over the shared variables; the state is
    [index_o]. *)
Definition shared_check (index : nat) (index_o : nat) : nres nat :=
  nodo x <- nfrom_opt (inputs !! index);
  match x with
  | Tensor dx _ =>
      nodo y <- nfrom_opt (self_outputs !! index_o);
      nodo dy <- dtype y;
      if decide (dx = dy) then inr (S index_o)
      else inl (OutputDtype index)
  | Generic => inr (S index_o)
  end.

(** The check of the trip count [x] of a NIT-SOT output. *)
Definition check_trip_count (x : variable D) (_ : unit) : nres unit :=
  nodo d <- dtype x;
  if negb (is_int d) then inl TripCountNotInt
  else nodo n <- ndim x;
       if (n =? 0)%nat then inr tt else inl TripCountNotInt.

(** [output_types] is [self.output_types]. *)
Definition make_node {T} (output_types : list T)
    : nres (apply_node D T) :=
  nodo vs <- vector_flags (py_slice inputs 1 (1 + n_seqs op));
  nodo vo <- vector_flags (py_slice inputs (1 + n_seqs op)
                             (1 + n_seqs op + n_outs op));
  let vo := vo ++ replicate (n_nit_sot op) false in
  nodo _ <- nfor_each (xrange 0 (n_seqs op)) check_seq tt;
  let index_i := n_seqs op in
  let index_o := 0 in
  let index := 1 + n_seqs op in
  let start := index in
  let end_ := index + n_mit_mot op in
  nodo st <- nfor_each (xrange index end_) (mit_mot_checks start)
               (index_i, index_o);
  let index := end_ in
  let end_ := end_ + (n_mit_sot op + n_sit_sot op) in
  nodo st <- nfor_each (xrange index end_) (sot_checks start) st;
  let index := end_ in
  let end_ := end_ + n_shared_outs op in
  let index_o := snd st + n_nit_sot op in
  nodo _ <- nfor_each (xrange index end_) shared_check index_o;
  let index := end_ in
  nodo _ <- nfor_each (py_slice inputs index (index + n_nit_sot op))
              check_trip_count tt;
  inr {| vector_seqs := vs; vector_outs := vo; node_inputs := inputs;
         node_outputs := output_types |}.
End Checks.
End MakeNode.

(** The two variables are tensor variables of one dtype. *)
Definition same_dtype {D} (x y : option (variable D)) : Prop :=
  exists d n n', x = Some (Tensor d n) /\ y = Some (Tensor d n').

(** The number of output slices of the MIT-MOT outputs before [j]. *)
Definition slices_upto (op : Scan) (j : nat) : nat :=
  sum_list (length <$> take j (mit_mot_out_slices op)).
(** What the two loops of [make_node] over the outputs with an initial
    state have checked when they are at the input [1 + n_seqs + j] of
    the node; [st] is [(index_i, index_o)]. *)
Definition checked {D} (op : Scan)
    (inputs self_inputs self_outputs : list (variable D))
    (j : nat) (st : nat * nat) : Prop :=
  fst st = tap_offset op j
  /\ snd st = slices_upto op (j `min` n_mit_mot op) + (j - n_mit_mot op)
  /\ j `min` n_mit_mot op <= length (mit_mot_out_slices op)
  /\ (forall j' taps q, j' < j -> tap_array op !! j' = Some taps ->
        q < length taps ->
        same_dtype (inputs !! (1 + n_seqs op + j'))
                   (self_inputs !! (tap_offset op j' + q)))
  /\ (forall j' sl q, j' < j -> j' < n_mit_mot op ->
        mit_mot_out_slices op !! j' = Some sl -> q < length sl ->
        same_dtype (inputs !! (1 + n_seqs op + j'))
                   (self_outputs !! (slices_upto op j' + q)))
  /\ (forall j', n_mit_mot op <= j' < j ->
        same_dtype (inputs !! (1 + n_seqs op + j'))
                   (self_outputs
                      !! (slices_upto op (n_mit_mot op) + j'
                          - n_mit_mot op))).
End Node.

(** ** [Scan.infer_shape]: the shapes of the inputs of the inner function *)

Module Shapes.
Section InferShape.
(** A shape is the list of its dimensions, of any type. *)
Context {S : Type}.

(** [inner_ins_shapes], from the shapes of the inputs of the node. *)
Definition inner_ins_shapes (op : Scan) (input_shapes : list (list S))
    : res (list (list S)) :=
  let seqs_shape := drop 1 <$> py_slice input_shapes 1 (1 + n_seqs op) in
  let n_outs := n_mit_mot op + n_mit_sot op + n_sit_sot op in
  do outs_shape <-
    for_each (xrange 0 n_outs)
      (fun idx outs_shape =>
         do taps <- from_opt IndexError (tap_array op !! idx);
         for_each taps
           (fun _ outs_shape =>
              do sh <- from_opt IndexError
                         (input_shapes !! (idx + n_seqs op + 1));
              Ok (outs_shape ++ [drop 1 sh]))
           outs_shape)
      [];
  let offset := 1 + n_seqs op + n_outs in
  do outs_shape <-
    for_each (xrange 0 (n_shared_outs op))
      (fun idx outs_shape =>
         do sh <- from_opt IndexError (input_shapes !! (idx + offset));
         Ok (outs_shape ++ [sh]))
      outs_shape;
  let offset := offset + (n_nit_sot op + n_shared_outs op) in
  Ok (seqs_shape ++ outs_shape ++ drop offset input_shapes).
End InferShape.

(** The shapes collected for the taps of the outputs before [j]: one
    per tap, that of the initial state without its leading dimension. *)
Definition taps_shaped {S} (op : Scan) (input_shapes : list (list S))
    (j : nat) (outs_shape : list (list S)) : Prop :=
  n_seqs op + length outs_shape = tap_offset op j
  /\ forall j' taps q, j' < j -> tap_array op !! j' = Some taps ->
       q < length taps ->
       outs_shape !! (tap_offset op j' - n_seqs op + q)
       = drop 1 <$> input_shapes !! (1 + n_seqs op + j').
End Shapes.

(** Ops, variables and shapes used as examples of the properties of the
    constructor, the node, the gradient and the R-operator. *)
Module Cases.
Import Examples Node.

(** The Fibonacci op working in place. *)
Definition fib_inplace_op : Scan :=
  {| n_seqs := 0; n_mit_mot := 0; n_mit_sot := 1; n_sit_sot := 0;
     n_nit_sot := 0; n_shared_outs := 0; n_mit_mot_outs := 0;
     tap_array := [[-2; -1]%Z]; mit_mot_out_slices := [];
     truncate_gradient := (-1)%Z; as_while := false; inplace := true |}.

(** Dtypes as numbers: 0 is an integer dtype, 1 and 2 are two float
    dtypes. *)
Definition is_int (d : nat) : bool := (d =? 0)%nat.

(** The node of [sot_op]: the number of steps, a sequence of vectors and
    the initial states of the two outputs; its inner function has the
    slice of the sequence and the three taps as inputs and the new
    values of the two outputs as outputs. *)
Definition sot_inputs : list (variable nat) :=
  [Tensor 0 0; Tensor 1 2; Tensor 1 2; Tensor 1 1].
Definition sot_self_inputs : list (variable nat) :=
  [Tensor 1 1; Tensor 1 1; Tensor 1 1; Tensor 1 0].
Definition sot_self_outputs : list (variable nat) :=
  [Tensor 1 1; Tensor 1 0].

(** The same with a sequence of the other float dtype. *)
Definition sot_inputs_mixed : list (variable nat) :=
  [Tensor 0 0; Tensor 2 2; Tensor 1 2; Tensor 1 1].

(** The node of [stack_op]: the number of steps, a sequence of scalars
    and the trip count of the NIT-SOT output. *)
Definition stack_inputs : list (variable nat) :=
  [Tensor 0 0; Tensor 1 1; Tensor 0 0].
Definition stack_self_inputs : list (variable nat) := [Tensor 1 0].
Definition stack_self_outputs : list (variable nat) := [Tensor 1 0].

(** The shapes of the inputs of the node of [sot_op]. *)
Definition sot_shapes : list (list nat) := [[]; [5; 3]; [7; 3]; [6]].
End Cases.

(** * Properties *)

(** ** The error monad and the loops over cells *)

Lemma bind_Ok {A B} (m : res A) (f : A -> res B) (b : B) :
  bind m f = Ok b -> exists a, m = Ok a /\ f a = Ok b.
Proof. destruct m as [a|e]; simpl; [eauto | discriminate]. Qed.

Lemma from_opt_Ok {A} (e : error) (o : option A) (a : A) :
  from_opt e o = Ok a -> o = Some a.
Proof. destruct o; simpl; congruence. Qed.

(** Splits every successful [bind] and [from_opt] among the hypotheses. *)
Ltac inv_res :=
  repeat match goal with
    | H : bind _ _ = Ok _ |- _ =>
        let a := fresh "a" in
        let Ha := fresh "Ha" in
        apply bind_Ok in H; destruct H as (a & Ha & H)
    | H : from_opt _ _ = Ok _ |- _ => apply from_opt_Ok in H
    | H : Ok _ = Ok _ |- _ => injection H as H
    | H : Raise _ = Ok _ |- _ => discriminate H
    end.

Lemma res_mapM_Forall2 {A B} (f : A -> res B) (l : list A) (r : list B) :
  res_mapM f l = Ok r <-> Forall2 (fun x y => f x = Ok y) l r.
Proof.
  revert r. induction l as [|x l IH]; intros r; simpl.
  - split.
    + intros H. injection H as <-. constructor.
    + intros H. apply Forall2_nil_inv_l in H. by subst.
  - split.
    + intros H. inv_res. subst r. constructor; [done|]. by apply IH.
    + intros H. apply Forall2_cons_inv_l in H as (y & r' & Hy & Hr & ->).
      rewrite Hy. simpl. apply IH in Hr. by rewrite Hr.
Qed.

Lemma res_mapM_length {A B} (f : A -> res B) l r :
  res_mapM f l = Ok r -> length r = length l.
Proof.
  intros H. apply res_mapM_Forall2 in H.
  symmetry. by eapply Forall2_length.
Qed.

Lemma res_mapM_lookup {A B} (f : A -> res B) l r k x :
  res_mapM f l = Ok r -> l !! k = Some x ->
  exists y, r !! k = Some y /\ f x = Ok y.
Proof.
  intros H Hk. apply res_mapM_Forall2 in H.
  destruct (Forall2_lookup_l _ _ _ _ _ H Hk) as (y & Hy & Hf). eauto.
Qed.

Lemma elem_of_xrange k b e : k ∈ xrange b e <-> b <= k < e.
Proof. unfold xrange. rewrite elem_of_seq. lia. Qed.

Lemma NoDup_xrange b e : NoDup (xrange b e).
Proof. apply NoDup_seq. Qed.

Lemma lookup_xrange_0 k e : k < e -> xrange 0 e !! k = Some k.
Proof.
  intros H. unfold xrange. rewrite lookup_seq. split; lia.
Qed.

(** A property kept by every iteration is kept by the loop. *)
Lemma for_each_inv {J S} (P : S -> Prop) (js : list J)
    (body : J -> S -> res S) s s' :
  (forall j t t', j ∈ js -> P t -> body j t = Ok t' -> P t') ->
  P s -> for_each js body s = Ok s' -> P s'.
Proof.
  revert s. induction js as [|j js IH]; intros s Hb Hs H; simpl in H.
  - by injection H as <-.
  - inv_res. eapply IH; [| |exact H].
    + intros j' t t' Hj'. apply Hb. by right.
    + eapply Hb; [by left|exact Hs|exact Ha].
Qed.

Lemma update_cell_length {A} j (f : A -> res A) cells cells' :
  update_cell j f cells = Ok cells' -> length cells' = length cells.
Proof.
  unfold update_cell. intros H. inv_res. subst. by rewrite length_insert.
Qed.

Lemma update_cell_other {A} j (f : A -> res A) cells cells' k :
  update_cell j f cells = Ok cells' -> k <> j -> cells' !! k = cells !! k.
Proof.
  unfold update_cell. intros H Hk. inv_res. subst.
  by rewrite list_lookup_insert_ne.
Qed.

Lemma update_cell_cell_update {A} (f : nat -> A -> res A) :
  cell_update (fun j => update_cell j (f j)) (fun j c c' => f j c = Ok c').
Proof.
  intros j cells cells' H. unfold update_cell in H. inv_res. subst.
  eauto.
Qed.

Section Cells.
Context {A : Type}.
Variable body : nat -> list A -> res (list A).
Variable R : nat -> A -> A -> Prop.
Hypothesis Hbody : cell_update body R.

Lemma for_each_cells_length js cells cells' :
  for_each js body cells = Ok cells' -> length cells' = length cells.
Proof.
  apply (for_each_inv (fun c => length c = length cells)); [|done].
  intros j t t' _ Ht H. apply Hbody in H as (c & c' & _ & _ & ->).
  by rewrite length_insert.
Qed.

Lemma for_each_cells_other js cells cells' k :
  for_each js body cells = Ok cells' ->
  k ∉ js -> cells' !! k = cells !! k.
Proof.
  intros H Hk. revert H.
  apply (for_each_inv (fun c => c !! k = cells !! k)); [|done].
  intros j t t' Hj Ht H. rewrite <- Ht.
  apply Hbody in H as (c & c' & _ & _ & ->).
  apply list_lookup_insert_ne. intros ->. contradiction.
Qed.

Lemma for_each_cells_at js cells cells' k :
  NoDup js -> k ∈ js ->
  for_each js body cells = Ok cells' ->
  exists c c', cells !! k = Some c /\ R k c c' /\ cells' !! k = Some c'.
Proof.
  revert cells. induction js as [|j js IH]; intros cells Hnd Hk H.
  - by apply elem_of_nil in Hk.
  - simpl in H. inv_res. apply list.NoDup_cons in Hnd as [Hj Hnd].
    apply elem_of_cons in Hk as [->|Hk].
    + destruct (Hbody _ _ _ Ha) as (c & c' & Hc & HR & ->).
      exists c, c'. split_and!; [done..|].
      rewrite (for_each_cells_other _ _ _ _ H Hj).
      apply list_lookup_insert_eq. by eapply lookup_lt_Some.
    + destruct (IH _ Hnd Hk H) as (c & c' & Hc & HR & Hc').
      exists c, c'. split_and!; [|done..].
      destruct (Hbody _ _ _ Ha) as (c0 & c0' & _ & _ & ->).
      rewrite <- Hc. symmetry. apply list_lookup_insert_ne.
      intros ->. contradiction.
Qed.
End Cells.

(** ** Indices and slices *)

Lemma py_mod_Ok a b r : py_mod a b = Ok r -> b <> 0%Z /\ r = (a `mod` b)%Z.
Proof.
  unfold py_mod. destruct (Z.eqb_spec b 0); [discriminate|].
  intros H. injection H as <-. done.
Qed.

Lemma py_mod_nonzero a b : b <> 0%Z -> py_mod a b = Ok (a `mod` b)%Z.
Proof. unfold py_mod. destruct (Z.eqb_spec b 0); [done|done]. Qed.

Lemma py_index_in len k :
  (0 <= k < Z.of_nat len)%Z -> py_index len k = Ok (Z.to_nat k).
Proof.
  intros H. unfold py_index.
  destruct (Z.leb_spec 0 k); [|lia].
  destruct (Z.ltb_spec k (Z.of_nat len)); [done|lia].
Qed.


Lemma py_index_lt len k n : py_index len k = Ok n -> n < len.
Proof.
  unfold py_index. intros H.
  destruct ((0 <=? k) && (k <? Z.of_nat len))%Z eqn:E1.
  - injection H as <-. lia.
  - destruct ((- Z.of_nat len <=? k) && (k <? 0))%Z eqn:E2; [|discriminate].
    injection H as <-. lia.
Qed.

Lemma py_setitem_length {A} (l l' : list A) k v :
  py_setitem l k v = Ok l' -> length l' = length l.
Proof.
  unfold py_setitem. intros H. inv_res. subst. apply length_insert.
Qed.

Lemma py_setitem_in {A} (l : list A) k v :
  (0 <= k < Z.of_nat (length l))%Z ->
  py_setitem l k v = Ok (<[Z.to_nat k:=v]> l).
Proof. intros H. unfold py_setitem. by rewrite py_index_in. Qed.

Lemma py_getitem_in {A} (l : list A) k x :
  (0 <= k)%Z -> l !! Z.to_nat k = Some x -> py_getitem l k = Ok x.
Proof.
  intros Hk H. unfold py_getitem. rewrite py_index_in; simpl.
  - by rewrite H.
  - apply lookup_lt_Some in H. lia.
Qed.

Lemma py_getitem_nat {A} (l : list A) (i : nat) x :
  py_getitem l (Z.of_nat i) = Ok x -> l !! i = Some x.
Proof.
  unfold py_getitem, py_index.
  destruct (Z.leb_spec 0 (Z.of_nat i)); [|lia].
  destruct (Z.ltb_spec (Z.of_nat i) (Z.of_nat (length l))); simpl.
  - rewrite Nat2Z.id. apply from_opt_Ok.
  - destruct (Z.leb_spec (- Z.of_nat (length l)) (Z.of_nat i));
      destruct (Z.ltb_spec (Z.of_nat i) 0); simpl; try discriminate. lia.
Qed.

Lemma py_clip_in len k :
  (0 <= k <= Z.of_nat len)%Z -> py_clip len k = Z.to_nat k.
Proof.
  intros H. unfold py_clip. destruct (Z.ltb_spec k 0); [lia|].
  f_equal. lia.
Qed.

Lemma py_clip_above len k : (Z.of_nat len <= k)%Z -> py_clip len k = len.
Proof.
  intros H. unfold py_clip. destruct (Z.ltb_spec k 0); [lia|].
  rewrite Z.min_r by lia. apply Nat2Z.id.
Qed.

Lemma py_clip_neg len k :
  (k < 0)%Z -> py_clip len k = len - Z.to_nat (- k).
Proof. intros H. unfold py_clip. destruct (Z.ltb_spec k 0); lia. Qed.

Lemma py_clip_le len k : py_clip len k <= len.
Proof. unfold py_clip. destruct (Z.ltb_spec k 0); lia. Qed.

(** ** The rotation of a wrapped buffer *)

Lemma reorder_rotate {V} (store pdx : Z) (b : list V) :
  Z.of_nat (length b) = store -> (0 <= pdx < store)%Z ->
  snd (reorder store pdx b) = drop (Z.to_nat pdx) b ++ take (Z.to_nat pdx) b.
Proof.
  intros Hlen Hp. unfold reorder.
  assert (Hc1 : py_clip (length b) pdx = Z.to_nat pdx)
    by (apply py_clip_in; lia).
  assert (Hc2 : py_clip (length b) (store - pdx) = Z.to_nat (store - pdx))
    by (apply py_clip_in; lia).
  destruct (pdx <? store / 2)%Z; simpl;
    unfold assign_from, assign_to, slice_to, slice_from.
  - rewrite !Hc1, !Hc2.
    rewrite py_clip_in by (rewrite length_app, !length_drop; lia).
    rewrite take_app_length'; [done|]. rewrite length_drop. lia.
  - rewrite !Hc1, !Hc2.
    rewrite py_clip_in by (rewrite length_app, !length_take; lia).
    rewrite drop_app_length'; [done|]. rewrite length_take. lia.
Qed.

Lemma length_reorder {V} (store pdx : Z) (b : list V) :
  Z.of_nat (length b) = store -> (0 <= pdx < store)%Z ->
  length (snd (reorder store pdx b)) = length b.
Proof.
  intros Hlen Hp. rewrite reorder_rotate by done.
  rewrite length_app, length_drop, length_take. lia.
Qed.


(** ** The main loop *)

Section Loop.
Context {V : Type}.
Variable zeros_like : V -> V.
Variable is_zero : V -> bool.
Variable same_tail : list V -> list V -> bool.
Variable fits : list V -> V -> bool.
Variable fn : list V -> option (list V).
Variable op : Scan.
Variable a : Args V.
Variable seqs : list (list V).
Variable ss : list Z.

Local Abbreviation istep :=
  (step zeros_like is_zero fits fn op a seqs ss).
Local Abbreviation iloop :=
  (main_loop zeros_like is_zero fits fn op a seqs ss).

Lemma step_Ok st st' :
  istep st = Ok st' ->
  step_trace zeros_like is_zero fits fn op a seqs ss st st'.
Proof.
  unfold step. intros H.
  apply bind_Ok in H as (in_seqs & H1 & H).
  apply bind_Ok in H as (in_taps & H2 & H).
  apply bind_Ok in H as (in_shared & H3 & H).
  apply bind_Ok in H as (out & H4 & H). apply from_opt_Ok in H4.
  apply bind_Ok in H as (cond & H5 & H).
  apply bind_Ok in H as ([bufs1 off] & H6 & H).
  apply bind_Ok in H as (bufs2 & H7 & H).
  apply bind_Ok in H as (bufs3 & H8 & H).
  apply bind_Ok in H as (shared' & H9 & H).
  apply bind_Ok in H as (pos' & H10 & H).
  injection H as <-.
  econstructor; simpl; try eassumption; try reflexivity.
  destruct (as_while op).
  - apply bind_Ok in H5 as (c & Hc & H5). apply from_opt_Ok in Hc.
    injection H5 as <-. eauto.
  - by injection H5 as <-.
Qed.

(** A property kept by every iteration holds when the loop stops. *)
Lemma main_loop_inv (P : LoopState V -> Prop) fuel st0 st :
  (forall s s', P s -> ls_cond s = true -> istep s = Ok s' -> P s') ->
  P st0 -> iloop fuel st0 = inl st -> P st.
Proof.
  intros Hstep. revert st0.
  induction fuel as [|fuel IH]; intros st0 H0 H; simpl in H.
  - by injection H as <-.
  - destruct (ls_cond st0) eqn:Hc; [|by injection H as <-].
    destruct (istep st0) as [st1|e] eqn:Hs; [|discriminate].
    eapply IH; [|exact H]. eapply Hstep; eauto.
Qed.

(** The number of iterations: the loop runs while steps are left and
    the condition holds. *)
Lemma main_loop_count fuel st0 st :
  iloop fuel st0 = inl st ->
  ls_i st <= ls_i st0 + fuel
  /\ (ls_cond st = true -> ls_i st = ls_i st0 + fuel)
  /\ (ls_cond st0 = false -> st = st0).
Proof.
  revert st0. induction fuel as [|fuel IH]; intros st0 H; simpl in H.
  - injection H as <-. repeat split; auto; lia.
  - destruct (ls_cond st0) eqn:Hc; [|injection H as <-; split_and!; auto; try lia; congruence].
    destruct (istep st0) as [st1|e] eqn:Hs; [|discriminate].
    apply step_Ok in Hs. destruct Hs as [? ? ? ? ? ? ? _ _ _ _ _ _ _ _ _ _ Hi _].
    destruct (IH _ H) as (IH1 & IH2 & IH3).
    split_and!; [lia| |discriminate].
    intros Hst. specialize (IH2 Hst). lia.
Qed.

Lemma main_loop_calls_length fuel st0 st :
  ls_i st0 = length (ls_calls st0) ->
  iloop fuel st0 = inl st -> ls_i st = length (ls_calls st).
Proof.
  intros H0. apply (main_loop_inv (fun s => ls_i s = length (ls_calls s)));
    [|done].
  intros s s' Hs _ Hstep. apply step_Ok in Hstep.
  destruct Hstep as [? ? ? ? ? ? ? _ _ _ _ _ _ _ _ _ _ Hi Hcalls].
  rewrite Hcalls, length_app, Hi, Hs. simpl. lia.
Qed.

(** A property of every call, index by index. *)
Lemma main_loop_calls (Q : nat -> call V -> Prop) fuel st0 st :
  (forall s s' c, ls_cond s = true -> istep s = Ok s' ->
                  ls_calls s' = ls_calls s ++ [c] -> Q (ls_i s) c) ->
  ls_i st0 = length (ls_calls st0) ->
  (forall k c, ls_calls st0 !! k = Some c -> Q k c) ->
  iloop fuel st0 = inl st ->
  forall k c, ls_calls st !! k = Some c -> Q k c.
Proof.
  intros HQ H0 H1 H.
  enough (ls_i st = length (ls_calls st)
          /\ forall k c, ls_calls st !! k = Some c -> Q k c) by tauto.
  revert H.
  apply (main_loop_inv
           (fun s => ls_i s = length (ls_calls s)
                     /\ forall k c, ls_calls s !! k = Some c -> Q k c));
    [|done].
  intros s s' [Hi Hs] Hc Hstep. pose proof (step_Ok _ _ Hstep) as T.
  destruct T as [? ? ? ? ? ? ? _ _ _ _ _ _ _ _ _ _ Hi' Hcalls]. split.
  - rewrite Hcalls, length_app, Hi', Hi. simpl. lia.
  - intros k c. rewrite Hcalls. intros Hk.
    apply lookup_app_Some in Hk as [Hk|[Hlen Hk]]; [by apply Hs|].
    apply list_lookup_singleton_Some in Hk as [Hk <-].
    assert (k = ls_i s) as -> by lia.
    eapply HQ; eauto.
Qed.
End Loop.

(** ** The phases of one iteration *)

Section Phases.
Context {V : Type}.
Variable zeros_like : V -> V.
Variable fits : list V -> V -> bool.
Variable op : Scan.
Variable ss pos : list Z.
Variable out : list V.

Lemma set_slot_Ok j k v (bufs bufs' : list (option (list V))) :
  set_slot j k v bufs = Ok bufs' ->
  exists b b', bufs !! j = Some (Some b) /\ py_setitem b k v = Ok b'
               /\ bufs' = <[j:=Some b']> bufs.
Proof.
  unfold set_slot, update_cell. intros H. inv_res. subst. eauto.
Qed.

Lemma same_lengths_refl (bufs : list (option (list V))) :
  same_lengths bufs bufs.
Proof. intros k c' H. eauto. Qed.

Lemma same_lengths_trans (b1 b2 b3 : list (option (list V))) :
  same_lengths b1 b2 -> same_lengths b2 b3 -> same_lengths b1 b3.
Proof.
  intros H12 H23 k c3 H3.
  destruct (H23 _ _ H3) as (c2 & H2 & E2).
  destruct (H12 _ _ H2) as (c1 & H1 & E1).
  exists c1. split; [done|congruence].
Qed.

Lemma set_slot_same_lengths j k v (bufs bufs' : list (option (list V))) :
  set_slot j k v bufs = Ok bufs' -> same_lengths bufs bufs'.
Proof.
  intros H. apply set_slot_Ok in H as (b & b' & Hb & Hset & ->).
  intros i c' Hc'. destruct (decide (i = j)) as [->|Hne].
  - rewrite list_lookup_insert_eq in Hc' by (by eapply lookup_lt_Some).
    injection Hc' as <-. exists (Some b). split; [done|]. simpl.
    f_equal. by eapply py_setitem_length.
  - rewrite list_lookup_insert_ne in Hc' by done. eauto.
Qed.

(** 5.1 touches the MIT-MOT buffers only, keeps their lengths and
    leaves [offset_out] at the number of their slices. *)
Lemma write_slices_spec j ks (bufs bufs' : list (option (list V)))
    off off' :
  for_each ks (write_slice pos out j) (bufs, off) = Ok (bufs', off') ->
  same_lengths bufs bufs'
  /\ (forall k, k <> j -> bufs' !! k = bufs !! k)
  /\ off' = off + length ks.
Proof.
  revert bufs off. induction ks as [|k0 ks IH]; intros bufs off H.
  - simpl in H. injection H as <- <-.
    split_and!; [apply same_lengths_refl|done|simpl; lia].
  - simpl in H. apply bind_Ok in H as ([bufs1 off1] & H1 & H).
    unfold write_slice in H1. inv_res. subst.
    destruct (IH _ _ H) as (IH1 & IH2 & ->).
    pose proof (set_slot_same_lengths _ _ _ _ _ Ha1) as Hsl.
    apply set_slot_Ok in Ha1 as (b & b' & Hb & Hset & ->).
    split_and!.
    + eapply same_lengths_trans; eauto.
    + intros k Hk. rewrite IH2 by done.
      by rewrite list_lookup_insert_ne.
    + simpl. lia.
Qed.

Lemma scatter_mit_mot_spec (bufs bufs' : list (option (list V))) off :
  scatter_mit_mot op pos out bufs = Ok (bufs', off) ->
  same_lengths bufs bufs'
  /\ (forall k, n_mit_mot op <= k -> bufs' !! k = bufs !! k)
  /\ off = mit_mot_total op.
Proof.
  unfold scatter_mit_mot, mit_mot_total.
  assert (G : forall js bufs0 off0 bufs' off,
    for_each js
      (fun j st =>
         do ks <- from_opt IndexError (mit_mot_out_slices op !! j);
         for_each ks (write_slice pos out j) st) (bufs0, off0)
    = Ok (bufs', off) ->
    same_lengths bufs0 bufs'
    /\ (forall k, k ∉ js -> bufs' !! k = bufs0 !! k)
    /\ off = off0 + sum_list
               ((fun j => length (default [] (mit_mot_out_slices op !! j)))
                  <$> js)).
  { clear. induction js as [|j js IH]; intros bufs0 off0 bufs' off H.
    - simpl in H. injection H as <- <-.
      split_and!; [apply same_lengths_refl|done|simpl; lia].
    - simpl in H. apply bind_Ok in H as ([bufs1 off1] & H1 & H).
      apply bind_Ok in H1 as (ks & Hks & H1). apply from_opt_Ok in Hks.
      destruct (write_slices_spec _ _ _ _ _ _ H1) as (S1 & O1 & ->).
      destruct (IH _ _ _ _ H) as (S2 & O2 & ->).
      split_and!.
      + eapply same_lengths_trans; eauto.
      + intros k Hk. apply not_elem_of_cons in Hk as [Hk1 Hk2].
        rewrite O2, O1 by done. done.
      + rewrite fmap_cons. simpl. rewrite Hks. simpl. lia. }
  intros H. destruct (G _ _ _ _ _ H) as (S1 & O1 & ->).
  split_and!; [done| |done].
  intros k Hk. apply O1. rewrite elem_of_xrange. lia.
Qed.

(** 5.2 and 5.3 replace one cell each. *)
Lemma write_cur_cell_update off :
  cell_update (write_cur op pos out off)
    (wrote (fun _ c b => c = Some b) pos out
           (fun j => off + j - n_mit_mot op)).
Proof.
  intros j cells cells' H. unfold write_cur in H. inv_res.
  apply set_slot_Ok in H as (b & b' & Hb & Hset & ->).
  exists (Some b), (Some b'). split_and!; [done| |done].
  exists b, b', a, a0. split_and!; done.
Qed.

Lemma write_nit_sot_cell_update off i :
  cell_update (write_nit_sot zeros_like fits op ss pos out off i)
    (wrote (fun j c b =>
              if (i =? 0)%nat
              then exists s v, ss !! j = Some s
                     /\ out !! (off + j - n_mit_mot op) = Some v
                     /\ nit_sot_storage zeros_like fits s v c = Ok b
              else c = Some b)
           pos out (fun j => off + j - n_mit_mot op)).
Proof.
  intros j cells cells' H. unfold write_nit_sot in H.
  destruct (i =? 0)%nat eqn:Ei.
  - unfold update_cell in H. inv_res. subst.
    eexists _, _. split_and!; [done| |done].
    eexists _, _, _, _. split_and!; try done. eauto.
  - apply write_cur_cell_update in H as (c & c' & Hc & HR & ->).
    exists c, c'. split_and!; [done| |done].
    destruct HR as (b & b' & p & v & -> & Hp & Hv & Hset & ->).
    exists b, b', p, v. split_and!; done.
Qed.

Lemma nit_sot_storage_length s v c b :
  nit_sot_storage zeros_like fits s v c = Ok b ->
  (0 <= s)%Z -> Z.of_nat (length b) = s.
Proof.
  intros H Hs. unfold nit_sot_storage in H.
  assert (Hfresh : (if (s <? 0)%Z then Raise ValueError
                    else Ok (replicate (Z.to_nat s) (zeros_like v)))
                   = Ok b -> Z.of_nat (length b) = s).
  { destruct (s <? 0)%Z; [discriminate|]. intros E. injection E as <-.
    rewrite length_replicate. lia. }
  destruct c as [o|]; [|auto].
  destruct (Z.ltb_spec (Z.of_nat (length o)) s); simpl in H; [auto|].
  destruct (fits o v); simpl in H; [|auto].
  destruct (Z.eqb_spec (Z.of_nat (length o)) s); simpl in H.
  - by injection H as <-.
  - injection H as <-. unfold slice_to.
    rewrite length_take, py_clip_in by lia. lia.
Qed.
End Phases.

(** ** Positions and buffer lengths along the loop *)

Section Invariants.
Context {V : Type}.
Variable zeros_like : V -> V.
Variable is_zero : V -> bool.
Variable same_tail : list V -> list V -> bool.
Variable fits : list V -> V -> bool.
Variable fn : list V -> option (list V).
Variable op : Scan.
Variable a : Args V.
Variable seqs : list (list V).

Lemma pos_ok_store ss i pos : pos_ok op ss i pos -> n_tracked op <= length ss.
Proof.
  intros [_ H]. destruct (decide (n_tracked op <= length ss)); [done|].
  destruct (H (length ss)) as (m & s & _ & Hs & _); [lia|].
  apply lookup_lt_Some in Hs. lia.
Qed.

Lemma init_pos_ok ss pos : init_pos op ss = Ok pos -> pos_ok op ss 0 pos.
Proof.
  unfold init_pos. intros H. split.
  - apply res_mapM_length in H. rewrite H. unfold xrange.
    rewrite length_seq. lia.
  - intros idx Hidx.
    destruct (res_mapM_lookup _ _ _ idx idx H) as (p & Hp & Hf).
    { by apply lookup_xrange_0. }
    inv_res. apply py_mod_Ok in Hf as [Hs ->].
    exists a0, a1. split_and!; try done. rewrite Hp. do 2 f_equal. lia.
Qed.

Lemma advance_pos_ok ss i pos pos' :
  pos_ok op ss i pos -> advance_pos pos ss = Ok pos' ->
  pos_ok op ss (S i) pos'.
Proof.
  intros Hok H. pose proof (pos_ok_store _ _ _ Hok) as Hlen.
  destruct Hok as [Hl Hok]. unfold advance_pos in H. split.
  - apply res_mapM_length in H. rewrite H, length_zip_with. lia.
  - intros idx Hidx. destruct (Hok idx Hidx) as (m & s & Hm & Hs & Hs0 & Hp).
    destruct (res_mapM_lookup _ _ _ idx
                ((- m + Z.of_nat i) `mod` s, s)%Z H) as (p' & Hp' & Hf).
    { apply lookup_zip_with_Some. eauto. }
    apply py_mod_Ok in Hf as [_ ->].
    exists m, s. split_and!; try done. rewrite Hp'. f_equal.
    rewrite Zplus_mod_idemp_l. f_equal. lia.
Qed.

Lemma store_steps_lookup idx init :
  init_args a !! idx = Some init ->
  store_steps a !! idx = Some (Z.of_nat (length init)).
Proof.
  intros H. unfold store_steps. apply lookup_app_l_Some.
  rewrite list_lookup_fmap, H. done.
Qed.

Lemma alloc_out_length idx prev init m :
  length (alloc_out same_tail op idx prev init
            (Z.of_nat (length init)) m) = length init.
Proof.
  unfold alloc_out. destruct (inplace op); [done|].
  destruct prev as [o|]; [|done].
  destruct (same_tail o init); simpl; [|done].
  destruct (Z.leb_spec (Z.of_nat (length init)) (Z.of_nat (length o)));
    [|done].
  destruct (n_mit_mot op <? idx)%nat; [|done].
  unfold assign_to, slice_to, slice_from.
  rewrite (py_clip_in (length o)) by lia.
  rewrite length_app, length_drop, !length_take, Nat2Z.id.
  replace (length init `min` length o) with (length init) by lia.
  pose proof (py_clip_le (length init) (- m)). lia.
Qed.

(** The storage of an output starts with the initial state: its first
    [-mintap] entries are those of the argument. *)
Lemma alloc_out_seed idx prev init m q :
  (0 <= - m <= Z.of_nat (length init))%Z -> (Z.of_nat q < - m)%Z ->
  alloc_out same_tail op idx prev init (Z.of_nat (length init)) m !! q
  = init !! q.
Proof.
  intros Hm Hq. unfold alloc_out. destruct (inplace op); [done|].
  destruct prev as [o|]; [|done].
  destruct (same_tail o init); simpl; [|done].
  destruct (Z.leb_spec (Z.of_nat (length init)) (Z.of_nat (length o)));
    [|done].
  destruct (n_mit_mot op <? idx)%nat; [|done].
  unfold assign_to, slice_to. rewrite (py_clip_in (length init)) by lia.
  rewrite lookup_app_l by (rewrite length_take; lia).
  apply lookup_take_lt. lia.
Qed.

Lemma init_bufs_cell_update :
  cell_update
    (fun idx outs =>
       do init <- from_opt IndexError (init_args a !! idx);
       do s <- from_opt IndexError (store_steps a !! idx);
       do m <- from_opt IndexError (mintaps op !! idx);
       update_cell idx
         (fun prev => Ok (Some (alloc_out same_tail op idx prev init s m)))
         outs)
    (fun idx c c' =>
       exists init m,
         init_args a !! idx = Some init /\ mintaps op !! idx = Some m
         /\ c' = Some (alloc_out same_tail op idx c init
                         (Z.of_nat (length init)) m)).
Proof.
  intros idx cells cells' H. apply bind_Ok in H as (init & Hi & H).
  apply bind_Ok in H as (s & Hs & H). apply bind_Ok in H as (m & Hm & H).
  apply from_opt_Ok in Hi, Hs, Hm.
  rewrite (store_steps_lookup _ _ Hi) in Hs. injection Hs as <-.
  unfold update_cell in H. inv_res. subst.
  eexists _, _. split_and!; [done| |done]. eauto.
Qed.

Lemma init_bufs_at outs bufs idx :
  init_bufs same_tail op a (store_steps a) outs = Ok bufs ->
  idx < n_outs op ->
  exists prev init m,
    init_args a !! idx = Some init /\ mintaps op !! idx = Some m
    /\ bufs !! idx = Some (Some (alloc_out same_tail op idx prev init
                                   (Z.of_nat (length init)) m)).
Proof.
  intros H Hidx. unfold init_bufs in H.
  assert (Hin : idx ∈ xrange 0 (n_outs op)) by (apply elem_of_xrange; lia).
  destruct (for_each_cells_at _ _ init_bufs_cell_update _ _ _ idx
              (NoDup_xrange _ _) Hin H)
    as (c & c' & Hc & (init & m & Hi & Hm & ->) & Hc').
  eauto 10.
Qed.

Lemma init_bufs_ok outs bufs :
  init_bufs same_tail op a (store_steps a) outs = Ok bufs ->
  bufs_ok op (store_steps a) 0 bufs.
Proof.
  intros H idx s b Hb Hs [Hidx|[Hi _]]; [|lia].
  destruct (init_bufs_at _ _ _ H Hidx) as (prev & init & m & Hi & Hm & Hc).
  rewrite Hc in Hb. injection Hb as <-.
  rewrite (store_steps_lookup _ _ Hi) in Hs. injection Hs as <-.
  by rewrite alloc_out_length.
Qed.

Lemma wrote_length (pre : nat -> option (list V) -> list V -> Prop)
    pos out oi j c c' b' :
  wrote pre pos out oi j c c' -> c' = Some b' ->
  exists b, pre j c b /\ length b' = length b.
Proof.
  intros (b & b0 & p & v & Hpre & _ & _ & Hset & ->) E.
  injection E as ->. exists b. split; [done|].
  by eapply py_setitem_length.
Qed.

Lemma step_bufs_ok ss st st' :
  bufs_ok op ss (ls_i st) (ls_bufs st) ->
  step zeros_like is_zero fits fn op a seqs ss st = Ok st' ->
  bufs_ok op ss (ls_i st') (ls_bufs st').
Proof.
  intros Hok H. apply step_Ok in H.
  destruct H as [in_seqs in_taps in_shared out bufs1 off bufs2
                   _ _ _ _ _ Hmm Hsot Hnit _ _ Hi _].
  destruct (scatter_mit_mot_spec _ _ _ _ _ _ Hmm) as (Hsl & Hoth & _).
  intros idx s b' Hb' Hs Hidx.
  destruct (decide (idx < n_outs op)) as [Hlt|Hge].
  - (* an output with an initial state *)
    rewrite (for_each_cells_other _ _ (write_nit_sot_cell_update _ _ _ _ _ _ _ _)
               _ _ _ idx Hnit) in Hb'
      by (rewrite elem_of_xrange; lia).
    destruct (decide (idx < n_mit_mot op)) as [Hmmi|Hsoti].
    + rewrite (for_each_cells_other _ _ (write_cur_cell_update _ _ _ _)
                 _ _ _ idx Hsot) in Hb'
        by (rewrite elem_of_xrange; lia).
      destruct (Hsl _ _ Hb') as (c & Hc & El). destruct c as [b|]; [|done].
      injection El as El. rewrite El. eapply Hok; eauto.
    + assert (Hin : idx ∈ xrange (n_mit_mot op) (n_outs op))
        by (apply elem_of_xrange; lia).
      destruct (for_each_cells_at _ _ (write_cur_cell_update _ _ _ _)
                  _ _ _ idx (NoDup_xrange _ _) Hin Hsot)
        as (c & c' & Hc & HR & Hc').
      rewrite Hc' in Hb'. injection Hb' as ->.
      destruct (wrote_length _ _ _ _ _ _ _ _ HR eq_refl) as (b & -> & El).
      rewrite Hoth in Hc by lia. rewrite El. eapply Hok; eauto.
  - destruct Hidx as [?|(_ & Hlt & Hs0)]; [lia|].
    assert (Hin : idx ∈ xrange (n_outs op) (n_tracked op))
      by (apply elem_of_xrange; lia).
    destruct (for_each_cells_at _ _ (write_nit_sot_cell_update _ _ _ _ _ _ _ _)
                _ _ _ idx (NoDup_xrange _ _) Hin Hnit)
      as (c & c' & Hc & HR & Hc').
    rewrite Hc' in Hb'. injection Hb' as ->.
    destruct (wrote_length _ _ _ _ _ _ _ _ HR eq_refl) as (b & Hpre & El).
    rewrite El.
    rewrite (for_each_cells_other _ _ (write_cur_cell_update _ _ _ _)
               _ _ _ idx Hsot) in Hc
      by (rewrite elem_of_xrange; lia).
    rewrite Hoth in Hc by (unfold n_outs in Hge; lia).
    destruct (ls_i st =? 0)%nat eqn:Ei.
    + destruct Hpre as (s' & v & Hs' & _ & Hst).
      rewrite Hs in Hs'. injection Hs' as <-.
      by eapply nit_sot_storage_length.
    + subst c. eapply Hok; eauto. right.
      apply Nat.eqb_neq in Ei. split_and!; [lia|done..].
Qed.
End Invariants.

(** ** Sequences *)

Section Sequences.
Context {V : Type}.

Lemma check_seqs_Ok n flip idx (l seqs : list (list V)) :
  check_seqs n flip idx l = Ok seqs ->
  seqs = (fun s => if flip then reverse s else s) <$> l
  /\ Forall (fun s => (n <= Z.of_nat (length s))%Z) l.
Proof.
  revert idx seqs. induction l as [|s l IH]; intros idx seqs H; simpl in H.
  - injection H as <-. by split.
  - destruct (Z.ltb_spec (Z.of_nat (length s)) n); [discriminate|].
    apply bind_Ok in H as (rest & Hrest & H). injection H as <-.
    destruct (IH _ _ Hrest) as [-> Hall].
    split; [done|]. by constructor.
Qed.

Lemma check_seqs_short n flip idx (l : list (list V)) k s :
  l !! k = Some s -> (Z.of_nat (length s) < n)%Z ->
  exists k' s', l !! k' = Some s' /\ (Z.of_nat (length s') < n)%Z
                /\ check_seqs n flip idx l = Raise (SeqTooShort (idx + k')).
Proof.
  revert idx k. induction l as [|s0 l IH]; intros idx k Hk Hs; [done|].
  simpl. destruct (Z.ltb_spec (Z.of_nat (length s0)) n).
  - exists 0, s0. rewrite Nat.add_0_r. done.
  - destruct k as [|k]; simpl in Hk.
    + injection Hk as ->. lia.
    + destruct (IH (S idx) k Hk Hs) as (k' & s' & Hk' & Hs' & ->).
      exists (S k'), s'. split_and!; [done..|]. simpl.
      do 2 f_equal. lia.
Qed.

Lemma unzip_seqs_Ok (a : Args V) n seqs :
  unzip_seqs a = Ok (n, seqs) ->
  n = Z.abs (n_steps_arg a)
  /\ seqs = (fun s => if (n_steps_arg a <? 0)%Z then reverse s else s)
              <$> seq_args a
  /\ Forall (fun s => (n <= Z.of_nat (length s))%Z) (seq_args a).
Proof.
  unfold unzip_seqs. intros H.
  destruct (Z.ltb_spec (n_steps_arg a) 0) as [Hn|Hn].
  - apply bind_Ok in H as (sq & Hsq & H). injection H as <- <-.
    destruct (check_seqs_Ok _ _ _ _ _ Hsq) as [-> Hall]. done.
  - apply bind_Ok in H as (sq & Hsq & H). injection H as <- <-.
    destruct (check_seqs_Ok _ _ _ _ _ Hsq) as [-> Hall].
    split_and!; [lia|done..].
Qed.

Lemma gather_seqs_lookup op (seqs : list (list V)) i ins idx :
  gather_seqs op seqs i = Ok ins -> idx < n_seqs op ->
  exists sq x, seqs !! idx = Some sq /\ sq !! i = Some x
               /\ ins !! idx = Some x.
Proof.
  unfold gather_seqs. intros H Hidx.
  destruct (res_mapM_lookup _ _ _ idx idx H) as (x & Hx & Hf).
  { by apply lookup_xrange_0. }
  apply bind_Ok in Hf as (sq & Hsq & Hf). apply from_opt_Ok in Hsq.
  apply py_getitem_nat in Hf. eauto.
Qed.

Lemma gather_seqs_length op (seqs : list (list V)) i ins :
  gather_seqs op seqs i = Ok ins -> length ins = n_seqs op.
Proof.
  unfold gather_seqs. intros H. apply res_mapM_length in H.
  rewrite H. unfold xrange. rewrite length_seq. lia.
Qed.
End Sequences.

(** ** The whole call *)

Section Call.
Context {V : Type}.
Variable zeros_like : V -> V.
Variable is_zero : V -> bool.
Variable same_tail : list V -> list V -> bool.
Variable fits : list V -> V -> bool.
Variable fn : list V -> option (list V).
Variable op : Scan.
Variable a : Args V.
Variable outs : list (option (list V)).
Variable shared : list (option V).

Local Abbreviation exec :=
  (execute zeros_like is_zero same_tail fits fn op a outs shared).

Lemma execute_Returned bufs sh calls :
  exec = Returned bufs sh calls ->
  loop_run zeros_like is_zero same_tail fits fn op a outs shared bufs sh
    calls.
Proof.
  unfold execute, prepare. intros H.
  destruct (unzip_seqs a) as [[n seqs]|e] eqn:Hu; [|discriminate].
  simpl in H.
  destruct (init_pos op (store_steps a)) as [pos0|e] eqn:Hp;
    [|discriminate]. simpl in H.
  destruct (init_bufs same_tail op a (store_steps a) outs)
    as [bufs0|e] eqn:Hb; [|discriminate]. simpl in H.
  destruct (main_loop _ _ _ _ _ _ _ _ _ _) as [st|[e calls']] eqn:Hl;
    [|discriminate].
  destruct (reconcile _ _ _ _ _) as [bufs'|e] eqn:Hr; [|discriminate].
  injection H as <- <- <-.
  pose proof (unzip_seqs_Ok _ _ _ Hu) as (-> & _ & _).
  assert (Hinv : ls_i st = length (ls_calls st)
                 /\ pos_ok op (store_steps a) (ls_i st) (ls_pos st)
                 /\ bufs_ok op (store_steps a) (ls_i st) (ls_bufs st)).
  { revert Hl.
    apply (main_loop_inv zeros_like is_zero fits fn op a seqs
             (store_steps a)
             (fun s => ls_i s = length (ls_calls s)
                       /\ pos_ok op (store_steps a) (ls_i s) (ls_pos s)
                       /\ bufs_ok op (store_steps a) (ls_i s) (ls_bufs s))).
    - intros s s' (Hi & Hpos & Hbufs) _ Hstep. split_and!.
      + apply step_Ok in Hstep.
        destruct Hstep as [? ? ? ? ? ? ? _ _ _ _ _ _ _ _ _ _ Hi' Hc].
        rewrite Hc, length_app, Hi', Hi. simpl. lia.
      + pose proof (step_Ok _ _ _ _ _ _ _ _ _ _ Hstep) as T.
        destruct T as [? ? ? ? ? ? ? _ _ _ _ _ _ _ _ _ Hadv Hi' _].
        rewrite Hi'. eapply advance_pos_ok; eauto.
      + eapply step_bufs_ok; eauto.
    - simpl. split_and!; [done|by apply init_pos_ok|].
      eapply init_bufs_ok; eauto. }
  destruct Hinv as (Hi & Hpos & Hbufs).
  econstructor; eauto.
Qed.
End Call.

(** ** Length validation and direction of the sequences *)

Section Direction.
Context {V : Type}.
Variable zeros_like : V -> V.
Variable is_zero : V -> bool.
Variable same_tail : list V -> list V -> bool.
Variable fits : list V -> V -> bool.
Variable fn : list V -> option (list V).
Variable op : Scan.
Variable a : Args V.
Variable outs : list (option (list V)).
Variable shared : list (option V).

Local Abbreviation exec :=
  (execute zeros_like is_zero same_tail fits fn op a outs shared).

(** C8 (as amended): when a plain sequence has fewer than [|n_steps|]
    entries along its leading dimension, [exec] raises the error of
    step 1 for the first such sequence, and it does so before any
    iteration: no call of the inner function has been made.  (A NIT-SOT
    trip count below the number of steps raises nothing.) *)
Theorem execute_short_sequence idx s :
  seq_args a !! idx = Some s ->
  (Z.of_nat (length s) < Z.abs (n_steps_arg a))%Z ->
  exists idx' s',
    seq_args a !! idx' = Some s'
    /\ (Z.of_nat (length s') < Z.abs (n_steps_arg a))%Z
    /\ execute zeros_like is_zero same_tail fits fn op a outs shared
       = Raised (SeqTooShort idx') [].
Proof.
  intros Hs Hlen. unfold execute, prepare, unzip_seqs.
  destruct (Z.ltb_spec (n_steps_arg a) 0) as [Hn|Hn].
  - destruct (check_seqs_short (Z.abs (n_steps_arg a)) true 0 _ _ _ Hs Hlen)
      as (k' & s' & Hk' & Hs' & ->).
    exists k', s'. done.
  - rewrite Z.abs_eq in Hlen by lia.
    destruct (check_seqs_short (n_steps_arg a) false 0 _ _ _ Hs Hlen)
      as (k' & s' & Hk' & Hs' & ->).
    exists k', s'. rewrite Z.abs_eq by lia. done.
Qed.

(** Without a termination condition the flag [cond] stays set. *)
Lemma main_loop_cond_for seqs ss fuel st0 st :
  as_while op = false -> ls_cond st0 = true ->
  main_loop zeros_like is_zero fits fn op a seqs ss fuel st0 = inl st ->
  ls_cond st = true.
Proof.
  intros Hw H0.
  apply (main_loop_inv zeros_like is_zero fits fn op a seqs ss
           (fun s => ls_cond s = true)); [|done].
  intros s s' Hs _ Hstep. apply step_Ok in Hstep.
  destruct Hstep as [? ? ? ? ? ? ? _ _ _ _ Hc _ _ _ _ _ _ _].
  rewrite Hw in Hc. congruence.
Qed.

(** C2 (as amended): the loop makes at most [|n_steps|] iterations, and
    exactly that many when it has no termination condition.  With a
    negative [n_steps] iteration [i] reads entry [len - 1 - i] of every
    plain sequence, [len] being the length of that sequence: the
    sequence is traversed from its last entry backwards, which is the
    entry a forward run reads at iteration [|n_steps| - 1 - i] when the
    sequence has exactly [|n_steps|] entries.  With a non-negative
    [n_steps] iteration [i] reads entry [i]. *)
Theorem execute_direction bufs sh calls :
  execute zeros_like is_zero same_tail fits fn op a outs shared
  = Returned bufs sh calls ->
  length calls <= Z.to_nat (Z.abs (n_steps_arg a))
  /\ (as_while op = false ->
      length calls = Z.to_nat (Z.abs (n_steps_arg a)))
  /\ forall i c idx s,
       calls !! i = Some c -> idx < n_seqs op ->
       seq_args a !! idx = Some s ->
       i < length s
       /\ c_in c !! idx
          = s !! (if (n_steps_arg a <? 0)%Z then length s - 1 - i else i)
       /\ (length s = Z.to_nat (Z.abs (n_steps_arg a)) ->
           (n_steps_arg a < 0)%Z ->
           c_in c !! idx
           = s !! (Z.to_nat (Z.abs (n_steps_arg a)) - 1 - i)).
Proof.
  intros H. apply execute_Returned in H.
  destruct H as [seqs pos0 bufs0 st Hseqs _ _ Hloop _ _ -> Hi _ _].
  destruct (main_loop_count _ _ _ _ _ _ _ _ _ _ _ Hloop) as (Hle & Heq & _).
  simpl in Hle, Heq. rewrite Hi in Hle, Heq. split_and!; [done| |].
  { intros Hw. apply Heq.
    eapply main_loop_cond_for; [exact Hw| |exact Hloop]. done. }
  destruct (unzip_seqs_Ok _ _ _ Hseqs) as (_ & Eseqs & _).
  assert (HQ : forall i c, ls_calls st !! i = Some c ->
            forall idx, idx < n_seqs op ->
            exists sq x, seqs !! idx = Some sq /\ sq !! i = Some x
                         /\ c_in c !! idx = Some x).
  { eapply (main_loop_calls zeros_like is_zero fits fn op a seqs
              (store_steps a)
              (fun i c => forall idx, idx < n_seqs op ->
                 exists sq x, seqs !! idx = Some sq /\ sq !! i = Some x
                              /\ c_in c !! idx = Some x));
      [| | |exact Hloop]; [|done|done].
    intros s0 s0' c _ Hstep Hc idx Hidx. apply step_Ok in Hstep.
    destruct Hstep as [in_seqs ? ? ? ? ? ? Hg _ _ _ _ _ _ _ _ _ _ Hcalls].
    rewrite Hcalls in Hc. apply app_inj_tail in Hc as [_ <-]. simpl.
    destruct (gather_seqs_lookup _ _ _ _ _ Hg Hidx) as (sq & x & ? & ? & ?).
    exists sq, x. split_and!; [done..|].
    by apply lookup_app_l_Some. }
  intros i c idx s Hc Hidx Hs.
  destruct (HQ _ _ Hc _ Hidx) as (sq & x & Hsq & Hx & Hin).
  rewrite Eseqs, list_lookup_fmap, Hs in Hsq. injection Hsq as <-.
  destruct (Z.ltb_spec (n_steps_arg a) 0) as [Hn|Hn].
  - assert (Hlt : i < length s).
    { apply lookup_lt_Some in Hx. by rewrite length_reverse in Hx. }
    rewrite reverse_lookup in Hx by done.
    replace (length s - S i) with (length s - 1 - i) in Hx by lia.
    split_and!; [done|congruence|].
    intros <- _. congruence.
  - split_and!; [by eapply lookup_lt_Some|congruence|lia].
Qed.
End Direction.

Module ExampleFacts.
Import Examples.

(** C8 (as stated) fails: a NIT-SOT trip count of 1 with 2 steps
    raises no error; both iterations run and the buffer of one entry is
    used as a ring. *)
Lemma short_trip_count_runs :
  nit_sot_args (stack_args 2 1 [10; 20; 30]%Z) = [1%Z]
  /\ n_steps_arg (stack_args 2 1 [10; 20; 30]%Z) = 2%Z
  /\ run stack_fn stack_op (stack_args 2 1 [10; 20; 30]%Z) [None] []
     = Returned [Some [20%Z]] []
         [{| c_in := [10%Z]; c_out := [10%Z] |};
          {| c_in := [20%Z]; c_out := [20%Z] |}].
Proof. split_and!; reflexivity. Qed.

Lemma execute_short_sequence_witness :
  exists idx' s',
    seq_args (stack_args 3 5 [10; 20]%Z) !! idx' = Some s'
    /\ (Z.of_nat (length s') < Z.abs 3)%Z
    /\ run stack_fn stack_op (stack_args 3 5 [10; 20]%Z) [None] []
       = Raised (SeqTooShort idx') [].
Proof.
  apply (execute_short_sequence (fun _ => 0%Z) (Z.eqb 0) (fun _ _ => true)
           (fun _ _ => true) stack_fn stack_op
           (stack_args 3 5 [10; 20]%Z) [None] [] 0 [10; 20]%Z).
  - reflexivity.
  - simpl. lia.
Defined.

(** C2 (as stated) fails: with [n_steps = -2] and a sequence of three
    entries, iteration 0 reads the last entry, 30, while a forward run of
    2 steps reads 20 at iteration [2 - 1 - 0]. *)
Lemma reversed_longer_sequence :
  exists bufs sh c0 c1 bufs' sh' c0' c1',
    run stack_fn stack_op (stack_args (-2) 2 [10; 20; 30]%Z) [None] []
    = Returned bufs sh [c0; c1]
    /\ run stack_fn stack_op (stack_args 2 2 [10; 20; 30]%Z) [None] []
       = Returned bufs' sh' [c0'; c1']
    /\ c_in c0 !! 0 = Some 30%Z
    /\ c_in c1' !! 0 = Some 20%Z
    /\ c_in c0 !! 0 <> c_in c1' !! 0.
Proof.
  eexists _, _, _, _, _, _, _, _.
  split_and!; [reflexivity..|discriminate].
Qed.

Lemma execute_direction_witness :
  length [{| c_in := [30%Z]; c_out := [30%Z] |};
          {| c_in := [20%Z]; c_out := [20%Z] |}]
  <= Z.to_nat (Z.abs (-2)).
Proof.
  apply (execute_direction (fun _ => 0%Z) (Z.eqb 0) (fun _ _ => true)
           (fun _ _ => true) stack_fn stack_op
           (stack_args (-2) 2 [10; 20; 30]%Z) [None] []
           [Some [30; 20]%Z] []).
  reflexivity.
Defined.
End ExampleFacts.

(** ** The termination condition *)

Section Condition.
Context {V : Type}.
Variable zeros_like : V -> V.
Variable is_zero : V -> bool.
Variable same_tail : list V -> list V -> bool.
Variable fits : list V -> V -> bool.
Variable fn : list V -> option (list V).
Variable op : Scan.
Variable a : Args V.

Local Abbreviation istep :=
  (step zeros_like is_zero fits fn op a).
Local Abbreviation iloop :=
  (main_loop zeros_like is_zero fits fn op a).

(** The state the loop stops in is the one it started in or the one the
    whole body of an iteration produced. *)
Lemma main_loop_last seqs ss fuel st0 st :
  iloop seqs ss fuel st0 = inl st ->
  st = st0
  \/ exists st_prev, ls_cond st_prev = true /\ istep seqs ss st_prev = Ok st.
Proof.
  revert st0. induction fuel as [|fuel IH]; intros st0 H; simpl in H.
  - injection H as <-. by left.
  - destruct (ls_cond st0) eqn:Hc; [|injection H as <-; by left].
    destruct (istep seqs ss st0) as [st1|e] eqn:Hs; [|discriminate].
    destruct (IH _ H) as [->|?]; [|by right].
    right. eauto.
Qed.

Lemma main_loop_cond_trace seqs ss fuel st0 st :
  as_while op = true ->
  iloop seqs ss fuel st0 = inl st ->
  exists new,
    ls_calls st = ls_calls st0 ++ new
    /\ (length new = 0 <-> fuel = 0 \/ ls_cond st0 = false)
    /\ forall k c, new !! k = Some c ->
         exists x, c_out c !! cond_index op = Some x
                   /\ (S k < length new
                       <-> is_zero x = true /\ S k < fuel).
Proof.
  intros Hw. revert st0.
  induction fuel as [|fuel IH]; intros st0 H; simpl in H.
  - injection H as <-. exists []. rewrite app_nil_r.
    split_and!; [done|intuition|done].
  - destruct (ls_cond st0) eqn:Hc.
    2:{ injection H as <-. exists []. rewrite app_nil_r.
        split_and!; [done|intuition|done]. }
    destruct (istep seqs ss st0) as [st1|e] eqn:Hs; [|discriminate].
    apply step_Ok in Hs.
    destruct Hs as [? ? ? out ? ? ? _ _ _ _ Hcond _ _ _ _ _ _ Hcalls].
    rewrite Hw in Hcond. destruct Hcond as (x0 & Hx0 & Hc1).
    destruct (IH _ H) as (new & Hnew & Hlen & Hall).
    rewrite Hcalls, <- app_assoc in Hnew. simpl in Hnew.
    eexists. split; [exact Hnew|]. split.
    + simpl. split; [lia|]. intros [?|?]; [lia|congruence].
    + intros [|k] c Hk; simpl in Hk.
      * injection Hk as <-. simpl. exists x0. split; [done|].
        rewrite <- Hc1. split.
        -- intros Hlt. destruct (ls_cond st1) eqn:E.
           ++ split; [done|]. destruct fuel; [|lia].
              assert (length new = 0) by (apply Hlen; by left). lia.
           ++ assert (length new = 0) by (apply Hlen; by right). lia.
        -- intros [E Hf].
           destruct (decide (length new = 0)) as [El|El]; [|lia].
           apply Hlen in El as [?|?]; [lia|congruence].
      * destruct (Hall _ _ Hk) as (x & Hx & Hiff).
        exists x. split; [done|]. simpl. rewrite <- Nat.succ_lt_mono.
        rewrite Hiff. rewrite <- (Nat.succ_lt_mono (S k) fuel). done.
Qed.

(** C10 (as amended): with a termination condition, after the
    invocation of the inner function at iteration [k] the loop goes on
    to iteration [k + 1] if and only if the termination scalar that the
    invocation produced equals 0 and [k + 1] is below [|n_steps|]; so no
    iteration runs after the scalar was nonzero.  The last iteration,
    and so the one on which the scalar became nonzero, is committed as
    a whole: the state that is reconciled into the returned buffers is
    the state the complete loop body produced from the state before,
    with the outputs stored, the positions advanced and the iteration
    counted. *)
Theorem execute_condition outs shared bufs sh calls :
  as_while op = true ->
  execute zeros_like is_zero same_tail fits fn op a outs shared
  = Returned bufs sh calls ->
  (forall k c, calls !! k = Some c ->
     exists x, c_out c !! cond_index op = Some x
               /\ (is_Some (calls !! S k)
                   <-> is_zero x = true
                       /\ S k < Z.to_nat (Z.abs (n_steps_arg a))))
  /\ (forall calls' c, calls = calls' ++ [c] ->
        exists seqs st_prev st,
          istep seqs (store_steps a) st_prev = Ok st
          /\ ls_calls st_prev = calls' /\ ls_calls st = calls
          /\ ls_i st = length calls /\ ls_shared st = sh
          /\ pos_ok op (store_steps a) (length calls) (ls_pos st)
          /\ reconcile zeros_like op (store_steps a)
               (Z.abs (n_steps_arg a)) st = Ok bufs).
Proof.
  intros Hw H. apply execute_Returned in H.
  destruct H as [seqs pos0 bufs0 st _ _ _ Hloop Hrec -> -> Hi Hpos _].
  split.
  - destruct (main_loop_cond_trace _ _ _ _ _ Hw Hloop)
      as (new & Hnew & _ & Hall).
    simpl in Hnew. rewrite Hnew. intros k c Hk.
    destruct (Hall _ _ Hk) as (x & Hx & Hiff).
    exists x. split; [done|]. by rewrite lookup_lt_is_Some.
  - intros calls' c Hc.
    destruct (main_loop_last _ _ _ _ _ Hloop) as [->|(sp & _ & Hstep)].
    { simpl in Hc. by destruct calls'. }
    exists seqs, sp, st. pose proof (step_Ok _ _ _ _ _ _ _ _ _ _ Hstep) as T.
    destruct T as [? ? ? ? ? ? ? _ _ _ _ _ _ _ _ _ _ _ Hcalls].
    rewrite Hc in Hcalls. apply app_inj_tail in Hcalls as [-> _].
    rewrite <- Hi. split_and!; done.
Qed.
End Condition.

Module ConditionFacts.
Import Examples.

(** C10 (as stated) fails: with [n_steps = 2] the counter loop makes two
    iterations; the scalar of the second one is 0, and yet no third
    iteration runs. *)
Lemma zero_scalar_at_last_step :
  exists bufs sh c0 c1,
    run count_fn count_op (count_args 2) [None] []
    = Returned bufs sh [c0; c1]
    /\ c_out c1 !! cond_index count_op = Some 0%Z
    /\ [c0; c1] !! 2 = None.
Proof. eexists _, _, _, _. split_and!; reflexivity. Qed.

(** With [n_steps = 100] the counter loop stops after 4 iterations. *)
Lemma execute_condition_witness :
  exists bufs sh calls,
    run count_fn count_op (count_args 100) [None] []
    = Returned bufs sh calls
    /\ length calls = 4
    /\ forall k c, calls !! k = Some c ->
         exists x, c_out c !! cond_index count_op = Some x
                   /\ (is_Some (calls !! S k)
                       <-> (0 =? x)%Z = true
                           /\ S k < Z.to_nat (Z.abs 100)).
Proof.
  eexists _, _, _. split; [vm_compute; reflexivity|].
  split; [reflexivity|].
  refine (proj1 (execute_condition (fun _ => 0%Z) (Z.eqb 0)
                   (fun _ _ => true) (fun _ _ => true) count_fn count_op
                   (count_args 100) [None] [] _ _ _ eq_refl _)).
  vm_compute. reflexivity.
Defined.
End ConditionFacts.

(** ** After the loop *)

Section Reconcile.
Context {V : Type}.
Variable zeros_like : V -> V.
Variable is_zero : V -> bool.
Variable same_tail : list V -> list V -> bool.
Variable fits : list V -> V -> bool.
Variable fn : list V -> option (list V).
Variable op : Scan.

Lemma reconcile_other ss n st bufs idx :
  reconcile zeros_like op ss n st = Ok bufs ->
  idx < n_mit_mot op \/ n_tracked op <= idx ->
  bufs !! idx = ls_bufs st !! idx.
Proof.
  intros H Hidx. unfold reconcile in H.
  eapply (for_each_cells_other _ _ (update_cell_cell_update _)); [exact H|].
  rewrite elem_of_xrange. lia.
Qed.

Lemma reconcile_at ss n st bufs idx :
  reconcile zeros_like op ss n st = Ok bufs ->
  n_mit_mot op <= idx < n_tracked op ->
  exists c c',
    ls_bufs st !! idx = Some c
    /\ reconcile_one zeros_like op ss (ls_pos st) n (ls_i st) idx c = Ok c'
    /\ bufs !! idx = Some c'.
Proof.
  intros H Hidx. unfold reconcile in H.
  assert (Hin : idx ∈ xrange (n_mit_mot op) (n_tracked op))
    by (by apply elem_of_xrange).
  exact (for_each_cells_at _ _ (update_cell_cell_update _) _ _ _ idx
           (NoDup_xrange _ _) Hin H).
Qed.


(** The padding of a buffer that was not filled, entry by entry. *)
Lemma pad_and_trim_spec n i m (b : list V) :
  (m <= Z.of_nat i)%Z ->
  let k := Z.to_nat (Z.of_nat i - m) in
  let r := pad_and_trim zeros_like n i m b in
  length r = (if (Z.of_nat i <? n)%Z
              then length b - Z.to_nat (n - Z.of_nat i)
              else length b)
  /\ forall q, q < length r ->
       r !! q = if decide (q < k) then b !! q else zeros_like <$> b !! q.
Proof.
  intros Hm k r.
  assert (Hz : forall q,
    zero_from zeros_like b (Z.of_nat i - m) !! q
    = if decide (q < k) then b !! q else zeros_like <$> b !! q).
  { intros q. unfold zero_from, slice_to, slice_from.
    destruct (decide (Z.of_nat (length b) <= Z.of_nat i - m)%Z) as [Hge|Hlt].
    - rewrite py_clip_above by done.
      rewrite take_ge, drop_ge by done. rewrite app_nil_r.
      destruct (decide (q < k)); [done|].
      rewrite lookup_ge_None_2 by (subst k; lia). done.
    - rewrite py_clip_in by lia. fold k.
      destruct (decide (q < k)).
      + rewrite lookup_app_l by (rewrite length_take; lia).
        by apply lookup_take_lt.
      + rewrite lookup_app_r by (rewrite length_take; lia).
        rewrite length_take, list_lookup_fmap, lookup_drop.
        do 2 f_equal. lia. }
  assert (Hzl : length (zero_from zeros_like b (Z.of_nat i - m)) = length b).
  { unfold zero_from, slice_to, slice_from.
    rewrite length_app, length_fmap, length_take, length_drop.
    pose proof (py_clip_le (length b) (Z.of_nat i - m)). lia. }
  subst r. unfold pad_and_trim.
  destruct (Z.ltb_spec (Z.of_nat i) n) as [Hn|Hn].
  - unfold slice_to. rewrite py_clip_neg, Hzl by lia.
    replace (- - (n - Z.of_nat i))%Z with (n - Z.of_nat i)%Z by lia.
    rewrite length_take, Hzl. split; [lia|].
    intros q Hq. rewrite lookup_take_lt by lia. apply Hz.
  - split; [done|]. intros q _. apply Hz.
Qed.

End Reconcile.


(** ** The gradient constructor *)

Module GradFacts.
Import Grad Examples.

(** C5, on an op with a MIT-MOT output before the MIT-SOT one: the
    backward op has no MIT-SOT and no SIT-SOT output and as many MIT-MOT
    outputs as the forward op has outputs with taps, whatever the op; the
    SIT-SOT output gets the taps 0 and 1 and the slice 1, and the taps of
    the backward channel 1, that of the forward MIT-SOT output with taps
    -2 and -1, hold 2 and 1.  Its output slices do not: they are empty,
    2 and 1 were appended to the slices of channel 0. *)
Theorem backward_info_mixed :
  (forall op n_other info,
     backward_info op n_other = Ok info ->
     n_mit_sot info = 0 /\ n_sit_sot info = 0
     /\ n_mit_mot info = n_mit_mot op + n_mit_sot op + n_sit_sot op)
  /\ exists info,
       backward_info mixed_op 0 = Ok info
       /\ tap_array mixed_op !! 1 = Some [-2; -1]%Z
       /\ tap_array info = [[-1; 0; -1]; [2; 1; 0]; [0; 1]]%Z
       /\ mit_mot_out_slices info = [[0; -1; 2; 1]; []; [1]]%Z
       /\ mit_mot_out_slices info !! 1 = Some []
       /\ n_mit_mot_outs info = 5.
Proof.
  split.
  - intros op n_other info H. unfold backward_info in H.
    apply bind_Ok in H as (n1 & _ & H). apply bind_Ok in H as (n2 & _ & H).
    apply bind_Ok in H as (t & _ & H). injection H as <-. done.
  - eexists. split; [reflexivity|]. split_and!; reflexivity.
Qed.

(** Without a MIT-MOT output the slices land where the taps do. *)
Lemma backward_info_sot :
  exists info,
    backward_info sot_op 2 = Ok info
    /\ tap_array info = [[2; 1; 0]; [0; 1]]%Z
    /\ mit_mot_out_slices info = [[2; 1]; [1]]%Z.
Proof. eexists. split_and!; reflexivity. Qed.

Lemma for_each_app {J S} (l1 l2 : list J) (body : J -> S -> res S) s :
  for_each (l1 ++ l2) body s
  = do s' <- for_each l1 body s; for_each l2 body s'.
Proof.
  revert s. induction l1 as [|x l1 IH]; intros s; simpl; [done|].
  destruct (body x s); simpl; [apply IH|done].
Qed.

Lemma append_at_last (T : list (list Z)) idx x v :
  idx = length T -> append_at idx v (T ++ [x]) = Ok (T ++ [x ++ [v]]).
Proof.
  intros ->. unfold append_at, update_cell.
  rewrite lookup_app_r, Nat.sub_diag by lia. simpl.
  rewrite insert_app_r_alt, Nat.sub_diag by lia. done.
Qed.

(** The loop over the taps of a forward MIT-SOT output of an op without
    MIT-MOT outputs extends the last channel of both lists. *)
Lemma mit_sot_taps_loop idx ta T O x y n :
  length T = idx -> length O = idx ->
  for_each ta
    (fun k t =>
       do tp <- append_at (idx + 0) (- k) (mit_mot_taps t);
       do os <- append_at idx (- k) (out_slices t);
       Ok {| mit_mot_taps := tp; out_slices := os;
             n_outs_acc := S (n_outs_acc t) |})
    {| mit_mot_taps := T ++ [x]; out_slices := O ++ [y]; n_outs_acc := n |}
  = Ok {| mit_mot_taps := T ++ [x ++ (Z.opp <$> ta)];
          out_slices := O ++ [y ++ (Z.opp <$> ta)];
          n_outs_acc := n + length ta |}.
Proof.
  intros HT HO. revert x y n.
  induction ta as [|k ta IH]; intros x y n; simpl.
  - rewrite !app_nil_r, Nat.add_0_r. done.
  - rewrite (append_at_last T) by lia. simpl.
    rewrite (append_at_last O) by lia. simpl.
    rewrite IH. rewrite <- !app_assoc. simpl. do 2 f_equal. lia.
Qed.

(** For an op without MIT-MOT outputs the backward channel of every
    forward MIT-SOT output holds the negated taps, as taps, followed by 0,
    and as output slices, and that of every SIT-SOT output the taps 0
    and 1 and the slice 1. *)
Lemma backward_taps_without_mit_mot op t :
  n_mit_mot op = 0 -> backward_taps op = Ok t ->
  mit_mot_taps t
  = ((fun ta : list Z => (Z.opp <$> ta) ++ [0%Z])
       <$> take (n_mit_sot op) (tap_array op))
    ++ replicate (n_sit_sot op) [0; 1]%Z
  /\ out_slices t
     = ((fun ta : list Z => Z.opp <$> ta) <$> take (n_mit_sot op) (tap_array op))
       ++ replicate (n_sit_sot op) [1%Z].
Proof.
  intros H0 H. unfold backward_taps in H. rewrite H0 in H. simpl in H.
  apply bind_Ok in H as (t1 & H1 & H2).
  assert (G1 : forall n t,
    for_each (xrange 0 n) (mit_sot_body op)
      {| mit_mot_taps := []; out_slices := []; n_outs_acc := 0 |} = Ok t ->
    mit_mot_taps t
    = (fun ta : list Z => (Z.opp <$> ta) ++ [0%Z]) <$> take n (tap_array op)
    /\ out_slices t = (fun ta : list Z => Z.opp <$> ta) <$> take n (tap_array op)
    /\ n <= length (tap_array op)).
  { clear -H0. unfold xrange. induction n as [|n IH]; intros t H.
    - simpl in H. injection H as <-. simpl. split_and!; [done..|lia].
    - rewrite Nat.sub_0_r, seq_S, for_each_app in H. simpl in H.
      apply bind_Ok in H as (t' & Ht' & H).
      rewrite <- (Nat.sub_0_r n) in Ht'.
      destruct (IH _ Ht') as (ET & EO & Hn).
      apply bind_Ok in H as (t'' & H & E). injection E as <-.
      unfold mit_sot_body in H. rewrite H0 in H.
      apply bind_Ok in H as (ta & Hta & H). apply from_opt_Ok in Hta.
      rewrite Nat.add_0_r in Hta.
      apply bind_Ok in H as (t3 & H3 & H).
      destruct t' as [T O cnt]. simpl in ET, EO. unfold open_channel in H3.
      simpl in H3.
      assert (LT : length T = n)
        by (rewrite ET, length_fmap, length_take; lia).
      assert (LO : length O = n)
        by (rewrite EO, length_fmap, length_take; lia).
      rewrite (mit_sot_taps_loop n ta T O [] [] cnt LT LO) in H3.
      injection H3 as <-. simpl in H.
      apply bind_Ok in H as (tp & Htp & H). injection H as <-. simpl.
      rewrite (append_at_last T) in Htp by lia. injection Htp as <-.
      rewrite (take_S_r _ _ _ Hta), !fmap_app. simpl.
      rewrite ET, EO. split_and!; [done..|].
      apply lookup_lt_Some in Hta. lia. }
  destruct (G1 _ _ H1) as (ET & EO & _).
  assert (G2 : forall n t0 t,
    for_each (xrange 0 n) sit_sot_body t0 = Ok t ->
    mit_mot_taps t = mit_mot_taps t0 ++ replicate n [0; 1]%Z
    /\ out_slices t = out_slices t0 ++ replicate n [1%Z]).
  { clear. unfold xrange. induction n as [|n IH]; intros t0 t H.
    - simpl in H. injection H as <-. simpl. by rewrite !app_nil_r.
    - rewrite Nat.sub_0_r, seq_S, for_each_app in H. simpl in H.
      apply bind_Ok in H as (t' & Ht' & H).
      rewrite <- (Nat.sub_0_r n) in Ht'.
      destruct (IH _ _ Ht') as (ET & EO). injection H as <-. simpl.
      rewrite ET, EO, !replicate_cons_app, !app_assoc. done. }
  destruct (G2 _ _ _ H2) as (ET2 & EO2).
  by rewrite ET2, EO2, ET, EO.
Qed.

(** C6: with a [truncate_gradient] other than -1 the backward op is
    called with [min(n_steps, truncate_gradient)] steps, with -1 it is
    called with the [n_steps] of the forward call. *)
Theorem backward_steps_truncated op n_steps :
  (truncate_gradient op <> (-1)%Z ->
   fst (backward_steps op n_steps) = Z.min n_steps (truncate_gradient op))
  /\ (truncate_gradient op = (-1)%Z ->
      fst (backward_steps op n_steps) = n_steps).
Proof.
  unfold backward_steps, do_steps. simpl.
  destruct (Z.eqb_spec (truncate_gradient op) (-1)); simpl;
    split; intros; congruence.
Qed.

Lemma backward_steps_truncated_witness :
  fst (backward_steps mixed_op 20) = 5%Z
  /\ fst (backward_steps sot_op 20) = 20%Z.
Proof.
  split.
  - apply (proj1 (backward_steps_truncated mixed_op 20)). discriminate.
  - apply (proj2 (backward_steps_truncated sot_op 20)). reflexivity.
Defined.

Section Sums.
Variable has_path : nat -> nat -> bool.
Variable n_diff : nat.
Variable op : Scan.

Lemma compute_gradient_lookup dx p :
  p < n_diff ->
  compute_gradient has_path n_diff dx !! p
  = Some (if has_path dx p then Some (GLocal dx p) else None).
Proof.
  intros Hp. unfold compute_gradient.
  rewrite list_lookup_fmap, lookup_seq_lt by done. done.
Qed.

Lemma add_output_eff dx acc :
  add_output has_path n_diff op dx acc
  = zip_with sum_pair (compute_gradient has_path n_diff dx) (eff has_path n_diff op acc).
Proof.
  unfold add_output, eff. destruct acc; [|done].
  f_equal. unfold compute_gradient. rewrite !imap_fmap. done.
Qed.

(** The accumulator after the outputs [0 .. m - 1], entry by entry. *)
Lemma accumulator_lookup m p :
  p < n_diff ->
  eff has_path n_diff op (foldl (fun acc dx => add_output has_path n_diff op dx acc) []
             (seq 0 m)) !! p
  = Some (acc_entry has_path op m p).
Proof.
  intros Hp. induction m as [|m IH].
  - simpl. unfold eff. rewrite list_lookup_imap.
    rewrite compute_gradient_lookup by done. done.
  - rewrite seq_S, foldl_app. simpl.
    assert (E : add_output has_path n_diff op m
                  (foldl (fun acc dx => add_output has_path n_diff op dx acc)
                         [] (seq 0 m)) !! p
                = Some (acc_entry has_path op (S m) p)).
    { rewrite add_output_eff, lookup_zip_with, IH.
      rewrite compute_gradient_lookup by done. simpl.
      unfold acc_entry. rewrite seq_S, foldl_app. done. }
    unfold eff. destruct (add_output _ _ _ _ _) eqn:Ea; [|exact E].
    discriminate E.
Qed.

Lemma dopt_sum_pair local prev x y :
  dopt local prev (sum_pair x y)
  = (dopt local prev x + dopt local prev y)%Z.
Proof. destruct x, y; simpl; lia. Qed.

Lemma dopt_acc_entry local prev m p :
  dopt local prev (acc_entry has_path op m p)
  = (path_sum has_path local m p
     + if (n_seqs op <=? p)%nat then prev p else 0)%Z.
Proof.
  unfold acc_entry, path_sum. induction m as [|m IH].
  - simpl. by destruct (n_seqs op <=? p)%nat.
  - rewrite seq_S, foldl_app, fmap_app, foldr_app. simpl.
    rewrite dopt_sum_pair, IH.
    assert (G : forall l z,
              foldr Z.add z l = (foldr Z.add 0 l + z)%Z).
    { clear. induction l as [|x l IHl]; intros z; simpl; [lia|].
      rewrite IHl. lia. }
    rewrite (G _ (_ + 0)%Z).
    destruct (has_path m p); simpl; lia.
Qed.

Lemma acc_entry_no_path m p :
  (forall dx, dx < m -> has_path dx p = false) ->
  acc_entry has_path op m p
  = if (n_seqs op <=? p)%nat then Some (GPrev p) else None.
Proof.
  intros H. unfold acc_entry. induction m as [|m IH]; [done|].
  rewrite seq_S, foldl_app. simpl. rewrite IH by (intros; apply H; lia).
  rewrite H by lia. by destruct (n_seqs op <=? p)%nat.
Qed.

(** C7 (as amended): for every differentiable inner input [p] the
    gradient the backward inner graph computes is, element by element,
    the sum of the gradients that the forward outputs send to [p], plus,
    for an input that is not a plain sequence ([p >= n_seqs]), the
    gradient carried over from the previous backward step.  An input
    that no output reaches gets an explicit zeros-like node when it is a
    plain sequence and otherwise just the carried gradient; it is never
    left absent. *)
Theorem inner_gradients_sum n_clean p :
  0 < n_clean -> p < n_diff ->
  exists e,
    inner_gfn_outs has_path n_diff n_clean op !! p = Some e
    /\ (forall local prev,
          denote local prev e
          = (path_sum has_path local n_clean p
             + if (n_seqs op <=? p)%nat then prev p else 0)%Z)
    /\ ((forall dx, dx < n_clean -> has_path dx p = false) ->
        e = if (n_seqs op <=? p)%nat then GPrev p else GZeros p).
Proof.
  intros Hn Hp. unfold inner_gfn_outs.
  pose proof (accumulator_lookup n_clean p Hp) as Hacc.
  assert (Hne : foldl (fun acc dx => add_output has_path n_diff op dx acc)
                      [] (seq 0 n_clean) <> []).
  { destruct n_clean as [|m]; [lia|]. rewrite seq_S, foldl_app. simpl.
    intros E.
    pose proof (accumulator_lookup m p Hp) as Hm.
    assert (L : add_output has_path n_diff op m
                  (foldl (fun acc dx => add_output has_path n_diff op dx acc)
                         [] (seq 0 m)) !! p <> None).
    { rewrite add_output_eff, lookup_zip_with, Hm.
      rewrite compute_gradient_lookup by done. done. }
    rewrite E in L. done. }
  unfold eff in Hacc.
  destruct (foldl _ _ _) as [|o acc] eqn:Ef; [done|].
  rewrite list_lookup_imap, Hacc. simpl.
  eexists. split; [done|]. split.
  - intros local prev. rewrite <- dopt_acc_entry.
    by destruct (acc_entry has_path op n_clean p).
  - intros Hno. rewrite acc_entry_no_path by done.
    by destruct (n_seqs op <=? p)%nat.
Qed.
End Sums.

(** C7 (as stated) fails: [sot_op] has four differentiable inner inputs,
    the sequence, the two taps of the MIT-SOT output and the tap of the
    SIT-SOT output.  When no output reaches the last one, input 3, its
    gradient is not a zeros-like node but the carried gradient, which is 5
    at an element where the carried gradient is 5. *)
Lemma unreached_input_keeps_carry :
  inner_gfn_outs (fun _ _ => false) 4 2 sot_op !! 3 = Some (GPrev 3)
  /\ GPrev 3 <> GZeros 3
  /\ denote (fun _ _ => 1%Z) (fun _ => 5%Z) (GPrev 3) = 5%Z
  /\ denote (fun _ _ => 1%Z) (fun _ => 5%Z) (GZeros 3) = 0%Z.
Proof. split_and!; [reflexivity|discriminate|reflexivity..]. Qed.

Lemma inner_gradients_sum_witness :
  exists e,
    inner_gfn_outs (fun dx p => Nat.eqb p 1) 4 2 sot_op !! 1 = Some e
    /\ (forall local prev,
          denote local prev e
          = (path_sum (fun dx p => Nat.eqb p 1) local 2 1
             + if (n_seqs sot_op <=? 1)%nat then prev 1%nat else 0)%Z)
    /\ ((forall dx, dx < 2 -> (fun dx p => Nat.eqb p 1) dx 1 = false) ->
        e = if (n_seqs sot_op <=? 1)%nat then GPrev 1 else GZeros 1).
Proof.
  apply (inner_gradients_sum (fun dx p => Nat.eqb p 1) 4 sot_op 2 1); lia.
Defined.
End GradFacts.

(** ** The ring buffers of the outputs with taps *)

Lemma foldl_min_le (x : Z) (r : list Z) :
  (foldl Z.min x r <= x)%Z /\ forall t, t ∈ r -> (foldl Z.min x r <= t)%Z.
Proof.
  revert x. induction r as [|y r IH]; intros x; simpl.
  - split; [lia|]. intros t Ht. by apply elem_of_nil in Ht.
  - destruct (IH (Z.min x y)) as [H1 H2]. split; [lia|].
    intros t Ht. apply elem_of_cons in Ht as [->|Ht]; [lia|auto].
Qed.

Lemma np_min_le (l : list Z) t : t ∈ l -> (np_min l <= t)%Z.
Proof.
  destruct l as [|x r]; intros Ht; [by apply elem_of_nil in Ht|].
  simpl. destruct (foldl_min_le x r) as [H1 H2].
  apply elem_of_cons in Ht as [->|Ht]; auto.
Qed.

Lemma mintaps_lookup op j taps :
  tap_array op !! j = Some taps -> mintaps op !! j = Some (np_min taps).
Proof.
  intros H. unfold mintaps. apply lookup_app_l_Some.
  by rewrite list_lookup_fmap, H.
Qed.

(** Two steps less than [s] apart use different slots. *)
Lemma slot_ne (s x d : Z) :
  (0 < d < s)%Z -> ((x + d) `mod` s <> x `mod` s)%Z.
Proof.
  intros Hd E.
  assert (Hm : ((x + d - x) `mod` s = 0)%Z).
  { rewrite Zminus_mod, E, Z.sub_diag. apply Zmod_0_l. }
  replace (x + d - x)%Z with d in Hm by lia.
  rewrite Z.mod_small in Hm by lia. lia.
Qed.

Lemma py_getitem_nonneg {A} (l : list A) k x :
  (0 <= k)%Z -> py_getitem l k = Ok x -> l !! Z.to_nat k = Some x.
Proof.
  intros Hk H. apply py_getitem_nat. by rewrite Z2Nat.id.
Qed.

Lemma py_setitem_Ok_in {A} (l l' : list A) k v :
  (0 <= k < Z.of_nat (length l))%Z -> py_setitem l k v = Ok l' ->
  l' = <[Z.to_nat k:=v]> l.
Proof. intros Hk H. rewrite py_setitem_in in H by done. congruence. Qed.

Lemma lookup_concat_offset {A} (ll : list (list A)) j l q :
  ll !! j = Some l -> q < length l ->
  concat ll !! (sum_list (length <$> take j ll) + q) = l !! q.
Proof.
  revert j. induction ll as [|l0 ll IH]; intros j Hj Hq; [done|].
  destruct j as [|j]; simpl in *.
  - injection Hj as ->. by rewrite lookup_app_l.
  - rewrite lookup_app_r by lia. rewrite <- (IH j Hj Hq).
    change (list_fmap (list A) nat length (take j ll))
      with (length <$> take j ll).
    f_equal. lia.
Qed.

Lemma step_value_app {V} (calls more : list (call V)) seed m oi z :
  (z < Z.of_nat (length calls))%Z ->
  step_value (calls ++ more) seed m oi z = step_value calls seed m oi z.
Proof.
  intros Hz. unfold step_value. destruct (z <? 0)%Z eqn:E; [done|].
  rewrite lookup_app_l by lia. done.
Qed.

Section Taps.
Context {V : Type}.
Variable op : Scan.
Variable ss pos : list Z.
Variable bufs : list (option (list V)).

Lemma read_tap_Ok idx tap x :
  read_tap ss pos bufs idx tap = Ok x ->
  exists p s b,
    pos !! idx = Some p /\ ss !! idx = Some s /\ s <> 0%Z
    /\ bufs !! idx = Some (Some b)
    /\ py_getitem b ((p + tap) `mod` s)%Z = Ok x.
Proof.
  unfold read_tap. intros H.
  apply bind_Ok in H as (p & Hp & H). apply from_opt_Ok in Hp.
  apply bind_Ok in H as (s & Hs & H). apply from_opt_Ok in Hs.
  apply bind_Ok in H as (k & Hk & H). apply py_mod_Ok in Hk as [Hs0 ->].
  apply bind_Ok in H as (c & Hc & H). apply from_opt_Ok in Hc.
  apply bind_Ok in H as (b & Hb & H). apply from_opt_Ok in Hb. subst c.
  eauto 10.
Qed.

(** The tap [q] of output [j] is input [tap_offset op j + q], after the
    sequences. *)
Lemma gather_taps_lookup in_taps j taps q t :
  gather_taps op ss pos bufs = Ok in_taps ->
  j < n_outs op -> tap_array op !! j = Some taps -> taps !! q = Some t ->
  exists x,
    read_tap ss pos bufs j t = Ok x
    /\ in_taps !! (sum_list (length <$> take j (tap_array op)) + q) = Some x.
Proof.
  unfold gather_taps. intros H Hj Htaps Hq.
  apply bind_Ok in H as (ll & Hll & H). injection H as <-.
  pose proof Hll as HF. apply res_mapM_Forall2 in HF.
  (* the slices of output [j] *)
  destruct (res_mapM_lookup _ _ _ j j Hll) as (l & Hl & Hf).
  { by apply lookup_xrange_0. }
  apply bind_Ok in Hf as (taps' & Ht' & Hf). apply from_opt_Ok in Ht'.
  rewrite Htaps in Ht'. injection Ht' as <-.
  destruct (res_mapM_lookup _ _ _ q t Hf Hq) as (x & Hx & Hr).
  exists x. split; [done|].
  assert (Elen : length <$> take j ll = length <$> take j (tap_array op)).
  { apply list_eq. intros k. rewrite !list_lookup_fmap.
    destruct (decide (k < j)) as [Hk|Hk].
    - rewrite !lookup_take_lt by done.
      destruct (res_mapM_lookup _ _ _ k k Hll) as (lk & Hlk & Hfk).
      { apply lookup_xrange_0. lia. }
      apply bind_Ok in Hfk as (tk & Htk & Hfk). apply from_opt_Ok in Htk.
      rewrite Hlk, Htk. simpl. f_equal. by eapply res_mapM_length.
    - rewrite !lookup_take_ge by lia. done. }
  rewrite <- Elen, (lookup_concat_offset _ _ l) ; [done..|].
  by eapply lookup_lt_Some.
Qed.
End Taps.

Lemma ring_write {V} (s m : Z) (seed : list V) oi i calls b c v :
  ring_ok s m seed oi i calls b ->
  length calls = i -> (0 < s)%Z -> c_out c !! oi = Some v ->
  ring_ok s m seed oi (S i) (calls ++ [c])
    (<[Z.to_nat ((- m + Z.of_nat i) `mod` s):=v]> b).
Proof.
  intros [Hlen Hring] Hcalls Hs Hv. split; [by rewrite length_insert|].
  intros z Hmz Hz.
  pose proof (Z.mod_pos_bound (- m + Z.of_nat i) s Hs) as Hp.
  pose proof (Z.mod_pos_bound (- m + z) s Hs) as Hq.
  destruct (decide (z = Z.of_nat i)) as [->|Hne].
  - rewrite list_lookup_insert_eq by lia.
    unfold step_value. destruct (Z.ltb_spec (Z.of_nat i) 0); [lia|].
    rewrite Nat2Z.id, lookup_app_r by lia.
    rewrite Hcalls, Nat.sub_diag. simpl. by rewrite Hv.
  - rewrite list_lookup_insert_ne.
    + rewrite step_value_app by lia. apply Hring; [done|lia].
    + intros E. apply Z2Nat.inj in E; [|lia..].
      apply (slot_ne s (- m + z) (Z.of_nat i - z)); [lia|].
      rewrite <- E. f_equal. lia.
Qed.

Section Ring.
Context {V : Type}.
Variable zeros_like : V -> V.
Variable is_zero : V -> bool.
Variable same_tail : list V -> list V -> bool.
Variable fits : list V -> V -> bool.
Variable fn : list V -> option (list V).
Variable op : Scan.
Variable a : Args V.
Variable seqs : list (list V).

(** A tracked output [j] after the MIT-MOT block, with its [mintap], its
    [store_steps] and its initial state ([seed], none for a NIT-SOT
    output). *)
Variable j : nat.
Variable m s : Z.
Variable seed : list V.
Hypothesis Hj : n_mit_mot op <= j < n_tracked op.
Hypothesis Hm : mintaps op !! j = Some m.
Hypothesis Hs : store_steps a !! j = Some s.
Hypothesis Hm0 : (m <= 0)%Z.
Hypothesis Hs0 : (0 < s)%Z.
Hypothesis Hms : (- m <= s)%Z.
Hypothesis Hseed : j < n_outs op -> init_args a !! j = Some seed.
Hypothesis Hnit : n_outs op <= j -> m = 0%Z.

Local Abbreviation oi := (sot_out_index op j).

Lemma ring_init outs bufs0 pos0 shared :
  init_bufs same_tail op a (store_steps a) outs = Ok bufs0 ->
  chan_inv op j m s seed {| ls_i := 0; ls_cond := true; ls_pos := pos0;
              ls_bufs := bufs0; ls_shared := shared; ls_calls := [] |}.
Proof.
  intros H. destruct (decide (j < n_outs op)) as [Hlt|Hge];
    [right|left; simpl; split; [lia|done]].
  destruct (init_bufs_at _ _ _ _ _ _ H Hlt)
    as (prev & init & m' & Hi & Hm' & Hb).
  rewrite (Hseed Hlt) in Hi. injection Hi as <-.
  rewrite Hm in Hm'. injection Hm' as <-.
  pose proof (store_steps_lookup _ _ _ (Hseed Hlt)) as Hs'.
  rewrite Hs in Hs'. injection Hs' as Hs'.
  eexists. split; [exact Hb|]. simpl. split.
  - by rewrite alloc_out_length.
  - intros z Hmz Hz. rewrite Z.mod_small by lia.
    rewrite alloc_out_seed by lia.
    unfold step_value. destruct (Z.ltb_spec z 0); [|lia].
    f_equal. lia.
Qed.

Lemma ring_step ss st st' :
  ss = store_steps a ->
  chan_inv op j m s seed st -> pos_ok op ss (ls_i st) (ls_pos st) ->
  ls_i st = length (ls_calls st) ->
  step zeros_like is_zero fits fn op a seqs ss st = Ok st' ->
  chan_inv op j m s seed st'.
Proof.
  intros -> Hinv [_ Hpos] Hi Hstep. apply step_Ok in Hstep.
  destruct Hstep as [in_seqs in_taps in_shared out bufs1 off bufs2
                       _ _ _ _ _ Hmm Hsot Hnsot _ _ Hi' Hcalls].
  destruct (scatter_mit_mot_spec _ _ _ _ _ _ Hmm) as (_ & Hoth & ->).
  destruct (Hpos j ltac:(lia)) as (m' & s' & Hm' & Hs' & _ & Hp).
  rewrite Hm in Hm'. injection Hm' as <-.
  rewrite Hs in Hs'. injection Hs' as <-.
  pose proof (Z.mod_pos_bound (- m + Z.of_nat (ls_i st)) s Hs0) as Hpb.
  right. rewrite Hi', Hcalls.
  destruct (decide (j < n_outs op)) as [Hlt|Hge].
  - (* written by 5.2 *)
    destruct Hinv as [[? _]|(b & Hb & Hring)]; [lia|].
    assert (Hin : j ∈ xrange (n_mit_mot op) (n_outs op))
      by (apply elem_of_xrange; lia).
    destruct (for_each_cells_at _ _ (write_cur_cell_update _ _ _ _)
                _ _ _ j (NoDup_xrange _ _) Hin Hsot)
      as (c & c' & Hc & (b0 & b' & p & v & -> & Hp' & Hv & Hset & ->) & Hc').
    rewrite Hoth, Hb in Hc by lia. injection Hc as <-.
    rewrite Hp in Hp'. injection Hp' as <-.
    destruct Hring as [Hlen Hring].
    apply py_setitem_Ok_in in Hset; [|lia]. subst b'.
    eexists. split.
    + rewrite (for_each_cells_other _ _
                 (write_nit_sot_cell_update _ _ _ _ _ _ _ _) _ _ _ j Hnsot)
        by (rewrite elem_of_xrange; lia).
      exact Hc'.
    + apply ring_write; [by split|done|done|]. simpl. exact Hv.
  - (* written by 5.3 *)
    assert (Hin : j ∈ xrange (n_outs op) (n_tracked op))
      by (apply elem_of_xrange; lia).
    destruct (for_each_cells_at _ _
                (write_nit_sot_cell_update _ _ _ _ _ _ _ _)
                _ _ _ j (NoDup_xrange _ _) Hin Hnsot)
      as (c & c' & Hc & (b0 & b' & p & v & Hpre & Hp' & Hv & Hset & ->) & Hc').
    rewrite (for_each_cells_other _ _ (write_cur_cell_update _ _ _ _)
               _ _ _ j Hsot) in Hc
      by (rewrite elem_of_xrange; lia).
    rewrite Hoth in Hc by lia.
    rewrite Hp in Hp'. injection Hp' as <-.
    assert (Hring : ring_ok s m seed oi (ls_i st) (ls_calls st) b0).
    { destruct (ls_i st =? 0)%nat eqn:Ei.
      - apply Nat.eqb_eq in Ei.
        destruct Hpre as (s' & v' & Hs' & _ & Hst).
        rewrite Hs in Hs'. injection Hs' as <-.
        split; [eapply nit_sot_storage_length; [exact Hst|lia]|].
        intros z Hmz Hz. rewrite (Hnit ltac:(lia)) in Hmz. lia.
      - apply Nat.eqb_neq in Ei.
        destruct Hinv as [[_ ?]|(b & Hb & Hring)]; [lia|].
        subst c. rewrite Hb in Hc. by injection Hc as <-. }
    destruct Hring as [Hlen Hring].
    apply py_setitem_Ok_in in Hset; [|lia]. subst b'.
    eexists. split; [exact Hc'|].
    apply ring_write; [by split|done|done|]. simpl. exact Hv.
Qed.
End Ring.

Lemma np_min_nonpos (l : list Z) :
  (forall t, t ∈ l -> (t < 0)%Z) -> (np_min l <= 0)%Z.
Proof.
  intros H. destruct l as [|x r]; [done|].
  assert (x ∈ x :: r) as Hx by (by left).
  pose proof (np_min_le _ _ Hx). specialize (H _ Hx). lia.
Qed.

Lemma advance_pos_lookup pos ss pos' idx p s :
  advance_pos pos ss = Ok pos' ->
  pos !! idx = Some p -> ss !! idx = Some s ->
  pos' !! idx = Some ((p + 1) `mod` s)%Z.
Proof.
  unfold advance_pos. intros H Hp Hs.
  destruct (res_mapM_lookup _ _ _ idx (p, s) H) as (p' & Hp' & Hf).
  { apply lookup_zip_with_Some. eauto. }
  apply py_mod_Ok in Hf as [_ ->]. done.
Qed.

Section TapReads.
Context {V : Type}.
Variable zeros_like : V -> V.
Variable is_zero : V -> bool.
Variable same_tail : list V -> list V -> bool.
Variable fits : list V -> V -> bool.
Variable fn : list V -> option (list V).
Variable op : Scan.
Variable a : Args V.
Variable outs : list (option (list V)).
Variable shared : list (option V).

Local Abbreviation exec :=
  (execute zeros_like is_zero same_tail fits fn op a outs shared).

(** The state the loop stops in keeps the ring of every tracked output
    after the MIT-MOT block. *)
Lemma loop_ring seqs pos0 bufs0 st j m s seed :
  init_pos op (store_steps a) = Ok pos0 ->
  init_bufs same_tail op a (store_steps a) outs = Ok bufs0 ->
  main_loop zeros_like is_zero fits fn op a seqs (store_steps a)
    (Z.to_nat (Z.abs (n_steps_arg a)))
    {| ls_i := 0; ls_cond := true; ls_pos := pos0; ls_bufs := bufs0;
       ls_shared := shared; ls_calls := [] |} = inl st ->
  n_mit_mot op <= j < n_tracked op ->
  mintaps op !! j = Some m -> store_steps a !! j = Some s ->
  (m <= 0)%Z -> (0 < s)%Z -> (- m <= s)%Z ->
  (j < n_outs op -> init_args a !! j = Some seed) ->
  (n_outs op <= j -> m = 0%Z) ->
  chan_inv op j m s seed st.
Proof.
  intros Hpos0 Hbufs0 Hloop Hj Hm Hs Hm0 Hs0 Hms Hseed Hnit.
  enough (ls_i st = length (ls_calls st)
          /\ pos_ok op (store_steps a) (ls_i st) (ls_pos st)
          /\ chan_inv op j m s seed st) by tauto.
  revert Hloop.
  apply (main_loop_inv zeros_like is_zero fits fn op a seqs (store_steps a)
           (fun st => ls_i st = length (ls_calls st)
                      /\ pos_ok op (store_steps a) (ls_i st) (ls_pos st)
                      /\ chan_inv op j m s seed st)).
  - intros st1 st2 (Hi1 & Hpos1 & Hinv1) _ Hstep. split_and!.
    + apply step_Ok in Hstep.
      destruct Hstep as [? ? ? ? ? ? ? _ _ _ _ _ _ _ _ _ _ Hi' Hc].
      rewrite Hc, length_app, Hi', Hi1. simpl. lia.
    + pose proof (step_Ok _ _ _ _ _ _ _ _ _ _ Hstep) as T.
      destruct T as [? ? ? ? ? ? ? _ _ _ _ _ _ _ _ _ Hadv Hi' _].
      rewrite Hi'. eapply advance_pos_ok; eauto.
    + eapply ring_step; eauto.
  - split_and!; [done|by apply init_pos_ok|].
    eapply ring_init; eauto.
Qed.

(** C1 (as amended): the position of every tracked output starts at
    [(- min_tap) mod store_steps] and every iteration advances it by one
    modulo [store_steps].  For a MIT-SOT or SIT-SOT output [j] whose taps
    are negative and whose initial state has at least [- min_tap] entries,
    the value that iteration [i] reads for the tap [t], through
    [(position + t) mod store_steps], is the value written at step
    [i + t], or the entry [i + t - min_tap] of the initial state when
    [i + t < 0]. *)
Theorem execute_tap_reads bufs sh calls j taps seed :
  execute zeros_like is_zero same_tail fits fn op a outs shared
  = Returned bufs sh calls ->
  n_mit_mot op <= j < n_outs op ->
  tap_array op !! j = Some taps ->
  (forall t, t ∈ taps -> (t < 0)%Z) ->
  init_args a !! j = Some seed ->
  (- np_min taps <= Z.of_nat (length seed))%Z ->
  (exists pos0,
     init_pos op (store_steps a) = Ok pos0
     /\ forall idx, idx < n_tracked op ->
          exists m s, mintaps op !! idx = Some m
                      /\ store_steps a !! idx = Some s
                      /\ pos0 !! idx = Some ((- m) `mod` s)%Z)
  /\ (forall pos pos' idx p s,
        advance_pos pos (store_steps a) = Ok pos' ->
        pos !! idx = Some p -> store_steps a !! idx = Some s ->
        pos' !! idx = Some ((p + 1) `mod` s)%Z)
  /\ forall i c q t,
       calls !! i = Some c -> taps !! q = Some t ->
       exists x,
         c_in c !! (tap_offset op j + q) = Some x
         /\ step_value calls seed (np_min taps) (sot_out_index op j)
              (Z.of_nat i + t) = Some x.
Proof.
  intros H Hj Htaps Hneg Hseed Hlen.
  pose proof (execute_Returned _ _ _ _ _ _ _ _ _ _ _ _ H) as R.
  destruct R as [seqs pos0 bufs0 st _ Hpos0 Hbufs0 Hloop Hrec _ -> Hi Hpos _].
  pose proof (mintaps_lookup _ _ _ Htaps) as Hm.
  pose proof (store_steps_lookup _ _ _ Hseed) as Hs.
  pose proof (np_min_nonpos _ Hneg) as Hm0.
  set (m := np_min taps) in *. set (s := Z.of_nat (length seed)) in *.
  assert (Hs0 : (0 < s)%Z).
  { destruct Hpos as [_ Hp]. unfold n_tracked in Hp.
    destruct (Hp j ltac:(lia)) as (m' & s' & _ & Hs' & Hne & _).
    rewrite Hs in Hs'. injection Hs' as <-. subst s. lia. }
  split_and!.
  - exists pos0. split; [done|]. intros idx Hidx.
    destruct (init_pos_ok _ _ _ Hpos0) as [_ Hp].
    destruct (Hp idx Hidx) as (m' & s' & Hm' & Hs' & _ & Hp').
    exists m', s'. split_and!; [done..|]. rewrite Hp'.
    do 2 f_equal. lia.
  - intros pos pos' idx p s'. apply advance_pos_lookup.
  - set (reads := fun st : LoopState V =>
        forall k c, ls_calls st !! k = Some c ->
        forall q t, taps !! q = Some t ->
        exists x, c_in c !! (tap_offset op j + q) = Some x
                  /\ step_value (ls_calls st) seed m (sot_out_index op j)
                       (Z.of_nat k + t) = Some x).
    enough (reads st) as Hr by (intros i c q t Hc Ht; eapply Hr; eauto).
    enough (ls_i st = length (ls_calls st)
            /\ pos_ok op (store_steps a) (ls_i st) (ls_pos st)
            /\ chan_inv op j m s seed st /\ reads st) by tauto.
    assert (Hjt : n_mit_mot op <= j < n_tracked op)
      by (unfold n_tracked; lia).
    revert Hloop.
    apply (main_loop_inv zeros_like is_zero fits fn op a seqs
             (store_steps a)
             (fun st => ls_i st = length (ls_calls st)
                        /\ pos_ok op (store_steps a) (ls_i st) (ls_pos st)
                        /\ chan_inv op j m s seed st /\ reads st)).
    + intros st1 st2 (Hi1 & Hpos1 & Hinv1 & Hr1) _ Hstep.
      pose proof (step_Ok _ _ _ _ _ _ _ _ _ _ Hstep) as T.
      destruct T as [in_seqs in_taps in_shared out bufs1 off bufs2
                       Hgs Hgt _ _ _ _ _ _ _ Hadv Hi' Hcalls].
      split_and!.
      * rewrite Hcalls, length_app, Hi', Hi1. simpl. lia.
      * rewrite Hi'. eapply advance_pos_ok; eauto.
      * eapply (ring_step zeros_like is_zero fits fn op a seqs j m s seed);
          eauto; intros; lia.
      * intros k c Hk q t Ht. rewrite Hcalls in Hk |- *.
        assert (Htm : (m <= t < 0)%Z).
        { assert (t ∈ taps) as Hin by (eapply list_elem_of_lookup; eauto).
          split; [by apply np_min_le|by apply Hneg]. }
        apply lookup_app_Some in Hk as [Hk|[Hge Hk]].
        { destruct (Hr1 _ _ Hk _ _ Ht) as (x & Hx & Hv).
          exists x. split; [done|].
          rewrite step_value_app; [done|].
          apply lookup_lt_Some in Hk. lia. }
        apply list_lookup_singleton_Some in Hk as [Hk <-]. simpl.
        assert (k = ls_i st1) as -> by lia.
        destruct (gather_taps_lookup _ _ _ _ _ _ _ _ _ Hgt (proj2 Hj)
                    Htaps Ht) as (x & Hread & Hx).
        exists x. split.
        { unfold tap_offset.
          rewrite <- (gather_seqs_length _ _ _ _ Hgs), <- Nat.add_assoc.
          rewrite lookup_app_r by lia.
          replace (length in_seqs + _ - length in_seqs)
            with (sum_list (length <$> take j (tap_array op)) + q) by lia.
          by apply lookup_app_l_Some. }
        rewrite step_value_app by lia.
        apply read_tap_Ok in Hread
          as (p & s' & b & Hp & Hs' & _ & Hb & Hget).
        rewrite Hs in Hs'. injection Hs' as <-.
        destruct Hpos1 as [_ Hpos1].
        destruct (Hpos1 j ltac:(lia)) as (m' & s' & Hm' & Hs' & _ & Hp').
        rewrite Hm in Hm'. injection Hm' as <-.
        rewrite Hs in Hs'. injection Hs' as <-.
        rewrite Hp in Hp'. injection Hp' as ->.
        rewrite Zplus_mod_idemp_l in Hget.
        apply py_getitem_nonneg in Hget;
          [|apply Z.mod_pos_bound; lia].
        destruct Hinv1 as [[? _]|(b' & Hb' & _ & Hring)]; [lia|].
        rewrite Hb in Hb'. injection Hb' as <-.
        rewrite <- Hring by lia. rewrite <- Hget. do 3 f_equal. lia.
    + split_and!; [done|by apply init_pos_ok| |].
      * eapply ring_init; eauto; intros; lia.
      * intros k c Hk. done.
Qed.
End TapReads.

(** ** The returned buffers *)

Section Linearize.
Context {V : Type}.
Variable zeros_like : V -> V.
Variable is_zero : V -> bool.
Variable same_tail : list V -> list V -> bool.
Variable fits : list V -> V -> bool.
Variable fn : list V -> option (list V).
Variable op : Scan.
Variable a : Args V.
Variable outs : list (option (list V)).
Variable shared : list (option V).

Local Abbreviation exec :=
  (execute zeros_like is_zero same_tail fits fn op a outs shared).

(** C3: for a tracked output [idx] after the MIT-MOT block whose
    [store_steps] exceeds [executed_steps - min_tap], the returned buffer
    is the buffer [b] the loop left with every entry from index
    [executed_steps - min_tap] on set to zero and the entries before it
    kept, and, when fewer than [n_steps] steps were executed, without
    its last [n_steps - executed_steps] entries.  The entries kept are
    the initial state and the values of the executed steps in order:
    entry [q] is the value of step [q + min_tap]. *)
Theorem execute_pads_unfilled bufs sh calls idx m s :
  execute zeros_like is_zero same_tail fits fn op a outs shared
  = Returned bufs sh calls ->
  n_mit_mot op <= idx < n_tracked op ->
  mintaps op !! idx = Some m -> store_steps a !! idx = Some s ->
  (m <= 0)%Z ->
  (s > Z.of_nat (length calls) - m)%Z ->
  let i := length calls in
  let n := Z.abs (n_steps_arg a) in
  let k := Z.to_nat (Z.of_nat i - m) in
  exists b r,
    bufs !! idx = Some (Some r)
    /\ (idx < n_outs op \/ 0 < i -> Z.of_nat (length b) = s)
    /\ length r = (if (Z.of_nat i <? n)%Z
                   then length b - Z.to_nat (n - Z.of_nat i)
                   else length b)
    /\ (forall q, q < length r ->
          r !! q = if decide (q < k) then b !! q
                   else zeros_like <$> b !! q)
    /\ forall seed,
         (idx < n_outs op -> init_args a !! idx = Some seed) ->
         (n_outs op <= idx -> m = 0%Z) ->
         forall q, q < k -> q < length r ->
           r !! q = step_value calls seed m (sot_out_index op idx)
                      (Z.of_nat q + m).
Proof.
  intros H Hidx Hm Hs Hm0 Hgt i n k. apply execute_Returned in H.
  destruct H as [seqs pos0 bufs0 st _ Hpos0 Hbufs0 Hloop Hrec _ -> Hi Hpos
                   Hbufs].
  destruct (reconcile_at _ _ _ _ _ _ _ Hrec Hidx)
    as (c & c' & Hc & Hone & Hc').
  unfold reconcile_one in Hone. rewrite Hm, Hs in Hone. simpl in Hone.
  destruct Hpos as [_ Hpos].
  destruct (Hpos idx ltac:(lia)) as (m' & s' & Hm' & Hs' & _ & Hp).
  rewrite Hp in Hone. simpl in Hone. rewrite Hi in Hone. fold i in Hone.
  destruct (Z.ltb_spec s (Z.of_nat i - m)); [subst i; lia|].
  simpl in Hone.
  destruct (Z.gtb_spec s (Z.of_nat i - m)); [|subst i; lia].
  apply bind_Ok in Hone as (b & Hb & Hone). apply from_opt_Ok in Hb.
  injection Hone as <-. subst c.
  pose proof (pad_and_trim_spec zeros_like n i m b ltac:(lia)) as [Hl Hr].
  exists b, (pad_and_trim zeros_like n i m b). split; [done|].
  split_and!; [|exact Hl|exact Hr|].
  - intros Hcase. eapply Hbufs; [exact Hc|exact Hs|].
    destruct Hcase as [?|?]; [by left|right]. rewrite Hi.
    fold i. split_and!; [done|lia|subst i; lia].
  - intros seed Hseed Hnit q Hqk Hq.
    rewrite Hr by done. rewrite decide_True by done.
    assert (Hinv : chan_inv op idx m s seed st).
    { eapply loop_ring; eauto; subst i; lia. }
    destruct Hinv as [[Hn Hz]|(b' & Hb' & _ & Hring)].
    { rewrite Hi in Hz. pose proof (Hnit Hn) as Hmz.
      subst k i. lia. }
    rewrite Hc in Hb'. injection Hb' as <-.
    rewrite <- Hring by (rewrite ?Hi; subst k i; lia).
    f_equal. replace (- m + (Z.of_nat q + m))%Z with (Z.of_nat q) by lia.
    rewrite Z.mod_small by (subst k i; lia). by rewrite Nat2Z.id.
Qed.

End Linearize.
Module ReconcileFacts.
Import Examples.


(** The counter loop with [n_steps = 10] stops after 4 iterations; its
    buffer of 11 entries is cut to the 5 entries written. *)
Lemma execute_pads_unfilled_witness :
  exists b r : list Z,
    [Some [0; 1; 2; 3; 4]%Z] !! 0 = Some (Some r)
    /\ Z.of_nat (length b) = 11%Z
    /\ length r = length b - 6
    /\ r !! 4 = Some 4%Z.
Proof.
  destruct (execute_pads_unfilled (fun _ => 0%Z) (Z.eqb 0) (fun _ _ => true)
              (fun _ _ => true) count_fn count_op (count_args 10) [None] []
              [Some [0; 1; 2; 3; 4]%Z] []
              [{| c_in := [0%Z]; c_out := [1; 0]%Z |};
               {| c_in := [1%Z]; c_out := [2; 0]%Z |};
               {| c_in := [2%Z]; c_out := [3; 0]%Z |};
               {| c_in := [3%Z]; c_out := [4; 1]%Z |}] 0 (-1)%Z 11%Z)
    as (b & r & Hb & Hlen & Hl & _ & Hv).
  - vm_compute. reflexivity.
  - vm_compute. lia.
  - reflexivity.
  - reflexivity.
  - lia.
  - simpl. lia.
  - exists b, r. split_and!; [exact Hb|apply Hlen; left; vm_compute; lia
                             |exact Hl|].
    injection Hb as <-.
    apply (Hv (replicate 11 0%Z)); [reflexivity|vm_compute; lia
                                   |simpl; lia|simpl; lia].
Defined.


End ReconcileFacts.

Module TapFacts.
Import Examples.

(** C1 (as stated) fails on a MIT-MOT output: the output of [carry_op]
    has the taps 0 and 1; at iteration 0 the tap 0 reads the entry 1 of
    the initial state, while the value written at step [0 + 0] is 2. *)
Lemma mit_mot_tap_reads_initial_state :
  exists bufs sh c0 c1 c2,
    run carry_fn carry_op carry_args [None] []
    = Returned bufs sh [c0; c1; c2]
    /\ tap_array carry_op !! 0 = Some [0; 1]%Z
    /\ c_in c0 !! (tap_offset carry_op 0 + 0) = Some 1%Z
    /\ c_out c0 = [2%Z]
    /\ step_value [c0; c1; c2] [1; 1; 1; 1]%Z 0 0 (0 + 0) = Some 2%Z
    /\ c_in c0 !! (tap_offset carry_op 0 + 0)
       <> step_value [c0; c1; c2] [1; 1; 1; 1]%Z 0 0 (0 + 0).
Proof.
  eexists _, _, _, _, _. split_and!; [reflexivity..|discriminate].
Qed.

(** The Fibonacci loop: iteration 2 reads for the tap -2 the value
    written at step 0. *)
Lemma execute_tap_reads_witness :
  exists x,
    c_in {| c_in := [2; 3]%Z; c_out := [5%Z] |}
      !! (tap_offset fib_op 0 + 0) = Some x
    /\ step_value
         [{| c_in := [1; 1]%Z; c_out := [2%Z] |};
          {| c_in := [1; 2]%Z; c_out := [3%Z] |};
          {| c_in := [2; 3]%Z; c_out := [5%Z] |}]
         [1; 1; 0; 0; 0]%Z (np_min [-2; -1]%Z) (sot_out_index fib_op 0)
         (Z.of_nat 2 + -2) = Some x.
Proof.
  refine (proj2 (proj2 (execute_tap_reads (fun _ => 0%Z) (Z.eqb 0)
                          (fun _ _ => true) (fun _ _ => true) fib_fn fib_op
                          fib_args [None] [] [Some [1; 1; 2; 3; 5]%Z] []
                          _ 0 [-2; -1]%Z [1; 1; 0; 0; 0]%Z _ _ _ _ _ _))
            2 _ 0 (-2)%Z _ _).
  - vm_compute. reflexivity.
  - vm_compute. lia.
  - reflexivity.
  - intros t Ht. apply elem_of_cons in Ht as [->|Ht]; [lia|].
    apply list_elem_of_singleton in Ht as ->. lia.
  - reflexivity.
  - vm_compute. discriminate.
  - reflexivity.
  - reflexivity.
Defined.
End TapFacts.

(** ** The inputs of the inner function *)

Lemma length_concat_sum {A} (ll : list (list A)) :
  length (concat ll) = sum_list (length <$> ll).
Proof.
  induction ll as [|l ll IH]; simpl; [done|]. by rewrite length_app, IH.
Qed.

Section Inputs.
Context {V : Type}.
Variable op : Scan.
Variable a : Args V.

Lemma gather_taps_length ss pos (bufs : list (option (list V))) in_taps :
  gather_taps op ss pos bufs = Ok in_taps ->
  n_seqs op + length in_taps = shared_offset op.
Proof.
  unfold gather_taps, shared_offset, tap_offset. intros H.
  apply bind_Ok in H as (ll & Hll & H). injection H as <-.
  rewrite length_concat_sum. do 2 f_equal.
  pose proof (res_mapM_length _ _ _ Hll) as Hlen.
  unfold xrange in Hlen. rewrite length_seq, Nat.sub_0_r in Hlen.
  apply list_eq. intros k. rewrite !list_lookup_fmap.
  destruct (decide (k < n_outs op)) as [Hk|Hk].
  - rewrite lookup_take_lt by done.
    destruct (res_mapM_lookup _ _ _ k k Hll) as (lk & Hlk & Hfk).
    { by apply lookup_xrange_0. }
    apply bind_Ok in Hfk as (tk & Htk & Hfk). apply from_opt_Ok in Htk.
    rewrite Hlk, Htk. simpl. f_equal. by eapply res_mapM_length.
  - rewrite lookup_take_ge by lia.
    rewrite (lookup_ge_None_2 ll) by lia. done.
Qed.

Lemma gather_shared_lookup i (shared : list (option V)) in_shared j :
  gather_shared op a i shared = Ok in_shared -> j < n_shared_outs op ->
  exists v, in_shared !! j = Some v
            /\ if (i =? 0)%nat then shared_args a !! j = Some v
               else shared !! j = Some (Some v).
Proof.
  unfold gather_shared. intros H Hj.
  destruct (i =? 0)%nat.
  - destruct (res_mapM_lookup _ _ _ j j H) as (v & Hv & Hf).
    { by apply lookup_xrange_0. }
    apply from_opt_Ok in Hf. eauto.
  - destruct (res_mapM_lookup _ _ _ j j H) as (v & Hv & Hf).
    { by apply lookup_xrange_0. }
    apply bind_Ok in Hf as (c & Hc & Hf).
    apply from_opt_Ok in Hc, Hf. subst c. eauto.
Qed.

Lemma gather_shared_length i (shared : list (option V)) in_shared :
  gather_shared op a i shared = Ok in_shared ->
  length in_shared = n_shared_outs op.
Proof.
  unfold gather_shared. intros H.
  destruct (i =? 0)%nat; apply res_mapM_length in H;
    unfold xrange in H; rewrite length_seq in H; lia.
Qed.

Lemma write_shared_cell_update (out : list V) off :
  cell_update (write_shared op out off)
    (fun jj _ c' =>
       exists v, out !! (off + (n_tracked op + jj) - n_mit_mot op) = Some v
                 /\ c' = Some v).
Proof.
  intros j cells cells' H. unfold write_shared in H.
  apply bind_Ok in H as (v & Hv & H). apply from_opt_Ok in Hv.
  destruct (update_cell_cell_update (fun _ (_ : option V) => Ok (Some v))
              j cells cells' H) as (c & c' & Hc & Hf & ->).
  injection Hf as <-. eauto 10.
Qed.
End Inputs.

Section Shared.
Context {V : Type}.
Variable zeros_like : V -> V.
Variable is_zero : V -> bool.
Variable same_tail : list V -> list V -> bool.
Variable fits : list V -> V -> bool.
Variable fn : list V -> option (list V).
Variable op : Scan.
Variable a : Args V.
Variable outs : list (option (list V)).
Variable shared : list (option V).

Lemma step_shared_inv seqs ss st st' :
  shared_inv op a shared st ->
  step zeros_like is_zero fits fn op a seqs ss st = Ok st' ->
  shared_inv op a shared st'.
Proof.
  intros (Hi & Hnil & Hlast & Hin) Hstep. apply step_Ok in Hstep.
  destruct Hstep as [in_seqs in_taps in_shared out bufs1 off bufs2
                       Hgs Hgt Hgsh _ _ Hmm _ _ Hsh _ Hi' Hcalls].
  destruct (scatter_mit_mot_spec _ _ _ _ _ _ Hmm) as (_ & _ & ->).
  pose proof (gather_seqs_length _ _ _ _ Hgs) as Hls.
  pose proof (gather_taps_length _ _ _ _ _ Hgt) as Hlt.
  split_and!.
  - rewrite Hcalls, length_app, Hi', Hi. simpl. lia.
  - rewrite Hcalls. intros E. by destruct (ls_calls st).
  - intros calls' c j. rewrite Hcalls. intros E Hj.
    apply app_inj_tail in E as [_ <-]. simpl.
    assert (Hjin : j ∈ xrange 0 (n_shared_outs op))
      by (apply elem_of_xrange; lia).
    destruct (for_each_cells_at _ _ (write_shared_cell_update op out _)
                _ _ _ j (NoDup_xrange _ _) Hjin Hsh)
      as (c0 & c' & _ & (v & Hv & ->) & Hc').
    exists v. split; [exact Hv|exact Hc'].
  - intros i c j. rewrite Hcalls. intros Hc Hj.
    apply lookup_app_Some in Hc as [Hc|[Hlen Hc]].
    + destruct (Hin i c j Hc Hj) as (v & Hv & H0 & HS).
      exists v. split_and!; [done..|].
      intros i' ->. destruct (HS i' eq_refl) as (c' & Hc' & Hv').
      exists c'. split; [|done]. by apply lookup_app_l_Some.
    + apply list_lookup_singleton_Some in Hc as [Hc <-]. simpl.
      assert (i = ls_i st) as -> by lia.
      destruct (gather_shared_lookup _ _ _ _ _ j Hgsh Hj)
        as (v & Hv & Hsrc).
      exists v. split_and!.
      * rewrite app_assoc, lookup_app_r by (rewrite length_app; lia).
        rewrite length_app.
        replace (shared_offset op + j - (length in_seqs + length in_taps))
          with j by lia.
        by apply lookup_app_l_Some.
      * intros E. rewrite E in Hsrc. exact Hsrc.
      * intros i' E. rewrite E in Hsrc. simpl in Hsrc.
        destruct (ls_calls st) as [|c0 l0] eqn:Ec using rev_ind;
          [simpl in Hi; lia|]. clear IHl0.
        rewrite length_app in Hi. simpl in Hi.
        destruct (Hlast l0 c0 j eq_refl Hj) as (v' & Hv' & Hsv).
        rewrite Hsrc in Hsv. injection Hsv as <-.
        exists c0. split; [|done]. apply lookup_app_l_Some.
        rewrite lookup_app_r by lia.
        replace (i' - length l0) with 0 by lia. done.
Qed.

(** X1: the shared outputs are threaded through the iterations.  In a
    call that returns, the inner function receives the shared variable
    [j] as input [shared_offset + j], after the sequences and all the
    taps; at the first iteration this is the argument of the call, at
    every later iteration it is what the iteration before returned for
    that shared output.  The cell of the shared output that is returned
    holds what the last iteration returned for it, and the cells are the
    caller's when no iteration ran. *)
Theorem execute_shared_threading bufs sh calls :
  execute zeros_like is_zero same_tail fits fn op a outs shared
  = Returned bufs sh calls ->
  (forall i c j, calls !! i = Some c -> j < n_shared_outs op ->
     exists v, c_in c !! (shared_offset op + j) = Some v
       /\ (i = 0 -> shared_args a !! j = Some v)
       /\ (forall i', i = S i' ->
             exists c', calls !! i' = Some c'
                        /\ c_out c' !! shared_out_index op j = Some v))
  /\ (forall calls' c j, calls = calls' ++ [c] -> j < n_shared_outs op ->
        exists v, c_out c !! shared_out_index op j = Some v
                  /\ sh !! j = Some (Some v))
  /\ (calls = [] -> sh = shared).
Proof.
  intros H. apply execute_Returned in H.
  destruct H as [seqs pos0 bufs0 st _ _ _ Hloop _ -> -> _ _ _].
  assert (Hinv : shared_inv op a shared st).
  { revert Hloop.
    apply (main_loop_inv zeros_like is_zero fits fn op a seqs
             (store_steps a) (shared_inv op a shared)).
    - intros s s' Hs _ Hstep. eapply step_shared_inv; eauto.
    - split_and!; simpl; [done|done| |].
      + intros calls' c j E. by destruct calls'.
      + intros i c j. by rewrite lookup_nil. }
  destruct Hinv as (_ & Hnil & Hlast & Hin). auto.
Qed.

(** X2: the non-sequence arguments reach the inner function unchanged at
    every iteration, as its last inputs: the inputs of a call are the
    [shared_offset] slices of the sequences and of the taps, the
    [n_shared_outs] shared variables and then the non-sequences. *)
Theorem execute_non_sequences bufs sh calls i c :
  execute zeros_like is_zero same_tail fits fn op a outs shared
  = Returned bufs sh calls ->
  calls !! i = Some c ->
  length (c_in c)
  = shared_offset op + n_shared_outs op + length (other_args a)
  /\ drop (shared_offset op + n_shared_outs op) (c_in c) = other_args a.
Proof.
  intros H Hc. apply execute_Returned in H.
  destruct H as [seqs pos0 bufs0 st _ _ _ Hloop _ _ -> _ _ _].
  revert i c Hc.
  apply (main_loop_calls zeros_like is_zero fits fn op a seqs
           (store_steps a)
           (fun _ c =>
              length (c_in c)
              = shared_offset op + n_shared_outs op + length (other_args a)
              /\ drop (shared_offset op + n_shared_outs op) (c_in c)
                 = other_args a)) with (4 := Hloop); [|done|].
  - intros s s' c _ Hstep Hcalls. apply step_Ok in Hstep.
    destruct Hstep as [in_seqs in_taps in_shared out bufs1 off bufs2
                         Hgs Hgt Hgsh _ _ _ _ _ _ _ _ Hcalls'].
    rewrite Hcalls' in Hcalls. apply app_inv_head in Hcalls.
    injection Hcalls as <-. simpl.
    pose proof (gather_seqs_length _ _ _ _ Hgs) as Hls.
    pose proof (gather_taps_length _ _ _ _ _ Hgt) as Hlt.
    pose proof (gather_shared_length _ _ _ _ _ Hgsh) as Hlsh.
    split.
    + rewrite !length_app. lia.
    + rewrite !app_assoc. apply drop_app_length'.
      rewrite !length_app. lia.
  - simpl. intros k c. by rewrite lookup_nil.
Qed.
End Shared.

(** ** The storage of the outputs *)

Section Storage.
Context {V : Type}.
Variable zeros_like : V -> V.
Variable is_zero : V -> bool.
Variable same_tail : list V -> list V -> bool.
Variable fits : list V -> V -> bool.
Variable fn : list V -> option (list V).
Variable op : Scan.
Variable a : Args V.
Variable outs : list (option (list V)).
Variable shared : list (option V).

Lemma set_slot_keeps j k v (bufs bufs' : list (option (list V))) idx b :
  set_slot j k v bufs = Ok bufs' -> bufs !! idx = Some (Some b) ->
  exists b', bufs' !! idx = Some (Some b').
Proof.
  intros H Hb. apply set_slot_Ok in H as (b0 & b' & Hb0 & _ & ->).
  destruct (decide (idx = j)) as [->|Hne].
  - exists b'. apply list_lookup_insert_eq. by eapply lookup_lt_Some.
  - exists b. by rewrite list_lookup_insert_ne.
Qed.

Lemma scatter_mit_mot_keeps pos out (bufs bufs' : list (option (list V)))
    off idx b :
  scatter_mit_mot op pos out bufs = Ok (bufs', off) ->
  bufs !! idx = Some (Some b) ->
  exists b', bufs' !! idx = Some (Some b').
Proof.
  unfold scatter_mit_mot. intros H Hb.
  apply (for_each_inv
           (fun t : list (option (list V)) * nat =>
              exists b', t.1 !! idx = Some (Some b'))) in H; [exact H| |by eauto].
  intros j t t' _ Ht Hbody.
  apply bind_Ok in Hbody as (ks & _ & Hbody).
  apply (for_each_inv
           (fun t : list (option (list V)) * nat =>
              exists b', t.1 !! idx = Some (Some b'))) in Hbody;
    [exact Hbody| |exact Ht].
  clear. intros k [bufs off] t' _ (b & Hb) Hw. unfold write_slice in Hw.
  apply bind_Ok in Hw as (v & _ & Hw).
  apply bind_Ok in Hw as (p & _ & Hw).
  apply bind_Ok in Hw as (bufs1 & Hset & Hw). injection Hw as <-. simpl in *.
  eapply set_slot_keeps; eauto.
Qed.

Lemma init_cells_some bufs0 :
  init_bufs same_tail op a (store_steps a) outs = Ok bufs0 ->
  cells_some op 0 bufs0.
Proof.
  intros H idx [Hidx|[? _]]; [|lia].
  destruct (init_bufs_at _ _ _ _ _ _ H Hidx) as (? & ? & ? & _ & _ & Hb).
  eauto.
Qed.

Lemma step_cells_some seqs ss st st' :
  cells_some op (ls_i st) (ls_bufs st) ->
  step zeros_like is_zero fits fn op a seqs ss st = Ok st' ->
  cells_some op (ls_i st') (ls_bufs st').
Proof.
  intros Hok H. apply step_Ok in H.
  destruct H as [in_seqs in_taps in_shared out bufs1 off bufs2
                   _ _ _ _ _ Hmm Hsot Hnit _ _ Hi _].
  destruct (scatter_mit_mot_spec _ _ _ _ _ _ Hmm) as (_ & Hoth & _).
  intros idx Hidx.
  destruct (decide (idx < n_outs op)) as [Hlt|Hge].
  - rewrite (for_each_cells_other _ _
               (write_nit_sot_cell_update _ _ _ _ _ _ _ _) _ _ _ idx Hnit)
      by (rewrite elem_of_xrange; lia).
    destruct (decide (idx < n_mit_mot op)) as [Hmmi|Hsoti].
    + rewrite (for_each_cells_other _ _ (write_cur_cell_update _ _ _ _)
                 _ _ _ idx Hsot)
        by (rewrite elem_of_xrange; lia).
      destruct (Hok idx (or_introl Hlt)) as (b & Hb).
      eapply scatter_mit_mot_keeps; eauto.
    + assert (Hin : idx ∈ xrange (n_mit_mot op) (n_outs op))
        by (apply elem_of_xrange; lia).
      destruct (for_each_cells_at _ _ (write_cur_cell_update _ _ _ _)
                  _ _ _ idx (NoDup_xrange _ _) Hin Hsot)
        as (c & c' & _ & (? & b' & ? & ? & _ & _ & _ & _ & ->) & Hc').
      eauto.
  - destruct Hidx as [?|[_ Hlt]]; [lia|].
    assert (Hin : idx ∈ xrange (n_outs op) (n_tracked op))
      by (apply elem_of_xrange; lia).
    destruct (for_each_cells_at _ _
                (write_nit_sot_cell_update _ _ _ _ _ _ _ _)
                _ _ _ idx (NoDup_xrange _ _) Hin Hnit)
      as (c & c' & _ & (? & b' & ? & ? & _ & _ & _ & _ & ->) & Hc').
    eauto.
Qed.

Lemma loop_cells_some seqs pos0 bufs0 fuel st :
  init_bufs same_tail op a (store_steps a) outs = Ok bufs0 ->
  main_loop zeros_like is_zero fits fn op a seqs (store_steps a) fuel
    {| ls_i := 0; ls_cond := true; ls_pos := pos0; ls_bufs := bufs0;
       ls_shared := shared; ls_calls := [] |} = inl st ->
  cells_some op (ls_i st) (ls_bufs st).
Proof.
  intros Hb. 
  apply (main_loop_inv zeros_like is_zero fits fn op a seqs (store_steps a)
           (fun st => cells_some op (ls_i st) (ls_bufs st))).
  - intros s s' Hs _ Hstep. eapply step_cells_some; eauto.
  - by apply init_cells_some.
Qed.

Lemma length_zero_from (b : list V) k :
  length (zero_from zeros_like b k) = length b.
Proof.
  unfold zero_from, slice_to, slice_from.
  rewrite length_app, length_fmap, length_take, length_drop.
  pose proof (py_clip_le (length b) k). lia.
Qed.

(** X3: without a termination condition every output is returned with
    its [store_steps] entries, whichever branch of the re-ordering it
    took: an output with an initial state has the length of that state,
    and a NIT-SOT output with a positive trip count has that many entries
    once an iteration ran.  These are the leading dimensions that
    [infer_shape] announces for such a loop. *)
Theorem execute_for_lengths bufs sh calls idx s :
  execute zeros_like is_zero same_tail fits fn op a outs shared
  = Returned bufs sh calls ->
  as_while op = false ->
  store_steps a !! idx = Some s ->
  idx < n_outs op \/ (idx < n_tracked op /\ 0 < length calls /\ (0 < s)%Z) ->
  exists r, bufs !! idx = Some (Some r) /\ Z.of_nat (length r) = s.
Proof.
  intros H Hfor Hs Hidx. apply execute_Returned in H.
  destruct H as [seqs pos0 bufs0 st _ Hpos0 Hbufs0 Hloop Hrec _ -> Hi Hpos
                   Hbufs].
  pose proof (loop_cells_some _ _ _ _ _ Hbufs0 Hloop) as Hsome.
  assert (Hn : Z.of_nat (ls_i st) = Z.abs (n_steps_arg a)).
  { assert (Hc : ls_cond st = true)
      by (eapply main_loop_cond_for; [exact Hfor| |exact Hloop]; done).
    destruct (main_loop_count _ _ _ _ _ _ _ _ _ _ _ Hloop) as (_ & Hcnt & _).
    rewrite (Hcnt Hc). simpl. lia. }
  assert (Hidx' : idx < n_outs op
                  \/ (0 < ls_i st /\ idx < n_tracked op /\ (0 <= s)%Z))
    by (rewrite Hi; destruct Hidx as [?|(? & ? & ?)]; [by left|right]; lia).
  destruct (Hsome idx) as (b & Hb).
  { destruct Hidx' as [?|(? & ? & _)]; [by left|by right]. }
  pose proof (Hbufs idx s b Hb Hs Hidx') as Hlen.
  destruct (decide (idx < n_mit_mot op)) as [Hmm|Hmm].
  { exists b. split; [|done].
    by rewrite (reconcile_other _ _ _ _ _ _ _ Hrec) by (by left). }
  assert (Hin : n_mit_mot op <= idx < n_tracked op).
  { split; [lia|]. destruct Hidx as [?|(? & _)]; [|done].
    unfold n_tracked. lia. }
  destruct (reconcile_at _ _ _ _ _ _ _ Hrec Hin)
    as (c & c' & Hc & Hone & Hc').
  rewrite Hb in Hc. injection Hc as <-.
  destruct Hpos as [_ Hpos].
  destruct (Hpos idx (proj2 Hin)) as (m & s' & Hm & Hs' & Hs0 & Hp).
  rewrite Hs in Hs'. injection Hs' as <-.
  unfold reconcile_one in Hone. rewrite Hm, Hs, Hp in Hone. simpl in Hone.
  assert (Hspos : (0 < s)%Z) by lia.
  pose proof (Z.mod_pos_bound (- m + Z.of_nat (ls_i st)) s Hspos) as Hpb.
  destruct (_ && _).
  - injection Hone as <-. eexists. split; [exact Hc'|].
    by rewrite length_reorder.
  - destruct (_ >? _)%Z.
    + injection Hone as <-. eexists. split; [exact Hc'|].
      unfold pad_and_trim.
      destruct (Z.ltb_spec (Z.of_nat (ls_i st)) (Z.abs (n_steps_arg a)));
        [lia|].
      by rewrite length_zero_from.
    + injection Hone as <-. eauto.
Qed.

(** X4: the third branch of the re-ordering.  A tracked output after
    the MIT-MOT block whose [store_steps] equals
    [executed_steps - min_tap] is returned as the loop left it, and that
    buffer is in time order: entry [q] is the value of step
    [q + min_tap], the initial state first and then one entry for every
    iteration. *)
Theorem execute_exact_fit bufs sh calls idx m s seed :
  execute zeros_like is_zero same_tail fits fn op a outs shared
  = Returned bufs sh calls ->
  n_mit_mot op <= idx < n_tracked op ->
  mintaps op !! idx = Some m -> store_steps a !! idx = Some s ->
  (m <= 0)%Z -> (0 < s)%Z ->
  (s = Z.of_nat (length calls) - m)%Z ->
  (idx < n_outs op -> init_args a !! idx = Some seed) ->
  (n_outs op <= idx -> m = 0%Z) ->
  exists r,
    bufs !! idx = Some (Some r)
    /\ Z.of_nat (length r) = s
    /\ forall q, q < length r ->
         r !! q = step_value calls seed m (sot_out_index op idx)
                    (Z.of_nat q + m).
Proof.
  intros H Hidx Hm Hs Hm0 Hs0 Hfit Hseed Hnit. apply execute_Returned in H.
  destruct H as [seqs pos0 bufs0 st _ Hpos0 Hbufs0 Hloop Hrec _ -> Hi Hpos
                   Hbufs].
  assert (Hinv : chan_inv op idx m s seed st).
  { eapply loop_ring; eauto. lia. }
  destruct Hinv as [[Hn Hz]|(b & Hb & Hlen & Hring)].
  { rewrite Hi in Hz. pose proof (Hnit Hn). lia. }
  destruct (reconcile_at _ _ _ _ _ _ _ Hrec Hidx)
    as (c & c' & Hc & Hone & Hc').
  rewrite Hb in Hc. injection Hc as <-.
  destruct Hpos as [_ Hpos].
  destruct (Hpos idx (proj2 Hidx)) as (m' & s' & Hm' & Hs' & _ & Hp).
  unfold reconcile_one in Hone. rewrite Hm, Hs, Hp in Hone. simpl in Hone.
  rewrite Hi in Hone.
  destruct (Z.ltb_spec s (Z.of_nat (length (ls_calls st)) - m)); [lia|].
  simpl in Hone.
  destruct (Z.gtb_spec s (Z.of_nat (length (ls_calls st)) - m)); [lia|].
  injection Hone as <-.
  exists b. split_and!; [done..|].
  intros q Hq. rewrite <- Hring by lia. f_equal.
  replace (- m + (Z.of_nat q + m))%Z with (Z.of_nat q) by lia.
  rewrite Z.mod_small by lia. by rewrite Nat2Z.id.
Qed.

(** X5: a call with [n_steps = 0] runs no iteration and leaves the cells
    of the shared outputs alone.  A NIT-SOT output with a positive trip
    count is then returned as the storage the caller passed, every entry
    set to zero; the call does not return without such storage. *)
Theorem execute_zero_steps bufs sh calls :
  n_steps_arg a = 0%Z ->
  execute zeros_like is_zero same_tail fits fn op a outs shared
  = Returned bufs sh calls ->
  calls = [] /\ sh = shared
  /\ forall idx s,
       n_outs op <= idx < n_tracked op ->
       length (tap_array op) = n_outs op ->
       store_steps a !! idx = Some s -> (0 < s)%Z ->
       exists o, outs !! idx = Some (Some o)
                 /\ bufs !! idx = Some (Some (zeros_like <$> o)).
Proof.
  intros Hn H. apply execute_Returned in H.
  destruct H as [seqs pos0 bufs0 st _ Hpos0 Hbufs0 Hloop Hrec -> -> Hi Hpos
                   Hbufs].
  rewrite Hn in Hloop, Hrec. simpl in Hloop. injection Hloop as <-.
  simpl in *. split_and!; [done..|].
  intros idx s Hidx Hlen Hs Hs0.
  assert (Hin : n_mit_mot op <= idx < n_tracked op)
    by (unfold n_outs in Hidx; lia).
  destruct (reconcile_at _ _ _ _ _ _ _ Hrec Hin)
    as (c & c' & Hc & Hone & Hc'). simpl in Hc, Hone.
  unfold init_bufs in Hbufs0.
  rewrite (for_each_cells_other _ _ (init_bufs_cell_update _ _ _)
             _ _ _ idx Hbufs0) in Hc
    by (rewrite elem_of_xrange; lia).
  assert (Hm : mintaps op !! idx = Some 0%Z).
  { unfold mintaps. rewrite lookup_app_r by (rewrite length_fmap; lia).
    rewrite length_fmap, Hlen. apply lookup_replicate_2.
    unfold n_tracked in Hidx. lia. }
  destruct Hpos as [_ Hpos].
  destruct (Hpos idx (proj2 Hidx)) as (m' & s' & Hm' & Hs' & _ & Hp).
  unfold reconcile_one in Hone. rewrite Hm, Hs, Hp in Hone. simpl in Hone.
  change (Z.of_nat 0 - 0)%Z with 0%Z in Hone.
  destruct (Z.ltb_spec s 0); [lia|]. simpl in Hone.
  destruct (Z.gtb_spec s 0); [|lia].
  apply bind_Ok in Hone as (o & Ho & Hone). apply from_opt_Ok in Ho.
  injection Hone as <-. subst c. exists o. split; [done|].
  rewrite Hc'. do 2 f_equal.
  unfold pad_and_trim, zero_from, slice_to, slice_from. simpl.
  rewrite py_clip_in by lia. simpl. by rewrite drop_0.
Qed.
End Storage.

Module RunFacts.
Import Examples Runs.

(** The accumulator loop: the second call reads the 5 that the first one
    returned, and the cell returned holds the 15 of the last call. *)
Lemma execute_shared_threading_witness :
  run acc_fn acc_op acc_args [] [None] = Returned [] [Some 15%Z] acc_calls
  /\ (exists v, c_in {| c_in := [5; 5]%Z; c_out := [10%Z] |}
                  !! (shared_offset acc_op + 0) = Some v
                /\ exists c', acc_calls !! 0 = Some c'
                     /\ c_out c' !! shared_out_index acc_op 0 = Some v)
  /\ exists v, c_out {| c_in := [10; 5]%Z; c_out := [15%Z] |}
                 !! shared_out_index acc_op 0 = Some v
               /\ [Some 15%Z] !! 0 = Some (Some v).
Proof.
  assert (H : run acc_fn acc_op acc_args [] [None]
              = Returned [] [Some 15%Z] acc_calls) by (vm_compute; reflexivity).
  split; [exact H|].
  destruct (execute_shared_threading (fun _ => 0%Z) (Z.eqb 0)
              (fun _ _ => true) (fun _ _ => true) acc_fn acc_op acc_args
              [] [None] [] [Some 15%Z] acc_calls H) as (Hin & Hlast & _).
  split.
  - destruct (Hin 1 {| c_in := [5; 5]%Z; c_out := [10%Z] |} 0)
      as (v & Hv & _ & HS); [reflexivity|simpl; lia|].
    exists v. split; [exact Hv|]. exact (HS 0 eq_refl).
  - apply (Hlast [{| c_in := [0; 5]%Z; c_out := [5%Z] |};
                  {| c_in := [5; 5]%Z; c_out := [10%Z] |}]);
      [reflexivity|simpl; lia].
Defined.

(** The accumulator loop: the non-sequence 5 is the last input of the
    second call. *)
Lemma execute_non_sequences_witness :
  length (c_in {| c_in := [5; 5]%Z; c_out := [10%Z] |})
  = shared_offset acc_op + n_shared_outs acc_op
    + length (other_args acc_args)
  /\ drop (shared_offset acc_op + n_shared_outs acc_op)
       (c_in {| c_in := [5; 5]%Z; c_out := [10%Z] |})
     = other_args acc_args.
Proof.
  apply (execute_non_sequences (fun _ => 0%Z) (Z.eqb 0)
           (fun _ _ => true) (fun _ _ => true) acc_fn acc_op acc_args
           [] [None] [] [Some 15%Z] acc_calls 1).
  - vm_compute. reflexivity.
  - reflexivity.
Defined.

(** The Fibonacci loop: three steps into the five entries of the initial
    state. *)
Lemma execute_for_lengths_witness :
  exists r : list Z,
    [Some [1; 1; 2; 3; 5]%Z] !! 0 = Some (Some r)
    /\ Z.of_nat (length r) = 5%Z.
Proof.
  apply (execute_for_lengths (fun _ => 0%Z) (Z.eqb 0)
           (fun _ _ => true) (fun _ _ => true) fib_fn fib_op fib_args
           [None] [] [Some [1; 1; 2; 3; 5]%Z] [] fib_calls 0 5%Z).
  - vm_compute. reflexivity.
  - reflexivity.
  - reflexivity.
  - left. vm_compute. lia.
Defined.

(** The Fibonacci loop fits its buffer exactly: entry 4 is the value of
    step 2. *)
Lemma execute_exact_fit_witness :
  exists r : list Z,
    [Some [1; 1; 2; 3; 5]%Z] !! 0 = Some (Some r)
    /\ Z.of_nat (length r) = 5%Z
    /\ r !! 4 = step_value fib_calls [1; 1; 0; 0; 0]%Z (-2)
                  (sot_out_index fib_op 0) (Z.of_nat 4 + -2).
Proof.
  destruct (execute_exact_fit (fun _ => 0%Z) (Z.eqb 0)
              (fun _ _ => true) (fun _ _ => true) fib_fn fib_op fib_args
              [None] [] [Some [1; 1; 2; 3; 5]%Z] [] fib_calls 0 (-2)%Z 5%Z
              [1; 1; 0; 0; 0]%Z)
    as (r & Hr & Hlen & Hq).
  - vm_compute. reflexivity.
  - vm_compute. lia.
  - reflexivity.
  - reflexivity.
  - lia.
  - lia.
  - reflexivity.
  - reflexivity.
  - vm_compute. lia.
  - exists r. split_and!; [exact Hr|exact Hlen|].
    apply Hq. injection Hr as <-. simpl. lia.
Defined.

(** No step into a NIT-SOT output with the trip count 2: the storage
    [7; 8] of the caller comes back as [0; 0]. *)
Lemma execute_zero_steps_witness :
  [] = ([] : list (call Z)) /\ [] = ([] : list (option Z))
  /\ exists o, [Some [7; 8]%Z] !! 0 = Some (Some o)
               /\ [Some [0; 0]%Z] !! 0 = Some (Some ((fun _ => 0%Z) <$> o)).
Proof.
  destruct (execute_zero_steps (fun _ => 0%Z) (Z.eqb 0)
              (fun _ _ => true) (fun _ _ => true) stack_fn stack_op
              (stack_args 0 2 []) [Some [7; 8]%Z] []
              [Some [0; 0]%Z] [] [])
    as (Hc & Hs & Hn).
  - reflexivity.
  - vm_compute. reflexivity.
  - split_and!; [exact Hc|exact Hs|].
    apply (Hn 0 2%Z); [vm_compute; lia|reflexivity|reflexivity|lia].
Defined.
End RunFacts.

(** ** The accessors *)

Lemma py_slice_drop {A} (l : list A) b e :
  b <= e -> py_slice l b e ++ drop e l = drop b l.
Proof.
  intros H. unfold py_slice.
  replace (drop e l) with (drop (e - b) (drop b l))
    by (rewrite drop_drop; f_equal; lia).
  apply take_drop.
Qed.

Lemma take_py_slice {A} (l : list A) b e :
  b <= e -> take b l ++ py_slice l b e = take e l.
Proof.
  intros H. unfold py_slice.
  replace e with (b + (e - b)) at 2 by lia. apply take_take_drop.
Qed.

Lemma lookup_py_slice {A} (l : list A) b e k :
  k < e - b -> py_slice l b e !! k = l !! (b + k).
Proof.
  intros H. unfold py_slice. by rewrite lookup_take_lt, lookup_drop.
Qed.

Lemma py_slice_middle {A} (l1 l2 l3 : list A) b e :
  b = length l1 -> e = b + length l2 ->
  py_slice (l1 ++ l2 ++ l3) b e = l2.
Proof.
  intros -> ->. unfold py_slice. rewrite drop_app_length.
  replace (length l1 + length l2 - length l1) with (length l2) by lia.
  by rewrite take_app_length.
Qed.

Lemma n_taps_upto_le op n n' : n <= n' -> n_taps_upto op n <= n_taps_upto op n'.
Proof.
  intros H. unfold n_taps_upto.
  replace n' with (n + (n' - n)) by lia.
  rewrite <- take_take_drop, fmap_app, sum_list_with_app. lia.
Qed.

(** The taps of single-tap outputs count one each. *)
Lemma n_taps_upto_single op b k :
  (forall j, b <= j < b + k -> exists t, tap_array op !! j = Some [t]) ->
  n_taps_upto op (b + k) = n_taps_upto op b + k.
Proof.
  unfold n_taps_upto. induction k as [|k IH]; intros H.
  - by rewrite !Nat.add_0_r.
  - destruct (H (b + k) ltac:(lia)) as (t & Ht).
    replace (b + S k) with (S (b + k)) by lia.
    rewrite (take_S_r _ _ _ Ht), fmap_app, sum_list_with_app, IH.
    + simpl. lia.
    + intros j Hj. apply H. lia.
Qed.

Lemma mit_mot_total_slices op :
  length (mit_mot_out_slices op) = n_mit_mot op ->
  mit_mot_total op = n_out_slices op.
Proof.
  unfold mit_mot_total, n_out_slices, xrange. rewrite Nat.sub_0_r.
  intros <-. f_equal. apply list_eq. intros k.
  rewrite !list_lookup_fmap.
  destruct (decide (k < length (mit_mot_out_slices op))) as [Hk|Hk].
  - rewrite lookup_seq_lt by done. simpl.
    destruct (lookup_lt_is_Some_2 _ _ Hk) as (sl & ->). done.
  - rewrite lookup_seq_ge by lia.
    by rewrite lookup_ge_None_2 by lia.
Qed.

Section AccessorFacts.
Context {A : Type}.
Variable op : Scan.

(** X6: the accessors of the inputs cut the lists of variables into
    consecutive blocks that leave nothing out.  The inputs of the inner
    function are the sequences, the taps of the MIT-MOT, MIT-SOT and
    SIT-SOT outputs, the shared variables and the non-sequences, in this
    order; the inputs of the node are the number of steps, the sequences,
    the initial states of the MIT-MOT, MIT-SOT and SIT-SOT outputs, the
    shared variables, the trip counts of the NIT-SOT outputs and the
    non-sequences. *)
Theorem inputs_partition (inputs node_inputs : list A) :
  inner_seqs op inputs ++ inner_mitmot op inputs ++ inner_mitsot op inputs
    ++ inner_sitsot op inputs ++ inner_shared op inputs
    ++ inner_non_seqs op inputs = inputs
  /\ take 1 node_inputs ++ outer_seqs op node_inputs
       ++ outer_mitmot op node_inputs ++ outer_mitsot op node_inputs
       ++ outer_sitsot op node_inputs ++ outer_shared op node_inputs
       ++ outer_nitsot op node_inputs ++ outer_non_seqs op node_inputs
     = node_inputs.
Proof.
  pose proof (n_taps_upto_le op (n_mit_mot op)
                (n_mit_mot op + n_mit_sot op) ltac:(lia)) as Hle.
  split.
  - unfold inner_seqs, inner_mitmot, inner_mitsot, inner_sitsot,
      inner_shared, inner_non_seqs. simpl.
    rewrite (py_slice_drop inputs
               (n_seqs op + n_taps_upto op (n_mit_mot op + n_mit_sot op)
                + n_sit_sot op)) by lia.
    rewrite py_slice_drop by lia.
    rewrite py_slice_drop by lia.
    rewrite py_slice_drop by lia.
    apply take_drop.
  - unfold outer_seqs, outer_mitmot, outer_mitsot, outer_sitsot,
      outer_shared, outer_nitsot, outer_non_seqs. simpl.
    replace (S (n_seqs op + n_mit_mot op + n_mit_sot op + n_sit_sot op
                + n_nit_sot op + n_shared_outs op))
      with (S (n_seqs op + n_mit_mot op + n_mit_sot op + n_sit_sot op
               + n_shared_outs op + n_nit_sot op)) by lia.
    rewrite (py_slice_drop node_inputs
               (S (n_seqs op + n_mit_mot op + n_mit_sot op + n_sit_sot op
                   + n_shared_outs op))) by lia.
    rewrite py_slice_drop by lia.
    rewrite py_slice_drop by lia.
    rewrite py_slice_drop by lia.
    rewrite py_slice_drop by lia.
    rewrite py_slice_drop by lia.
    apply (take_drop 1).
Qed.

(** X7: the accessors of the outputs cut a prefix of the lists of
    variables into consecutive blocks.  The outputs of the node are one
    per MIT-MOT, MIT-SOT, SIT-SOT, NIT-SOT and shared output, in this
    order; the outputs of the inner function are all the output slices of
    the MIT-MOT outputs and then one output per MIT-SOT, SIT-SOT, NIT-SOT
    and shared output (what follows is the termination condition). *)
Theorem outputs_partition (outputs node_outputs : list A) :
  inner_mitmot_outs op outputs ++ inner_mitsot_outs op outputs
    ++ inner_sitsot_outs op outputs ++ inner_nitsot_outs op outputs
    ++ inner_shared_outs op outputs
  = take (n_out_slices op + n_mit_sot op + n_sit_sot op + n_nit_sot op
          + n_shared_outs op) outputs
  /\ outer_mitmot_outs op node_outputs ++ outer_mitsot_outs op node_outputs
       ++ outer_sitsot_outs op node_outputs
       ++ outer_nitsot_outs op node_outputs
       ++ outer_shared_outs op node_outputs
     = take (n_tracked op + n_shared_outs op) node_outputs.
Proof.
  split.
  - unfold inner_mitmot_outs, inner_mitsot_outs, inner_sitsot_outs,
      inner_nitsot_outs, inner_shared_outs. simpl.
    rewrite !app_assoc.
    rewrite take_py_slice by lia.
    replace (n_mit_sot op + n_out_slices op)
      with (n_out_slices op + n_mit_sot op) by lia.
    rewrite take_py_slice by lia.
    rewrite take_py_slice by lia.
    rewrite take_py_slice by lia. done.
  - unfold outer_mitmot_outs, outer_mitsot_outs, outer_sitsot_outs,
      outer_nitsot_outs, outer_shared_outs, n_tracked, n_outs. simpl.
    rewrite !app_assoc.
    rewrite take_py_slice by lia.
    rewrite take_py_slice by lia.
    rewrite take_py_slice by lia.
    rewrite take_py_slice by lia. done.
Qed.

(** X8: the accessors of the outputs of the inner function and the
    offsets of [execute] agree when [mit_mot_out_slices] has one entry
    per MIT-MOT output.  Entry [k] of [inner_mitsot_outs],
    [inner_sitsot_outs] and [inner_nitsot_outs] is the output that
    [execute] stores into the MIT-SOT, SIT-SOT and NIT-SOT output [k],
    and entry [j] of [inner_shared_outs] is the one it stores into the
    cell of the shared output [j]. *)
Theorem inner_outputs_offsets (outputs : list A) :
  length (mit_mot_out_slices op) = n_mit_mot op ->
  (forall k, k < n_mit_sot op ->
     inner_mitsot_outs op outputs !! k
     = outputs !! sot_out_index op (n_mit_mot op + k))
  /\ (forall k, k < n_sit_sot op ->
        inner_sitsot_outs op outputs !! k
        = outputs !! sot_out_index op (n_mit_mot op + n_mit_sot op + k))
  /\ (forall k, k < n_nit_sot op ->
        inner_nitsot_outs op outputs !! k
        = outputs !! sot_out_index op (n_outs op + k))
  /\ (forall j, j < n_shared_outs op ->
        inner_shared_outs op outputs !! j
        = outputs !! shared_out_index op j).
Proof.
  intros Hlen. pose proof (mit_mot_total_slices op Hlen) as Ht.
  unfold inner_mitsot_outs, inner_sitsot_outs, inner_nitsot_outs,
    inner_shared_outs, sot_out_index, shared_out_index, n_tracked, n_outs.
  simpl. rewrite Ht.
  split_and!; intros k Hk; rewrite lookup_py_slice by lia; f_equal; lia.
Qed.

(** X9: the accessors of the inputs of the inner function and the
    offsets of [execute] agree when every SIT-SOT output has a single
    tap.  Entry [k] of [inner_sitsot] is then the input that [execute]
    fills with the tap of the SIT-SOT output [k], entry [j] of
    [inner_shared] the one it fills with the shared variable [j], and
    [inner_non_seqs] are the inputs it fills with the non-sequence
    arguments. *)
Theorem inner_inputs_offsets (inputs : list A) :
  (forall j, n_mit_mot op + n_mit_sot op <= j < n_outs op ->
     exists t, tap_array op !! j = Some [t]) ->
  (forall k, k < n_sit_sot op ->
     inner_sitsot op inputs !! k
     = inputs !! tap_offset op (n_mit_mot op + n_mit_sot op + k))
  /\ (forall j, j < n_shared_outs op ->
        inner_shared op inputs !! j = inputs !! (shared_offset op + j))
  /\ inner_non_seqs op inputs
     = drop (shared_offset op + n_shared_outs op) inputs.
Proof.
  intros Hsingle.
  assert (Hoff : forall k, k <= n_sit_sot op ->
            tap_offset op (n_mit_mot op + n_mit_sot op + k)
            = n_seqs op + n_taps_upto op (n_mit_mot op + n_mit_sot op) + k).
  { intros k Hk. unfold tap_offset.
    change (sum_list (length <$> take ?n (tap_array op)))
      with (n_taps_upto op n).
    rewrite n_taps_upto_single; [lia|].
    intros j Hj. apply Hsingle. unfold n_outs. lia. }
  unfold inner_sitsot, inner_shared, inner_non_seqs, shared_offset.
  simpl. split_and!.
  - intros k Hk. rewrite lookup_py_slice by lia. f_equal.
    rewrite Hoff by lia. done.
  - intros j Hj. rewrite lookup_py_slice by lia. f_equal.
    unfold n_outs. rewrite Hoff by lia. done.
  - f_equal. unfold n_outs. rewrite Hoff by lia. done.
Qed.
End AccessorFacts.

(** ** The constructor *)

Section OutputTypesFacts.
Context {T : Type}.
Variable with_time : T -> T.

Lemma mit_mot_types_spec n (outputs : list T) rest idx :
  Forall (fun sl : list Z => sl <> []) rest ->
  idx + sum_list (length <$> rest) = n -> n <= length outputs ->
  exists tys,
    mit_mot_types with_time n outputs rest idx = Ok (tys, n)
    /\ length tys = length rest
    /\ forall j, j < length rest ->
         tys !! j
         = with_time <$> outputs !! (idx + sum_list (length <$> take j rest)).
Proof.
  revert idx. induction rest as [|sl rest IH]; intros idx Hne Hsum Hlen.
  - simpl in *. rewrite Nat.add_0_r in Hsum. subst idx.
    rewrite Nat.ltb_irrefl. exists []. split_and!; [done..|].
    intros j Hj. lia.
  - apply list.Forall_cons in Hne as [Hsl Hne].
    assert (0 < length sl) by (destruct sl; [done|simpl; lia]).
    assert (Hsum' : idx + length sl + sum_list (length <$> rest) = n)
      by (change (sum_list (length <$> sl :: rest))
            with (length sl + sum_list (length <$> rest)) in Hsum; lia).
    simpl.
    destruct (Nat.ltb_spec idx n) as [Hlt|Hge]; [|lia].
    assert (Hidx : idx < length outputs) by lia.
    destruct (lookup_lt_is_Some_2 outputs idx Hidx) as (o & Ho).
    rewrite Ho. simpl.
    destruct (IH (idx + length sl) Hne Hsum' Hlen)
      as (tys & -> & Hl & Hat).
    simpl. exists (with_time o :: tys). split_and!; [done|simpl; lia|].
    intros [|j] Hj.
    + simpl. by rewrite Nat.add_0_r, Ho.
    + change ((with_time o :: tys) !! S j) with (tys !! j).
      simpl in Hj. rewrite Hat by lia. do 2 f_equal.
      change (sum_list (length <$> take (S j) (sl :: rest)))
        with (length sl + sum_list (length <$> take j rest)). lia.
Qed.

(** X10: the types of the outputs of a node, for an op whose
    [mit_mot_out_slices] has one non-empty entry per MIT-MOT output and
    whose [n_mit_mot_outs] is their number, built from the outputs of the
    inner function (a last one being the termination condition of a loop
    that has one).  There is one type per output of the node: that of a
    MIT-MOT output is taken from its first output slice, that of a
    MIT-SOT, SIT-SOT or NIT-SOT output from the inner output that
    [execute] stores into it, each with a leading dimension added; that
    of a shared output is the type of the inner output that [execute]
    stores into its cell.  The condition gets no type. *)
Theorem output_types_layout (op : Scan) (outputs : list T) :
  length (mit_mot_out_slices op) = n_mit_mot op ->
  Forall (fun sl : list Z => sl <> []) (mit_mot_out_slices op) ->
  n_mit_mot_outs op = n_out_slices op ->
  length outputs = cond_index op + (if as_while op then 1 else 0) ->
  exists tys,
    output_types with_time op outputs = Ok tys
    /\ length tys = n_tracked op + n_shared_outs op
    /\ (forall j, j < n_mit_mot op ->
          tys !! j
          = with_time
              <$> outputs !! sum_list (length
                                         <$> take j (mit_mot_out_slices op)))
    /\ (forall j, n_mit_mot op <= j < n_tracked op ->
          tys !! j = with_time <$> outputs !! sot_out_index op j)
    /\ (forall j, j < n_shared_outs op ->
          tys !! (n_tracked op + j) = outputs !! shared_out_index op j).
Proof.
  intros Hlen Hne Hn Hout.
  pose proof (mit_mot_total_slices op Hlen) as Ht.
  unfold cond_index in Hout.
  destruct (mit_mot_types_spec (n_mit_mot_outs op) outputs
              (mit_mot_out_slices op) 0 Hne)
    as (tmm & Hmm & Hlmm & Hat); [by rewrite Hn|lia|].
  unfold output_types. rewrite Hmm. simpl.
  set (e := n_mit_mot_outs op + n_mit_sot op + n_sit_sot op + n_nit_sot op).
  set (mid := with_time <$> py_slice outputs (n_mit_mot_outs op) e).
  assert (Hlmid : length mid = n_mit_sot op + n_sit_sot op + n_nit_sot op).
  { unfold mid, py_slice. rewrite length_fmap, length_take, length_drop.
    unfold n_tracked, n_outs in Hout. subst e. lia. }
  assert (Hldrop : length (drop e outputs)
                   = n_shared_outs op + (if as_while op then 1 else 0)).
  { rewrite length_drop. unfold n_tracked, n_outs in Hout. subst e. lia. }
  set (tys := tmm ++ mid ++ drop e outputs).
  assert (Hltys : length tys = n_tracked op + n_shared_outs op
                               + (if as_while op then 1 else 0)).
  { unfold tys. rewrite !length_app, Hlmm, Hlmid, Hldrop, Hlen.
    unfold n_tracked, n_outs. lia. }
  assert (Hfull :
    (forall j, j < n_mit_mot op ->
       tys !! j
       = with_time
           <$> outputs !! sum_list (length
                                      <$> take j (mit_mot_out_slices op)))
    /\ (forall j, n_mit_mot op <= j < n_tracked op ->
          tys !! j = with_time <$> outputs !! sot_out_index op j)
    /\ (forall j, j < n_shared_outs op ->
          tys !! (n_tracked op + j) = outputs !! shared_out_index op j)).
  { split_and!.
    - intros j Hj. unfold tys. rewrite lookup_app_l by lia.
      rewrite Hat by lia. done.
    - intros j Hj. unfold tys. rewrite lookup_app_r by lia.
      rewrite lookup_app_l by (unfold n_tracked, n_outs in Hj; lia).
      unfold mid. rewrite list_lookup_fmap, lookup_py_slice
        by (subst e; unfold n_tracked, n_outs in Hj; lia).
      do 2 f_equal. unfold sot_out_index. rewrite Ht, <- Hn. lia.
    - intros j Hj. unfold tys. rewrite lookup_app_r
        by (unfold n_tracked, n_outs; lia).
      rewrite lookup_app_r by (unfold n_tracked, n_outs; lia).
      rewrite lookup_drop. f_equal.
      unfold shared_out_index. rewrite Ht, <- Hn. subst e.
      unfold n_tracked, n_outs. lia. }
  destruct (as_while op).
  - exists (slice_to tys (-1)). split; [done|].
    unfold slice_to. rewrite py_clip_neg by lia.
    destruct Hfull as (F1 & F2 & F3).
    split_and!.
    + rewrite length_take. lia.
    + intros j Hj. rewrite lookup_take_lt
        by (unfold n_tracked, n_outs in Hltys; lia).
      by apply F1.
    + intros j Hj. rewrite lookup_take_lt by lia. by apply F2.
    + intros j Hj. rewrite lookup_take_lt by lia. by apply F3.
  - exists tys. split; [done|]. split; [lia|exact Hfull].
Qed.
End OutputTypesFacts.

(** X11: an op that works in place declares, for every output with an
    initial state, that it destroys one input of the node, and that input
    is the initial state of this output, the array that [execute] takes
    as the storage of the output.  An op that does not work in place
    destroys nothing. *)
Theorem destroy_map_initial_state {V A} (op : Scan)
    (node_inputs : list A) idx :
  idx < n_outs op ->
  (inplace op = true ->
   (idx, [idx + 1 + n_seqs op]) ∈ destroy_map op
   /\ (forall v, (idx, v) ∈ destroy_map op -> v = [idx + 1 + n_seqs op])
   /\ node_inputs !! (idx + 1 + n_seqs op)
      = (outer_mitmot op node_inputs ++ outer_mitsot op node_inputs
         ++ outer_sitsot op node_inputs) !! idx
   /\ forall same_tail prev (init : list V) s m,
        alloc_out same_tail op idx prev init s m = init)
  /\ (inplace op = false -> destroy_map op = []).
Proof.
  intros Hidx. unfold destroy_map. split; intros Hin; rewrite Hin; [|done].
  split_and!.
  - apply list_elem_of_fmap. exists idx. split; [done|].
    apply elem_of_xrange. unfold n_outs in Hidx. lia.
  - intros v Hv. apply list_elem_of_fmap in Hv as (k & [= -> ->] & _).
    done.
  - unfold outer_mitmot, outer_mitsot, outer_sitsot. simpl.
    rewrite !app_assoc.
    assert (E : forall b e e', b <= e -> e <= e' ->
              py_slice node_inputs b e ++ py_slice node_inputs e e'
              = py_slice node_inputs b e').
    { intros b e e' H1 H2. unfold py_slice.
      replace (drop e node_inputs)
        with (drop (e - b) (drop b node_inputs))
        by (rewrite drop_drop; f_equal; lia).
      rewrite take_take_drop. f_equal. lia. }
    rewrite !E by lia.
    rewrite lookup_py_slice by (unfold n_outs in Hidx; lia).
    f_equal. lia.
  - intros same_tail prev init s m. unfold alloc_out. by rewrite Hin.
Qed.

(** ** The backward loop: its configuration, its sequences, its results *)

Lemma sum_list_cons (x : nat) (l : list nat) :
  sum_list (x :: l) = x + sum_list l.
Proof. reflexivity. Qed.

Lemma foldl_max_ge (x : Z) (r : list Z) :
  (x <= foldl Z.max x r)%Z /\ forall t, t ∈ r -> (t <= foldl Z.max x r)%Z.
Proof.
  revert x. induction r as [|y r IH]; intros x; simpl.
  - split; [lia|]. intros t Ht. by apply elem_of_nil in Ht.
  - destruct (IH (Z.max x y)) as [H1 H2]. split; [lia|].
    intros t Ht. apply elem_of_cons in Ht as [->|Ht]; [lia|by apply H2].
Qed.

Lemma np_max_ge (l : list Z) t : t ∈ l -> (t <= np_max l)%Z.
Proof.
  destruct l as [|x r]; [intros H; by apply elem_of_nil in H|].
  simpl. destruct (foldl_max_ge x r) as [H1 H2].
  intros Ht. apply elem_of_cons in Ht as [->|Ht]; [done|by apply H2].
Qed.

Lemma foldl_max_elem (x : Z) (r : list Z) : foldl Z.max x r ∈ x :: r.
Proof.
  revert x. induction r as [|y r IH]; intros x; simpl; [by left|].
  specialize (IH (Z.max x y)).
  apply elem_of_cons in IH as [E|IH].
  - rewrite E. destruct (Z.max_spec x y) as [[_ ->]|[_ ->]];
      [right; by left|by left].
  - right. by right.
Qed.

Lemma np_max_elem (l : list Z) : l <> [] -> np_max l ∈ l.
Proof. destruct l as [|x r]; [done|]. intros _. apply foldl_max_elem. Qed.

Lemma foldl_min_elem (x : Z) (r : list Z) : foldl Z.min x r ∈ x :: r.
Proof.
  revert x. induction r as [|y r IH]; intros x; simpl; [by left|].
  specialize (IH (Z.min x y)).
  apply elem_of_cons in IH as [E|IH].
  - rewrite E. destruct (Z.min_spec x y) as [[_ ->]|[_ ->]];
      [by left|right; by left].
  - right. by right.
Qed.

Lemma np_min_elem (l : list Z) : l <> [] -> np_min l ∈ l.
Proof. destruct l as [|x r]; [done|]. intros _. apply foldl_min_elem. Qed.

Lemma for_each_count {J S} (inv : nat -> S -> Prop)
    (body : J -> S -> res S) js k s s' :
  (forall j k t t', inv k t -> body j t = Ok t' -> inv (Datatypes.S k) t') ->
  inv k s -> for_each js body s = Ok s' -> inv (k + length js) s'.
Proof.
  intros Hbody. revert k s. induction js as [|j js IH]; intros k s Hs H.
  - simpl in H. injection H as <-. by rewrite Nat.add_0_r.
  - simpl in H. apply bind_Ok in H as (s1 & H1 & H).
    replace (k + length (j :: js)) with (Datatypes.S k + length js)
      by (simpl; lia).
    eapply IH; [|exact H]. eapply Hbody; eauto.
Qed.

Module GradArgsFacts.
Import Grad GradArgs.

Lemma append_at_counts idx v ll ll' :
  append_at idx v ll = Ok ll' ->
  length ll' = length ll
  /\ sum_list (length <$> ll') = S (sum_list (length <$> ll)).
Proof.
  unfold append_at, update_cell. intros H.
  apply bind_Ok in H as (c & Hc & H). apply from_opt_Ok in Hc.
  simpl in H. injection H as <-. split; [by rewrite length_insert|].
  pose proof (lookup_lt_Some _ _ _ Hc) as Hlt.
  rewrite insert_take_drop by done.
  rewrite <- (take_drop_middle ll idx c Hc) at 3.
  rewrite !fmap_app, !fmap_cons, !sum_list_with_app, !sum_list_cons.
  rewrite length_app. simpl. lia.
Qed.

Lemma mit_mot_body_ok op idx k t t' :
  channels_ok k t -> mit_mot_body op idx t = Ok t' ->
  channels_ok (S k) t'.
Proof.
  intros (H1 & H2 & H3) H. unfold mit_mot_body in H.
  apply bind_Ok in H as (sl & _ & H).
  apply bind_Ok in H as (t1 & Ht1 & H).
  apply bind_Ok in H as (ta & _ & H).
  assert (Hopen : channels_ok (S k) (open_channel [] [] t)).
  { unfold channels_ok, open_channel. simpl.
    rewrite !length_app, fmap_app, sum_list_with_app. simpl. lia. }
  assert (Hmid : channels_ok (S k) t1).
  { revert Ht1. apply for_each_inv; [|exact Hopen].
    intros j u u' _ (U1 & U2 & U3) Hb.
    apply bind_Ok in Hb as (tp & Htp & Hb). injection Hb as <-.
    destruct (append_at_counts _ _ _ _ Htp) as [L _].
    unfold channels_ok. simpl. rewrite L. done. }
  revert H. apply for_each_inv; [|exact Hmid].
  intros j u u' _ (U1 & U2 & U3) Hb.
  apply bind_Ok in Hb as (tp & Htp & Hb).
  apply bind_Ok in Hb as (os & Hos & Hb). injection Hb as <-.
  destruct (append_at_counts _ _ _ _ Htp) as [L _].
  destruct (append_at_counts _ _ _ _ Hos) as [L' S'].
  unfold channels_ok. simpl. rewrite L, L', S'. lia.
Qed.

Lemma mit_sot_body_ok op idx k t t' :
  channels_ok k t -> mit_sot_body op idx t = Ok t' ->
  channels_ok (S k) t'.
Proof.
  intros (H1 & H2 & H3) H. unfold mit_sot_body in H.
  apply bind_Ok in H as (ta & _ & H).
  apply bind_Ok in H as (t1 & Ht1 & H).
  apply bind_Ok in H as (tp & Htp & H). injection H as <-.
  assert (Hopen : channels_ok (S k) (open_channel [] [] t)).
  { unfold channels_ok, open_channel. simpl.
    rewrite !length_app, fmap_app, sum_list_with_app. simpl. lia. }
  assert (Hmid : channels_ok (S k) t1).
  { revert Ht1. apply for_each_inv; [|exact Hopen].
    intros j u u' _ (U1 & U2 & U3) Hb.
    apply bind_Ok in Hb as (tp' & Htp' & Hb).
    apply bind_Ok in Hb as (os & Hos & Hb). injection Hb as <-.
    destruct (append_at_counts _ _ _ _ Htp') as [L _].
    destruct (append_at_counts _ _ _ _ Hos) as [L' S'].
    unfold channels_ok. simpl. rewrite L, L', S'. lia. }
  destruct Hmid as (U1 & U2 & U3).
  destruct (append_at_counts _ _ _ _ Htp) as [L _].
  unfold channels_ok. simpl. rewrite L. done.
Qed.

Lemma sit_sot_body_ok idx k t t' :
  channels_ok k t -> sit_sot_body idx t = Ok t' -> channels_ok (S k) t'.
Proof.
  intros (H1 & H2 & H3) H. unfold sit_sot_body in H. injection H as <-.
  unfold channels_ok, open_channel. simpl.
  rewrite !length_app, fmap_app, sum_list_with_app. simpl. lia.
Qed.

Lemma backward_taps_ok op t :
  backward_taps op = Ok t ->
  channels_ok (n_mit_mot op + n_mit_sot op + n_sit_sot op) t.
Proof.
  unfold backward_taps. intros H.
  apply bind_Ok in H as (t1 & Ht1 & H).
  apply bind_Ok in H as (t2 & Ht2 & H).
  apply (for_each_count channels_ok _ _ 0) in Ht1;
    [|intros; by eapply mit_mot_body_ok|by repeat split].
  apply (for_each_count channels_ok _ _ _ _ _
           (fun j k t t' => mit_sot_body_ok op j k t t') Ht1) in Ht2.
  apply (for_each_count channels_ok _ _ _ _ _
           (fun j k t t' => sit_sot_body_ok j k t t') Ht2) in H.
  unfold xrange in H. rewrite !length_seq, !Nat.sub_0_r in H. exact H.
Qed.

(** X12: the configuration of the backward op is consistent, whatever
    the forward op.  It has one list of taps and one list of output
    slices per MIT-MOT output, as many MIT-MOT outputs as the forward op
    has outputs with an initial state, and its [n_mit_mot_outs] is the
    total number of its output slices, the number of outputs of its
    inner function that step 5.1 of [execute] consumes. *)
Theorem backward_info_consistent op n_other info :
  backward_info op n_other = Ok info ->
  n_mit_mot info = n_outs op
  /\ length (tap_array info) = n_mit_mot info
  /\ length (mit_mot_out_slices info) = n_mit_mot info
  /\ n_mit_mot_outs info = n_out_slices info
  /\ mit_mot_total info = n_mit_mot_outs info.
Proof.
  unfold backward_info. intros H.
  apply bind_Ok in H as (x1 & _ & H).
  apply bind_Ok in H as (x2 & _ & H).
  apply bind_Ok in H as (t & Ht & H). injection H as <-.
  destruct (backward_taps_ok _ _ Ht) as (H1 & H2 & H3).
  assert (Hs : mit_mot_total
                 {| n_seqs := n_seqs op + x1 + x2 + n_sit_sot op
                              + n_nit_sot op;
                    n_mit_sot := 0; tap_array := mit_mot_taps t;
                    n_mit_mot := n_mit_mot op + n_mit_sot op + n_sit_sot op;
                    n_mit_mot_outs := n_outs_acc t;
                    mit_mot_out_slices := out_slices t;
                    truncate_gradient := truncate_gradient op;
                    n_sit_sot := 0;
                    n_shared_outs := n_other + n_shared_outs op;
                    n_nit_sot := n_seqs op; as_while := as_while op;
                    inplace := false |} = n_outs_acc t).
  { rewrite mit_mot_total_slices by done. done. }
  unfold n_out_slices, n_outs. simpl. split_and!; done.
Qed.


Lemma np_min_replicate (l : list (list Z)) :
  (forall ta, ta ∈ l -> np_min ta = 0%Z) ->
  np_min <$> l = replicate (length l) 0%Z.
Proof.
  induction l as [|ta l IH]; intros H; simpl; [done|].
  rewrite (H ta) by (by left). f_equal. apply IH.
  intros ta' Hta'. apply H. by right.
Qed.

(** X13: the backward op of an op without MIT-MOT outputs whose MIT-SOT
    outputs have negative taps only.  The least tap of every output of
    the backward op is 0, so [execute] starts every position at 0; all
    its taps are non-negative and all its output slices positive: an
    iteration of the backward loop reads its buffers at the position and
    after it and writes after the position. *)
Theorem backward_info_positions op n_other info :
  backward_info op n_other = Ok info ->
  n_mit_mot op = 0 ->
  (forall j ta t, j < n_mit_sot op -> tap_array op !! j = Some ta ->
                  t ∈ ta -> (t < 0)%Z) ->
  mintaps info = replicate (n_tracked info) 0%Z
  /\ (forall ta t, ta ∈ tap_array info -> t ∈ ta -> (0 <= t)%Z)
  /\ (forall sl k, sl ∈ mit_mot_out_slices info -> k ∈ sl -> (0 < k)%Z).
Proof.
  intros H Hmm Hneg.
  unfold backward_info in H.
  apply bind_Ok in H as (x1 & _ & H).
  apply bind_Ok in H as (x2 & _ & H).
  apply bind_Ok in H as (tp & Ht & H). injection H as <-.
  destruct (GradFacts.backward_taps_without_mit_mot op tp Hmm Ht)
    as [Htaps Hslices].
  destruct (backward_taps_ok _ _ Ht) as (Hl & _ & _).
  simpl in *.
  assert (Hsrc : forall ta, ta ∈ take (n_mit_sot op) (tap_array op) ->
            forall t, t ∈ ta -> (t < 0)%Z).
  { intros ta Hta t Hin. apply list_elem_of_lookup in Hta as (j & Hj).
    apply lookup_take_Some in Hj as [Hj Hlt]. eapply Hneg; eauto. }
  assert (Hge : forall ta t, ta ∈ mit_mot_taps tp -> t ∈ ta -> (0 <= t)%Z).
  { intros ta x Hta Hx. rewrite Htaps in Hta.
    apply elem_of_app in Hta as [Hta|Hta].
    - apply list_elem_of_fmap in Hta as (ta0 & -> & Hta0).
      apply elem_of_app in Hx as [Hx|Hx].
      + apply list_elem_of_fmap in Hx as (y & -> & Hy).
        specialize (Hsrc _ Hta0 _ Hy). lia.
      + apply list_elem_of_singleton in Hx as ->. lia.
    - apply elem_of_replicate in Hta as [-> _].
      apply elem_of_cons in Hx as [->|Hx]; [lia|].
      apply list_elem_of_singleton in Hx as ->. lia. }
  split_and!.
  - unfold mintaps, n_tracked, n_outs. simpl.
    rewrite np_min_replicate.
    + rewrite Hl, !Nat.add_0_r. symmetry. apply replicate_add.
    + intros ta Hta.
      assert (Hz : (0%Z : Z) ∈ ta).
      { rewrite Htaps in Hta. apply elem_of_app in Hta as [Hta|Hta].
        - apply list_elem_of_fmap in Hta as (ta0 & -> & _).
          apply elem_of_app. right. by left.
        - apply elem_of_replicate in Hta as [-> _]. by left. }
      pose proof (np_min_le _ _ Hz) as Hle.
      assert (Hne : ta <> []) by (intros ->; by apply elem_of_nil in Hz).
      pose proof (Hge ta _ Hta (np_min_elem ta Hne)). lia.
  - exact Hge.
  - intros sl k Hsl Hk. rewrite Hslices in Hsl.
    apply elem_of_app in Hsl as [Hsl|Hsl].
    + apply list_elem_of_fmap in Hsl as (ta0 & -> & Hta0).
      apply list_elem_of_fmap in Hk as (y & -> & Hy).
      specialize (Hsrc _ Hta0 _ Hy). lia.
    + apply elem_of_replicate in Hsl as [-> _].
      apply list_elem_of_singleton in Hk as ->. lia.
Qed.
Lemma n_ins_Ok op b e x :
  n_ins op b e = Ok x -> b <= e ->
  n_taps_upto op b + x = n_taps_upto op e.
Proof.
  unfold n_ins, n_taps_upto. intros H Hbe.
  apply bind_Ok in H as (ls & Hls & H). injection H as <-.
  replace (take e (tap_array op))
    with (take (b + (e - b)) (tap_array op)) by (f_equal; lia).
  rewrite <- take_take_drop, fmap_app, sum_list_with_app. f_equal.
  f_equal. apply list_eq. intros k.
  pose proof (res_mapM_length _ _ _ Hls) as Hlen.
  unfold xrange in Hlen. rewrite length_seq in Hlen.
  rewrite list_lookup_fmap.
  destruct (decide (k < e - b)) as [Hk|Hk].
  - destruct (res_mapM_lookup _ _ _ k (b + k) Hls) as (y & Hy & Hf).
    { unfold xrange. by apply lookup_seq_lt. }
    apply bind_Ok in Hf as (ta & Hta & Hf). apply from_opt_Ok in Hta.
    injection Hf as <-.
    by rewrite Hy, lookup_take_lt, lookup_drop, Hta.
  - rewrite lookup_take_ge by lia. apply lookup_ge_None. lia.
Qed.

Section SequencesFacts.
Context {V : Type}.

Lemma tap_seqs_count op (outs : list (list V)) n s0 s :
  for_each (xrange 0 n) (tap_seqs op outs) s0 = Ok s ->
  length s = length s0 + n_taps_upto op n.
Proof.
  revert s. induction n as [|n IH]; intros s H.
  - simpl in H. injection H as <-. unfold n_taps_upto. simpl. lia.
  - unfold xrange in H. rewrite Nat.sub_0_r, seq_S in H. simpl in H.
    rewrite GradFacts.for_each_app in H.
    apply bind_Ok in H as (s1 & H1 & H).
    assert (H1' : for_each (xrange 0 n) (tap_seqs op outs) s0 = Ok s1)
      by (unfold xrange; by rewrite Nat.sub_0_r).
    apply IH in H1'. simpl in H.
    apply bind_Ok in H as (s2 & H2 & H). injection H as <-.
    unfold tap_seqs in H2.
    apply bind_Ok in H2 as (taps & Htaps & H2). apply from_opt_Ok in Htaps.
    apply bind_Ok in H2 as (? & _ & H2).
    apply bind_Ok in H2 as (out & _ & H2). injection H2 as <-.
    rewrite length_app, length_fmap, H1'.
    unfold n_taps_upto. rewrite (take_S_r _ _ _ Htaps), fmap_app.
    rewrite sum_list_with_app. simpl. lia.
Qed.

(** X14: the backward loop gets as many sequences as the configuration
    of the backward op announces: the sequences of the forward loop, one
    sequence per tap of its MIT-MOT and MIT-SOT outputs, one per SIT-SOT
    output and the gradients that come in for its NIT-SOT outputs. *)
Theorem scan_seqs_count op n_other info
    (seqs scan_outputs g_outs ss : list (list V)) :
  backward_info op n_other = Ok info ->
  scan_seqs op seqs scan_outputs g_outs = Ok ss ->
  length seqs = n_seqs op ->
  n_mit_mot_outs op + n_mit_sot op + n_sit_sot op + n_nit_sot op
  <= length g_outs ->
  length ss = n_seqs info.
Proof.
  intros Hinfo H Hseqs Hg.
  unfold backward_info in Hinfo.
  apply bind_Ok in Hinfo as (x1 & Hx1 & Hinfo).
  apply bind_Ok in Hinfo as (x2 & Hx2 & Hinfo).
  apply bind_Ok in Hinfo as (t & _ & Hinfo). injection Hinfo as <-.
  simpl.
  apply n_ins_Ok in Hx1; [|lia]. apply n_ins_Ok in Hx2; [|lia].
  unfold n_taps_upto in Hx1 at 1. simpl in Hx1.
  unfold scan_seqs in H.
  apply bind_Ok in H as (s1 & H1 & H).
  apply bind_Ok in H as (s2 & H2 & H). injection H as <-.
  apply tap_seqs_count in H1. rewrite length_fmap in H1.
  apply (for_each_count (fun k (s : list (list V)) =>
                           length s = length s1 + k) _ _ 0) in H2; [| |lia].
  2:{ intros j k u u' Hu Hb. unfold sit_sot_seq in Hb.
      apply bind_Ok in Hb as (out & _ & Hb). injection Hb as <-.
      rewrite length_app, Hu. simpl. lia. }
  unfold xrange in H2. rewrite length_seq, Nat.sub_0_r in H2.
  rewrite length_app, length_fmap. unfold py_slice.
  rewrite length_take, length_drop. lia.
Qed.

(** X15: the sequence that [grad] cuts for the tap [k] of an output with
    several negative taps, from the output [out] of the forward loop.
    It has [len(out) + mintap] entries, the number of steps when [out]
    holds the steps from [mintap] on, and its entry [i] is the entry
    [len(out) - 1 - i + (mintap + maxtap - k)] of [out]: the output at
    the step [(n - 1 - i) + (mintap + maxtap - k)], [n] being the number
    of steps. *)
Theorem tap_seq_aligned (taps : list Z) (out : list V) (k : Z) (i : nat) :
  (forall t, t ∈ taps -> (t < 0)%Z) -> k ∈ taps ->
  np_min taps <> np_max taps ->
  (- np_min taps <= Z.of_nat (length out))%Z ->
  Z.of_nat (length (tap_seq (np_min taps) (np_max taps) (reverse out) k))
  = (Z.of_nat (length out) + np_min taps)%Z
  /\ ((Z.of_nat i < Z.of_nat (length out) + np_min taps)%Z ->
      tap_seq (np_min taps) (np_max taps) (reverse out) k !! i
      = out !! Z.to_nat (Z.of_nat (length out) - 1 - Z.of_nat i
                         + (np_min taps + np_max taps - k))).
Proof.
  intros Hneg Hk Hne Hlen.
  assert (Hnonempty : taps <> []) by (intros ->; by apply elem_of_nil in Hk).
  pose proof (np_min_le _ _ Hk) as Hmin.
  pose proof (np_max_ge _ _ Hk) as Hmax.
  pose proof (Hneg _ (np_max_elem taps Hnonempty)) as Hmaxneg.
  set (m := np_min taps) in *. set (M := np_max taps) in *.
  set (L := length out) in *.
  unfold tap_seq.
  destruct (Z.ltb_spec M 0) as [_|?]; [|lia].
  destruct (Z.eqb_spec M m) as [?|_]; [congruence|]. simpl.
  rewrite Z.abs_neq by lia.
  assert (Ha : py_clip (length (reverse out)) (- M + k - m)
               = Z.to_nat (- M + k - m)).
  { rewrite length_reverse. apply py_clip_in. fold L. lia. }
  destruct (Z.eqb_spec (M - k) 0) as [E|E]; simpl.
  - unfold slice_from. rewrite Ha. split.
    + rewrite length_drop, length_reverse. fold L. lia.
    + intros Hi. rewrite lookup_drop, reverse_lookup by (fold L; lia).
      f_equal. fold L. lia.
  - unfold py_slice_z. rewrite Ha.
    rewrite py_clip_neg by lia. rewrite length_reverse. fold L. split.
    + rewrite length_take, length_drop, length_reverse. fold L. lia.
    + intros Hi. rewrite lookup_take_lt by lia.
      rewrite lookup_drop, reverse_lookup by (fold L; lia).
      f_equal. fold L. lia.
Qed.

(** X16: the list of gradients that [grad] returns is laid out like the
    inputs of the node of the forward op, read with the accessors of the
    two ops.  It has one entry per input; the entry of the number of
    steps, of a shared variable and of the trip count of a NIT-SOT
    output is [None]; the gradients of the sequences are the NIT-SOT
    outputs of the backward loop reversed, those of the initial states
    its MIT-MOT outputs reversed, and those of the non-sequences its
    first shared outputs. *)
Theorem gradients_layout op n_other info (outputs : list (list V)) :
  backward_info op n_other = Ok info ->
  length outputs = n_tracked info + n_shared_outs info ->
  length (gradients op n_other outputs)
  = 1 + n_seqs op + n_outs op + n_shared_outs op + n_nit_sot op + n_other
  /\ take 1 (gradients op n_other outputs) = [None]
  /\ outer_seqs op (gradients op n_other outputs)
     = (fun x => Some (reverse x)) <$> outer_nitsot_outs info outputs
  /\ outer_mitmot op (gradients op n_other outputs)
       ++ outer_mitsot op (gradients op n_other outputs)
       ++ outer_sitsot op (gradients op n_other outputs)
     = (fun x => Some (reverse x)) <$> outer_mitmot_outs info outputs
  /\ outer_shared op (gradients op n_other outputs)
     = replicate (n_shared_outs op) None
  /\ outer_nitsot op (gradients op n_other outputs)
     = replicate (n_nit_sot op) None
  /\ outer_non_seqs op (gradients op n_other outputs)
     = Some <$> take n_other (outer_shared_outs info outputs).
Proof.
  intros Hinfo Hlen.
  unfold backward_info in Hinfo.
  apply bind_Ok in Hinfo as (x1 & _ & Hinfo).
  apply bind_Ok in Hinfo as (x2 & _ & Hinfo).
  apply bind_Ok in Hinfo as (t & _ & Hinfo). injection Hinfo as <-.
  unfold n_tracked, n_outs in Hlen. simpl in Hlen.
  unfold outer_nitsot_outs, outer_mitmot_outs, outer_shared_outs. simpl.
  rewrite !Nat.add_0_r.
  set (no := n_mit_mot op + n_mit_sot op + n_sit_sot op) in *.
  unfold gradients. fold no.
  set (A := (fun x => Some (reverse x))
              <$> py_slice outputs no (no + n_seqs op)).
  set (B := (fun x : list V => Some (reverse x)) <$> take no outputs).
  set (C := replicate (n_shared_outs op) (@None (list V))).
  set (D := replicate (n_nit_sot op) (@None (list V))).
  set (E := Some <$> py_slice outputs (no + n_seqs op)
                       (no + n_seqs op + n_other)).
  assert (HA : length A = n_seqs op).
  { unfold A, py_slice. rewrite length_fmap, length_take, length_drop. lia. }
  assert (HB : length B = no).
  { unfold B. rewrite length_fmap, length_take. lia. }
  assert (HC : length C = n_shared_outs op) by apply length_replicate.
  assert (HD : length D = n_nit_sot op) by apply length_replicate.
  assert (HE : length E = n_other).
  { unfold E, py_slice. rewrite length_fmap, length_take, length_drop. lia. }
  split_and!.
  - rewrite !length_app, HA, HB, HC, HD, HE. unfold n_outs. simpl. lia.
  - done.
  - unfold outer_seqs. apply (py_slice_middle [None] A); simpl; lia.
  - unfold outer_mitmot, outer_mitsot, outer_sitsot. simpl.
    assert (Ecut : forall (l : list (option (list V))) b e e',
              b <= e -> e <= e' ->
              py_slice l b e ++ py_slice l e e' = py_slice l b e').
    { intros l b e e' H1 H2. unfold py_slice.
      replace (drop e l) with (drop (e - b) (drop b l))
        by (rewrite drop_drop; f_equal; lia).
      rewrite take_take_drop. f_equal. lia. }
    rewrite (Ecut _ (S (n_seqs op + n_mit_mot op))) by lia.
    rewrite (Ecut _ (S (n_seqs op))) by lia.
    apply (py_slice_middle ([None] ++ A) B (C ++ D ++ E));
      rewrite ?length_app; simpl; lia.
  - unfold outer_shared.
    replace ([None] ++ A ++ B ++ C ++ D ++ E)
      with (([None] ++ A ++ B) ++ C ++ (D ++ E))
      by (by rewrite <- !app_assoc).
    apply py_slice_middle; rewrite ?length_app; simpl; lia.
  - unfold outer_nitsot.
    replace ([None] ++ A ++ B ++ C ++ D ++ E)
      with (([None] ++ A ++ B ++ C) ++ D ++ E)
      by (by rewrite <- !app_assoc).
    apply py_slice_middle; rewrite ?length_app; simpl; lia.
  - unfold outer_non_seqs.
    replace ([None] ++ A ++ B ++ C ++ D ++ E)
      with (([None] ++ A ++ B ++ C ++ D) ++ E)
      by (by rewrite <- !app_assoc).
    rewrite drop_app_length'
      by (rewrite !length_app; simpl; lia).
    unfold E. f_equal. unfold py_slice.
    rewrite take_take. f_equal. lia.
Qed.
End SequencesFacts.
End GradArgsFacts.

(** ** The R-operator *)

Lemma lookup_twice {A} (l : list A) (tw : bool) i :
  i < length l ->
  (l ++ l) !! (i + (if tw then length l else 0)) = l !! i.
Proof.
  intros H. destruct tw.
  - rewrite lookup_app_r by lia. f_equal. lia.
  - rewrite Nat.add_0_r. by apply lookup_app_l.
Qed.

Lemma length_py_slice {A} (l : list A) b e :
  e <= length l -> length (py_slice l b e) = e - b.
Proof.
  intros H. unfold py_slice. rewrite length_take, length_drop. lia.
Qed.

Module RopFacts.
Import Rop.

(** X17: in the op that [R_op] builds every output of [op] with an
    initial state and its evaluation point have the taps of that output,
    hence the same least tap: [execute] moves the two buffers in step.
    The new op has twice the outputs of [op] and one list of taps for
    each. *)
Theorem twin_taps op (tw : bool) j :
  length (tap_array op) = n_outs op -> j < n_outs op ->
  tap_array (info op) !! twin_index op tw j = tap_array op !! j
  /\ mintaps (info op) !! twin_index op tw j = mintaps op !! j
  /\ length (tap_array (info op)) = n_outs (info op)
  /\ n_outs (info op) = 2 * n_outs op.
Proof.
  intros Hlen Hj. unfold n_outs in *.
  set (T := tap_array op) in *.
  set (M1 := py_slice T 0 (n_mit_mot op)).
  set (M2 := py_slice T (n_mit_mot op) (n_mit_mot op + n_mit_sot op)).
  set (M3 := py_slice T (n_mit_mot op + n_mit_sot op)
               (n_mit_mot op + n_mit_sot op + n_sit_sot op)).
  assert (Hnew : tap_array (info op) = (M1 ++ M1) ++ (M2 ++ M2) ++ (M3 ++ M3))
    by reflexivity.
  assert (H1 : length M1 = n_mit_mot op)
    by (unfold M1; rewrite length_py_slice; lia).
  assert (H2 : length M2 = n_mit_sot op)
    by (unfold M2; rewrite length_py_slice; lia).
  assert (H3 : length M3 = n_sit_sot op)
    by (unfold M3; rewrite length_py_slice; lia).
  assert (Hl : length (tap_array (info op)) = 2 * length T).
  { rewrite Hnew, !length_app. lia. }
  assert (Htaps : tap_array (info op) !! twin_index op tw j = T !! j).
  { rewrite Hnew. unfold twin_index, n_outs.
    destruct (Nat.ltb_spec j (n_mit_mot op)) as [Hb1|Hb1].
    - rewrite lookup_app_l
        by (rewrite length_app; destruct tw; lia).
      replace (2 * 0 + (j - 0) + (if tw then n_mit_mot op else 0))
        with (j + (if tw then length M1 else 0)) by (rewrite H1; lia).
      rewrite lookup_twice by lia.
      unfold M1. rewrite lookup_py_slice by lia. done.
    - destruct (Nat.ltb_spec j (n_mit_mot op + n_mit_sot op)) as [Hb2|Hb2].
      + rewrite lookup_app_r by (rewrite length_app; lia).
        rewrite lookup_app_l
          by (rewrite !length_app; destruct tw; lia).
        replace (2 * n_mit_mot op + (j - n_mit_mot op)
                 + (if tw then n_mit_sot op else 0) - length (M1 ++ M1))
          with (j - n_mit_mot op + (if tw then length M2 else 0))
          by (rewrite length_app, H1, H2; lia).
        rewrite lookup_twice by lia.
        unfold M2. rewrite lookup_py_slice by lia. f_equal. lia.
      + destruct (Nat.ltb_spec j (n_mit_mot op + n_mit_sot op
                                  + n_sit_sot op)) as [_|?]; [|lia].
        rewrite lookup_app_r by (rewrite length_app; lia).
        rewrite lookup_app_r by (rewrite !length_app; lia).
        replace (2 * (n_mit_mot op + n_mit_sot op)
                 + (j - (n_mit_mot op + n_mit_sot op))
                 + (if tw then n_sit_sot op else 0) - length (M1 ++ M1)
                 - length (M2 ++ M2))
          with (j - (n_mit_mot op + n_mit_sot op)
                + (if tw then length M3 else 0))
          by (rewrite !length_app, H1, H2, H3; lia).
        rewrite lookup_twice by lia.
        unfold M3. rewrite lookup_py_slice by lia. f_equal. lia. }
  split_and!.
  - exact Htaps.
  - unfold mintaps.
    assert (Hin : twin_index op tw j < length (tap_array (info op))).
    { apply lookup_lt_is_Some. rewrite Htaps.
      apply lookup_lt_is_Some. fold T. lia. }
    rewrite !lookup_app_l by (rewrite length_fmap; fold T; lia).
    by rewrite !list_lookup_fmap, Htaps.
  - rewrite Hl, Hlen. simpl. lia.
  - simpl. lia.
Qed.

Section Selection.
Context {A : Type}.

(** X18: [R_op] returns one result per output of the node of [op], in
    their order: the output of the node of the new op that stands for
    the evaluation point of that output. *)
Theorem final_outs_twins op (outputs : list A) k :
  length outputs = n_tracked (info op) + n_shared_outs (info op) ->
  k < n_tracked op + n_shared_outs op ->
  length (final_outs op outputs) = n_tracked op + n_shared_outs op
  /\ final_outs op outputs !! k = outputs !! twin_index op true k.
Proof.
  unfold n_tracked, n_outs. simpl. intros Hlen Hk.
  unfold final_outs.
  set (f1 := py_slice outputs (n_mit_mot op) (n_mit_mot op * 2)).
  set (f2 := py_slice outputs (n_mit_mot op * 2 + n_mit_sot op)
               (n_mit_mot op * 2 + n_mit_sot op * 2)).
  set (f3 := py_slice outputs
               (n_mit_mot op * 2 + n_mit_sot op * 2 + n_sit_sot op)
               (n_mit_mot op * 2 + n_mit_sot op * 2 + n_sit_sot op * 2)).
  set (f4 := py_slice outputs
               (n_mit_mot op * 2 + n_mit_sot op * 2 + n_sit_sot op * 2
                + n_nit_sot op)
               (n_mit_mot op * 2 + n_mit_sot op * 2 + n_sit_sot op * 2
                + n_nit_sot op * 2)).
  set (f5 := py_slice outputs
               (n_mit_mot op * 2 + n_mit_sot op * 2 + n_sit_sot op * 2
                + n_nit_sot op * 2 + n_shared_outs op)
               (n_mit_mot op * 2 + n_mit_sot op * 2 + n_sit_sot op * 2
                + n_nit_sot op * 2 + n_shared_outs op * 2)).
  assert (H1 : length f1 = n_mit_mot op)
    by (unfold f1; rewrite length_py_slice; lia).
  assert (H2 : length f2 = n_mit_sot op)
    by (unfold f2; rewrite length_py_slice; lia).
  assert (H3 : length f3 = n_sit_sot op)
    by (unfold f3; rewrite length_py_slice; lia).
  assert (H4 : length f4 = n_nit_sot op)
    by (unfold f4; rewrite length_py_slice; lia).
  assert (H5 : length f5 = n_shared_outs op)
    by (unfold f5; rewrite length_py_slice; lia).
  split; [rewrite !length_app; lia|].
  unfold twin_index, n_tracked, n_outs.
  destruct (Nat.ltb_spec k (n_mit_mot op)).
  { rewrite lookup_app_l by lia. unfold f1.
    rewrite lookup_py_slice by lia. f_equal. lia. }
  rewrite lookup_app_r by lia.
  destruct (Nat.ltb_spec k (n_mit_mot op + n_mit_sot op)).
  { rewrite lookup_app_l by lia. unfold f2.
    rewrite lookup_py_slice by lia. f_equal. lia. }
  rewrite lookup_app_r by lia.
  destruct (Nat.ltb_spec k (n_mit_mot op + n_mit_sot op + n_sit_sot op)).
  { rewrite lookup_app_l by lia. unfold f3.
    rewrite lookup_py_slice by lia. f_equal. lia. }
  rewrite lookup_app_r by lia.
  destruct (Nat.ltb_spec k (n_mit_mot op + n_mit_sot op + n_sit_sot op
                            + n_nit_sot op)).
  { rewrite lookup_app_l by lia. unfold f4.
    rewrite lookup_py_slice by lia. f_equal. lia. }
  rewrite lookup_app_r by lia. unfold f5.
  rewrite lookup_py_slice by lia. f_equal. lia.
Qed.

(** X19: the outputs of the inner function of the new op, for a loop
    with a termination condition.  The output slices of the MIT-MOT
    outputs and the outputs of every other kind come twice, once from
    the inner function of [op] and once from its R-operator, and the
    condition of [op] comes last.  Its index is
    [cond_index + n_out_slices].  The index [cond_index] where
    [execute] reads the condition of the new op, computed from its
    [n_mit_mot_outs], is that index when [op] has no output slice of a
    MIT-MOT output, and lies [n_out_slices] outputs before it
    otherwise. *)
Theorem inner_outs_condition op (self_outputs rop_outs : list A) :
  as_while op = true ->
  length self_outputs
  = n_out_slices op + n_mit_sot op + n_sit_sot op + n_nit_sot op
    + n_shared_outs op + 1 ->
  length rop_outs = length self_outputs - 1 ->
  exists outs,
    inner_outs op self_outputs rop_outs = Ok outs
    /\ length outs = cond_index (info op) + n_out_slices op + 1
    /\ outs !! (cond_index (info op) + n_out_slices op)
       = self_outputs !! (length self_outputs - 1)
    /\ (n_out_slices op = 0 ->
        outs !! cond_index (info op)
        = self_outputs !! (length self_outputs - 1)).
Proof.
  intros Hw Hlen Hrop. unfold inner_outs. rewrite Hw.
  assert (Hc : exists c, self_outputs !! (length self_outputs - 1) = Some c).
  { apply lookup_lt_is_Some. lia. }
  destruct Hc as (c & Hc).
  assert (Hget : py_getitem self_outputs (-1) = Ok c).
  { unfold py_getitem, py_index.
    destruct (Z.leb_spec 0 (-1)); [lia|]. simpl.
    destruct (Z.leb_spec (- Z.of_nat (length self_outputs)) (-1)); [|lia].
    simpl.
    replace (Z.to_nat (Z.of_nat (length self_outputs) + -1))
      with (length self_outputs - 1) by lia.
    by rewrite Hc. }
  rewrite Hget. simpl.
  set (body := (_ ++ _) ++ (_ ++ _) ++ (_ ++ _) ++ (_ ++ _) ++ (_ ++ _)).
  assert (Hbody : length body = cond_index (info op) + n_out_slices op).
  { unfold body, cond_index, n_tracked, n_outs. simpl.
    rewrite !length_app, !length_py_slice by lia. lia. }
  exists (body ++ [c]). split; [done|].
  assert (Hlast : (body ++ [c]) !! (cond_index (info op) + n_out_slices op)
                  = Some c).
  { rewrite lookup_app_r by lia. rewrite Hbody, Nat.sub_diag. done. }
  split_and!.
  - rewrite length_app, Hbody. simpl. lia.
  - by rewrite Hlast, Hc.
  - intros E. rewrite E, Nat.add_0_r in Hlast. by rewrite Hlast, Hc.
Qed.
End Selection.
Section Layout.
Context {A : Type}.
Variable op : Scan.

Lemma py_slice_prefix (l1 l2 : list A) e :
  e = length l1 -> py_slice (l1 ++ l2) 0 e = l1.
Proof.
  intros ->. unfold py_slice. rewrite drop_0, Nat.sub_0_r.
  by rewrite take_app_length.
Qed.

(** X20: the inputs that [R_op] gives to the node of the new op, read
    with the accessors of the new op.  Every block of inputs of the new
    op is the block of the same kind of the inputs of [op] followed by
    that of the evaluation points; only the trip counts of the NIT-SOT
    outputs are those of [op] twice.  The number of steps is that of
    [op]. *)
Theorem scan_inputs_layout (inputs eval_points si : list A) :
  scan_inputs op inputs eval_points = Ok si ->
  1 + n_seqs op + n_outs op + n_shared_outs op + n_nit_sot op
  <= length inputs ->
  1 + n_seqs op + n_outs op + n_shared_outs op + n_nit_sot op
  <= length eval_points ->
  take 1 si = take 1 inputs
  /\ outer_seqs (info op) si
     = outer_seqs op inputs ++ outer_seqs op eval_points
  /\ outer_mitmot (info op) si
     = outer_mitmot op inputs ++ outer_mitmot op eval_points
  /\ outer_mitsot (info op) si
     = outer_mitsot op inputs ++ outer_mitsot op eval_points
  /\ outer_sitsot (info op) si
     = outer_sitsot op inputs ++ outer_sitsot op eval_points
  /\ outer_shared (info op) si
     = outer_shared op inputs ++ outer_shared op eval_points
  /\ outer_nitsot (info op) si
     = outer_nitsot op inputs ++ outer_nitsot op inputs
  /\ outer_non_seqs (info op) si
     = outer_non_seqs op inputs ++ outer_non_seqs op eval_points.
Proof.
  unfold n_outs. intros H Hin Hev. unfold scan_inputs in H.
  apply bind_Ok in H as (n0 & Hn0 & H). apply from_opt_Ok in Hn0.
  set (B1 := py_slice inputs 1 (1 + n_seqs op)
             ++ py_slice eval_points 1 (1 + n_seqs op)).
  set (B2 := py_slice inputs (1 + n_seqs op) (1 + n_seqs op + n_mit_mot op)
             ++ py_slice eval_points (1 + n_seqs op)
                  (1 + n_seqs op + n_mit_mot op)).
  set (B3 := py_slice inputs (1 + n_seqs op + n_mit_mot op)
               (1 + n_seqs op + n_mit_mot op + n_mit_sot op)
             ++ py_slice eval_points (1 + n_seqs op + n_mit_mot op)
                  (1 + n_seqs op + n_mit_mot op + n_mit_sot op)).
  set (B4 := py_slice inputs (1 + n_seqs op + n_mit_mot op + n_mit_sot op)
               (1 + n_seqs op + n_mit_mot op + n_mit_sot op + n_sit_sot op)
             ++ py_slice eval_points
                  (1 + n_seqs op + n_mit_mot op + n_mit_sot op)
                  (1 + n_seqs op + n_mit_mot op + n_mit_sot op
                   + n_sit_sot op)).
  set (B5 := py_slice inputs
               (1 + n_seqs op + n_mit_mot op + n_mit_sot op + n_sit_sot op)
               (1 + n_seqs op + n_mit_mot op + n_mit_sot op + n_sit_sot op
                + n_shared_outs op)
             ++ py_slice eval_points
                  (1 + n_seqs op + n_mit_mot op + n_mit_sot op
                   + n_sit_sot op)
                  (1 + n_seqs op + n_mit_mot op + n_mit_sot op
                   + n_sit_sot op + n_shared_outs op)).
  set (B6 := py_slice inputs
               (1 + n_seqs op + n_mit_mot op + n_mit_sot op + n_sit_sot op
                + n_shared_outs op)
               (1 + n_seqs op + n_mit_mot op + n_mit_sot op + n_sit_sot op
                + n_shared_outs op + n_nit_sot op)
             ++ py_slice inputs
                  (1 + n_seqs op + n_mit_mot op + n_mit_sot op
                   + n_sit_sot op + n_shared_outs op)
                  (1 + n_seqs op + n_mit_mot op + n_mit_sot op
                   + n_sit_sot op + n_shared_outs op + n_nit_sot op)).
  set (O := drop (1 + n_seqs op + n_mit_mot op + n_mit_sot op
                  + n_sit_sot op + n_shared_outs op + n_nit_sot op) inputs
            ++ drop (1 + n_seqs op + n_mit_mot op + n_mit_sot op
                     + n_sit_sot op + n_shared_outs op + n_nit_sot op)
                 eval_points).
  assert (Hsi : si = [n0] ++ B1 ++ B2 ++ B3 ++ B4 ++ B5 ++ B6 ++ O)
    by (by injection H as <-).
  clear H. subst si.
  assert (H1 : length B1 = 2 * n_seqs op)
    by (unfold B1; rewrite length_app, !length_py_slice by lia; lia).
  assert (H2 : length B2 = 2 * n_mit_mot op)
    by (unfold B2; rewrite length_app, !length_py_slice by lia; lia).
  assert (H3 : length B3 = 2 * n_mit_sot op)
    by (unfold B3; rewrite length_app, !length_py_slice by lia; lia).
  assert (H4 : length B4 = 2 * n_sit_sot op)
    by (unfold B4; rewrite length_app, !length_py_slice by lia; lia).
  assert (H5 : length B5 = 2 * n_shared_outs op)
    by (unfold B5; rewrite length_app, !length_py_slice by lia; lia).
  assert (H6 : length B6 = 2 * n_nit_sot op)
    by (unfold B6; rewrite length_app, !length_py_slice by lia; lia).
  split_and!.
  - simpl. destruct inputs; [done|]. simpl in Hn0. by injection Hn0 as ->.
  - unfold outer_seqs at 1.
    apply (py_slice_middle [n0] B1); rewrite ?H1; simpl; lia.
  - unfold outer_mitmot at 1.
    replace ([n0] ++ B1 ++ B2 ++ B3 ++ B4 ++ B5 ++ B6 ++ O)
      with (([n0] ++ B1) ++ B2 ++ (B3 ++ B4 ++ B5 ++ B6 ++ O))
      by (by rewrite <- !app_assoc).
    apply (py_slice_middle ([n0] ++ B1) B2 (B3 ++ B4 ++ B5 ++ B6 ++ O));
      rewrite ?length_app, ?H1, ?H2, ?H3, ?H4, ?H5, ?H6; simpl; lia.
  - unfold outer_mitsot at 1.
    replace ([n0] ++ B1 ++ B2 ++ B3 ++ B4 ++ B5 ++ B6 ++ O)
      with (([n0] ++ B1 ++ B2) ++ B3 ++ (B4 ++ B5 ++ B6 ++ O))
      by (by rewrite <- !app_assoc).
    apply (py_slice_middle ([n0] ++ B1 ++ B2) B3 (B4 ++ B5 ++ B6 ++ O));
      rewrite ?length_app, ?H1, ?H2, ?H3, ?H4, ?H5, ?H6; simpl; lia.
  - unfold outer_sitsot at 1.
    replace ([n0] ++ B1 ++ B2 ++ B3 ++ B4 ++ B5 ++ B6 ++ O)
      with (([n0] ++ B1 ++ B2 ++ B3) ++ B4 ++ (B5 ++ B6 ++ O))
      by (by rewrite <- !app_assoc).
    apply (py_slice_middle ([n0] ++ B1 ++ B2 ++ B3) B4 (B5 ++ B6 ++ O));
      rewrite ?length_app, ?H1, ?H2, ?H3, ?H4, ?H5, ?H6; simpl; lia.
  - unfold outer_shared at 1.
    replace ([n0] ++ B1 ++ B2 ++ B3 ++ B4 ++ B5 ++ B6 ++ O)
      with (([n0] ++ B1 ++ B2 ++ B3 ++ B4) ++ B5 ++ (B6 ++ O))
      by (by rewrite <- !app_assoc).
    apply (py_slice_middle ([n0] ++ B1 ++ B2 ++ B3 ++ B4) B5 (B6 ++ O));
      rewrite ?length_app, ?H1, ?H2, ?H3, ?H4, ?H5, ?H6; simpl; lia.
  - unfold outer_nitsot at 1.
    replace ([n0] ++ B1 ++ B2 ++ B3 ++ B4 ++ B5 ++ B6 ++ O)
      with (([n0] ++ B1 ++ B2 ++ B3 ++ B4 ++ B5) ++ B6 ++ O)
      by (by rewrite <- !app_assoc).
    apply (py_slice_middle ([n0] ++ B1 ++ B2 ++ B3 ++ B4 ++ B5) B6 O);
      rewrite ?length_app, ?H1, ?H2, ?H3, ?H4, ?H5, ?H6; simpl; lia.
  - unfold outer_non_seqs.
    replace ([n0] ++ B1 ++ B2 ++ B3 ++ B4 ++ B5 ++ B6 ++ O)
      with (([n0] ++ B1 ++ B2 ++ B3 ++ B4 ++ B5 ++ B6) ++ O)
      by (by rewrite <- !app_assoc).
    rewrite drop_app_length'
      by (rewrite !length_app, H1, H2, H3, H4, H5, H6; simpl; lia).
    unfold O. f_equal; f_equal; lia.
Qed.
Lemma py_slice_0 {B} (l : list B) e : py_slice l 0 e = take e l.
Proof. unfold py_slice. by rewrite drop_0, Nat.sub_0_r. Qed.

Lemma mit_sot_taps_sum :
  n_taps_upto op (n_mit_mot op)
  + sum_list (length <$> py_slice (tap_array op) (n_mit_mot op)
                           (n_mit_mot op + n_mit_sot op))
  = n_taps_upto op (n_mit_mot op + n_mit_sot op).
Proof.
  unfold n_taps_upto, py_slice.
  replace (n_mit_mot op + n_mit_sot op - n_mit_mot op)
    with (n_mit_sot op) by lia.
  by rewrite <- take_take_drop, fmap_app, sum_list_with_app.
Qed.

Lemma info_taps_upto :
  length (tap_array op) = n_outs op ->
  n_taps_upto (info op) (n_mit_mot op * 2)
  = 2 * n_taps_upto op (n_mit_mot op)
  /\ n_taps_upto (info op) (n_mit_mot op * 2 + n_mit_sot op * 2)
     = 2 * n_taps_upto op (n_mit_mot op + n_mit_sot op).
Proof.
  intros Hlen. unfold n_outs in Hlen.
  pose proof mit_sot_taps_sum as Hsum.
  set (M1 := py_slice (tap_array op) 0 (n_mit_mot op)).
  set (M2 := py_slice (tap_array op) (n_mit_mot op)
               (n_mit_mot op + n_mit_sot op)) in *.
  set (M3 := py_slice (tap_array op) (n_mit_mot op + n_mit_sot op)
               (n_mit_mot op + n_mit_sot op + n_sit_sot op)).
  assert (Hnew : tap_array (info op) = (M1 ++ M1) ++ (M2 ++ M2) ++ (M3 ++ M3))
    by reflexivity.
  assert (H1 : length M1 = n_mit_mot op)
    by (unfold M1; rewrite length_py_slice; lia).
  assert (H2 : length M2 = n_mit_sot op)
    by (unfold M2; rewrite length_py_slice; lia).
  assert (S1 : sum_list (length <$> M1) = n_taps_upto op (n_mit_mot op)).
  { unfold M1. by rewrite py_slice_0. }
  unfold n_taps_upto at 1 3. rewrite Hnew. split.
  - rewrite take_app_length' by (rewrite length_app; lia).
    rewrite fmap_app, sum_list_with_app, S1. lia.
  - rewrite (take_app_add' (M1 ++ M1)) by (rewrite length_app; lia).
    rewrite take_app_length' by (rewrite length_app; lia).
    rewrite !fmap_app, !sum_list_with_app, S1. lia.
Qed.

(** X21: the inputs that [R_op] gives to the inner function of the new
    op, read with the accessors of the new op, for an op with one list
    of taps per output.  Every block of inputs of the new op, the
    sequences, the taps of the MIT-MOT, MIT-SOT and SIT-SOT outputs, the
    shared variables and the non-sequences, is the block of the same
    kind of the inputs of [op] followed by that of their evaluation
    points. *)
Theorem inner_ins_layout (self_inputs inner_eval_points : list A) :
  length (tap_array op) = n_outs op ->
  n_seqs op + n_taps_upto op (n_mit_mot op + n_mit_sot op) + n_sit_sot op
  + n_shared_outs op <= length self_inputs ->
  n_seqs op + n_taps_upto op (n_mit_mot op + n_mit_sot op) + n_sit_sot op
  + n_shared_outs op <= length inner_eval_points ->
  inner_seqs (info op) (inner_ins op self_inputs inner_eval_points)
  = inner_seqs op self_inputs ++ inner_seqs op inner_eval_points
  /\ inner_mitmot (info op) (inner_ins op self_inputs inner_eval_points)
     = inner_mitmot op self_inputs ++ inner_mitmot op inner_eval_points
  /\ inner_mitsot (info op) (inner_ins op self_inputs inner_eval_points)
     = inner_mitsot op self_inputs ++ inner_mitsot op inner_eval_points
  /\ inner_sitsot (info op) (inner_ins op self_inputs inner_eval_points)
     = inner_sitsot op self_inputs ++ inner_sitsot op inner_eval_points
  /\ inner_shared (info op) (inner_ins op self_inputs inner_eval_points)
     = inner_shared op self_inputs ++ inner_shared op inner_eval_points
  /\ inner_non_seqs (info op) (inner_ins op self_inputs inner_eval_points)
     = inner_non_seqs op self_inputs ++ inner_non_seqs op inner_eval_points.
Proof.
  intros Htaps Hself Hev.
  destruct (info_taps_upto Htaps) as [F1 F2].
  pose proof mit_sot_taps_sum as F3.
  pose proof (n_taps_upto_le op (n_mit_mot op)
                (n_mit_mot op + n_mit_sot op) ltac:(lia)) as Hle.
  set (I1 := inner_seqs op self_inputs ++ inner_seqs op inner_eval_points).
  set (I2 := inner_mitmot op self_inputs
             ++ inner_mitmot op inner_eval_points).
  set (I3 := inner_mitsot op self_inputs
             ++ inner_mitsot op inner_eval_points).
  set (I4 := inner_sitsot op self_inputs
             ++ inner_sitsot op inner_eval_points).
  set (I5 := inner_shared op self_inputs
             ++ inner_shared op inner_eval_points).
  set (IO := inner_non_seqs op self_inputs
             ++ inner_non_seqs op inner_eval_points).
  assert (Hii : inner_ins op self_inputs inner_eval_points
                = I1 ++ I2 ++ I3 ++ I4 ++ I5 ++ IO).
  { unfold inner_ins, I1, I2, I3, I4, I5, IO, inner_seqs, inner_mitmot,
      inner_mitsot, inner_sitsot, inner_shared, inner_non_seqs.
    cbv zeta. rewrite !py_slice_0.
    rewrite <- !(Nat.add_assoc (n_seqs op) (n_taps_upto op (n_mit_mot op))),
      !F3. done. }
  rewrite Hii.
  assert (L1 : length I1 = 2 * n_seqs op).
  { unfold I1, inner_seqs. rewrite length_app, !length_take. lia. }
  assert (L2 : length I2 = 2 * n_taps_upto op (n_mit_mot op)).
  { unfold I2, inner_mitmot. cbv zeta.
    rewrite length_app, !length_py_slice by lia. lia. }
  assert (L3 : length I3 = 2 * (n_taps_upto op (n_mit_mot op + n_mit_sot op)
                                - n_taps_upto op (n_mit_mot op))).
  { unfold I3, inner_mitsot. cbv zeta.
    rewrite length_app, !length_py_slice by lia. lia. }
  assert (L4 : length I4 = 2 * n_sit_sot op).
  { unfold I4, inner_sitsot. cbv zeta.
    rewrite length_app, !length_py_slice by lia. lia. }
  assert (L5 : length I5 = 2 * n_shared_outs op).
  { unfold I5, inner_shared. cbv zeta.
    rewrite length_app, !length_py_slice by lia. lia. }
  split_and!.
  - unfold inner_seqs at 1. rewrite <- py_slice_0.
    apply py_slice_prefix. rewrite L1. simpl. lia.
  - unfold inner_mitmot at 1. cbv zeta.
    apply (py_slice_middle I1 I2 (I3 ++ I4 ++ I5 ++ IO)).
    + rewrite L1. simpl. lia.
    + rewrite L2. simpl n_mit_mot. simpl n_seqs. rewrite F1. lia.
  - unfold inner_mitsot at 1. cbv zeta.
    replace (I1 ++ I2 ++ I3 ++ I4 ++ I5 ++ IO)
      with ((I1 ++ I2) ++ I3 ++ (I4 ++ I5 ++ IO))
      by (by rewrite <- !app_assoc).
    apply (py_slice_middle (I1 ++ I2) I3 (I4 ++ I5 ++ IO)).
    + rewrite length_app, L1, L2. simpl n_mit_mot. simpl n_seqs.
      rewrite F1. lia.
    + rewrite L3. simpl n_mit_mot. simpl n_mit_sot. simpl n_seqs.
      rewrite F1, F2. lia.
  - unfold inner_sitsot at 1. cbv zeta.
    replace (I1 ++ I2 ++ I3 ++ I4 ++ I5 ++ IO)
      with ((I1 ++ I2 ++ I3) ++ I4 ++ (I5 ++ IO))
      by (by rewrite <- !app_assoc).
    apply (py_slice_middle (I1 ++ I2 ++ I3) I4 (I5 ++ IO)).
    + rewrite !length_app, L1, L2, L3. simpl n_mit_mot. simpl n_mit_sot.
      simpl n_seqs. rewrite F2. lia.
    + rewrite L4. simpl. lia.
  - unfold inner_shared at 1. cbv zeta.
    replace (I1 ++ I2 ++ I3 ++ I4 ++ I5 ++ IO)
      with ((I1 ++ I2 ++ I3 ++ I4) ++ I5 ++ IO)
      by (by rewrite <- !app_assoc).
    apply (py_slice_middle (I1 ++ I2 ++ I3 ++ I4) I5 IO).
    + rewrite !length_app, L1, L2, L3, L4. simpl n_mit_mot.
      simpl n_mit_sot. simpl n_sit_sot. simpl n_seqs. rewrite F2. lia.
    + rewrite L5. simpl. lia.
  - unfold inner_non_seqs at 1. cbv zeta.
    replace (I1 ++ I2 ++ I3 ++ I4 ++ I5 ++ IO)
      with ((I1 ++ I2 ++ I3 ++ I4 ++ I5) ++ IO)
      by (by rewrite <- !app_assoc).
    apply drop_app_length'.
    rewrite !length_app, L1, L2, L3, L4, L5. simpl n_mit_mot.
    simpl n_mit_sot. simpl n_sit_sot. simpl n_shared_outs. simpl n_seqs.
    rewrite F2. lia.
Qed.
End Layout.
End RopFacts.

(** ** The node of the op *)

Module NodeFacts.
Import Node.

Lemma nbind_inr {A B} (m : nres A) (f : A -> nres B) (b : B) :
  nbind m f = inr b -> exists a, m = inr a /\ f a = inr b.
Proof. destruct m as [e|a]; simpl; [discriminate|eauto]. Qed.

Lemma nfrom_opt_inr {A} (o : option A) (a : A) :
  nfrom_opt o = inr a -> o = Some a.
Proof. destruct o; simpl; congruence. Qed.

Lemma nfor_each_inv {J S} (P : S -> Prop) (js : list J)
    (body : J -> S -> nres S) s s' :
  (forall j t t', j ∈ js -> P t -> body j t = inr t' -> P t') ->
  P s -> nfor_each js body s = inr s' -> P s'.
Proof.
  revert s. induction js as [|j js IH]; intros s Hbody Hs H; simpl in H.
  - by injection H as <-.
  - apply nbind_inr in H as (s1 & H1 & H).
    eapply (IH s1); [|eapply Hbody; eauto; by left|exact H].
    intros j' t t' Hj'. apply Hbody. by right.
Qed.

(** A loop over [xrange(b, e)] whose state follows the index. *)
Lemma nfor_each_seq {S} (P : nat -> S -> Prop) b n
    (body : nat -> S -> nres S) s s' :
  (forall k t t', b <= k < b + n -> P k t -> body k t = inr t' ->
                  P (Datatypes.S k) t') ->
  P b s -> nfor_each (seq b n) body s = inr s' -> P (b + n) s'.
Proof.
  revert b s. induction n as [|n IH]; intros b s Hbody Hs H; simpl in H.
  - injection H as <-. by rewrite Nat.add_0_r.
  - apply nbind_inr in H as (s1 & H1 & H).
    replace (b + Datatypes.S n) with (Datatypes.S b + n) by lia.
    apply (IH (Datatypes.S b) s1); [| |exact H].
    + intros k t t' Hk. apply Hbody. lia.
    + apply (Hbody b s s1); [lia|done|done].
Qed.

Lemma nfor_each_xrange {S} (P : nat -> S -> Prop) b e
    (body : nat -> S -> nres S) s s' :
  b <= e ->
  (forall k t t', b <= k < e -> P k t -> body k t = inr t' ->
                  P (Datatypes.S k) t') ->
  P b s -> nfor_each (xrange b e) body s = inr s' -> P e s'.
Proof.
  unfold xrange. intros Hbe Hbody Hs H.
  replace e with (b + (e - b)) by lia.
  eapply nfor_each_seq; [|exact Hs|exact H].
  intros k t t' Hk. apply Hbody. lia.
Qed.

Section NodeChecks.
Context {D : Type} `{EqDecision D}.
Variable is_int : D -> bool.
Variable op : Scan.
Variables inputs self_inputs self_outputs : list (variable D).

Lemma check_dtypes_inr (l1 l2 : list (variable D)) i1 i2 e u :
  check_dtypes l1 i1 l2 i2 e = inr u -> same_dtype (l1 !! i1) (l2 !! i2).
Proof.
  unfold check_dtypes. intros H.
  apply nbind_inr in H as (x & Hx & H). apply nfrom_opt_inr in Hx.
  apply nbind_inr in H as (dx & Hdx & H).
  apply nbind_inr in H as (y & Hy & H). apply nfrom_opt_inr in Hy.
  apply nbind_inr in H as (dy & Hdy & H).
  destruct (decide (dx = dy)) as [<-|]; [|discriminate].
  destruct x as [d n|]; [|discriminate]. injection Hdx as ->.
  destruct y as [d' n'|]; [|discriminate]. injection Hdy as ->.
  exists dx, n, n'. by rewrite Hx, Hy.
Qed.

Lemma check_taps_inr index (taps : list Z) i i' :
  nfor_each taps (check_tap inputs self_inputs index) i = inr i' ->
  i' = i + length taps
  /\ forall q, q < length taps ->
       same_dtype (inputs !! index) (self_inputs !! (i + q)).
Proof.
  revert i. induction taps as [|k taps IH]; intros i H; simpl in H.
  - injection H as <-. split; [simpl; lia|]. simpl. intros q Hq. lia.
  - apply nbind_inr in H as (i1 & H1 & H). unfold check_tap in H1.
    apply nbind_inr in H1 as (u & Hu & H1). injection H1 as <-.
    apply check_dtypes_inr in Hu.
    destruct (IH _ H) as [-> Hall]. split; [simpl; lia|].
    intros [|q] Hq; simpl in Hq.
    + by rewrite Nat.add_0_r.
    + replace (i + S q) with (S i + q) by lia. apply Hall. lia.
Qed.

Lemma check_outs_inr index (sl : list Z) o o' :
  nfor_each sl (fun _ => check_out inputs self_outputs index) o = inr o' ->
  o' = o + length sl
  /\ forall q, q < length sl ->
       same_dtype (inputs !! index) (self_outputs !! (o + q)).
Proof.
  revert o. induction sl as [|k sl IH]; intros o H; simpl in H.
  - injection H as <-. split; [simpl; lia|]. simpl. intros q Hq. lia.
  - apply nbind_inr in H as (o1 & H1 & H). unfold check_out in H1.
    apply nbind_inr in H1 as (u & Hu & H1). injection H1 as <-.
    apply check_dtypes_inr in Hu.
    destruct (IH _ H) as [-> Hall]. split; [simpl; lia|].
    intros [|q] Hq; simpl in Hq.
    + by rewrite Nat.add_0_r.
    + replace (o + S q) with (S o + q) by lia. apply Hall. lia.
Qed.

Lemma tap_offset_S j taps :
  tap_array op !! j = Some taps ->
  tap_offset op (S j) = tap_offset op j + length taps.
Proof.
  intros H. unfold tap_offset.
  rewrite (take_S_r _ _ _ H), fmap_app, sum_list_with_app. simpl. lia.
Qed.

Lemma slices_upto_S j sl :
  mit_mot_out_slices op !! j = Some sl ->
  slices_upto op (S j) = slices_upto op j + length sl.
Proof.
  intros H. unfold slices_upto.
  rewrite (take_S_r _ _ _ H), fmap_app, sum_list_with_app. simpl. lia.
Qed.

Lemma mit_mot_total_upto :
  n_mit_mot op <= length (mit_mot_out_slices op) ->
  mit_mot_total op = slices_upto op (n_mit_mot op).
Proof.
  unfold mit_mot_total, slices_upto, xrange. rewrite Nat.sub_0_r.
  intros Hle. f_equal. apply list_eq. intros k.
  rewrite !list_lookup_fmap.
  destruct (decide (k < n_mit_mot op)) as [Hk|Hk].
  - rewrite lookup_seq_lt, lookup_take_lt by done. simpl.
    destruct (lookup_lt_is_Some_2 (mit_mot_out_slices op) k) as (sl & ->);
      [lia|done].
  - rewrite lookup_seq_ge, lookup_take_ge by lia. done.
Qed.
Lemma mit_mot_checks_ok j st st' :
  j < n_mit_mot op ->
  checked op inputs self_inputs self_outputs j st ->
  mit_mot_checks op inputs self_inputs self_outputs (1 + n_seqs op)
    (1 + n_seqs op + j) st = inr st' ->
  checked op inputs self_inputs self_outputs (S j) st'.
Proof.
  intros Hj (Hi & Ho & Hl & Htaps & Hsl & Hsot) H.
  unfold mit_mot_checks in H.
  replace (1 + n_seqs op + j - (1 + n_seqs op)) with j in H by lia.
  apply nbind_inr in H as (taps & Ht & H). apply nfrom_opt_inr in Ht.
  apply nbind_inr in H as (i' & Hi' & H).
  apply nbind_inr in H as (sl & Hs & H). apply nfrom_opt_inr in Hs.
  apply nbind_inr in H as (o' & Ho' & H). injection H as <-.
  apply check_taps_inr in Hi' as [-> Hall].
  apply check_outs_inr in Ho' as [-> Hallo].
  rewrite Nat.min_l in Ho by lia.
  replace (j - n_mit_mot op) with 0 in Ho by lia.
  pose proof (lookup_lt_Some _ _ _ Hs) as Hlt.
  split_and!; cbn [fst snd].
  - rewrite (tap_offset_S _ _ Ht). lia.
  - rewrite Nat.min_l by lia. rewrite (slices_upto_S _ _ Hs). lia.
  - lia.
  - intros j' taps' q Hj' Ht' Hq.
    destruct (decide (j' = j)) as [->|Hne].
    + rewrite Ht in Ht'. injection Ht' as <-. rewrite <- Hi. by apply Hall.
    + apply (Htaps j' taps'); [lia|done..].
  - intros j' sl' q Hj' Hmm Hs' Hq.
    destruct (decide (j' = j)) as [->|Hne].
    + rewrite Hs in Hs'. injection Hs' as <-.
      replace (slices_upto op j) with (snd st) by lia. by apply Hallo.
    + apply (Hsl j' sl'); [lia|done..].
  - intros j' Hj'. lia.
Qed.

Lemma sot_checks_ok j st st' :
  n_mit_mot op <= j ->
  checked op inputs self_inputs self_outputs j st ->
  sot_checks op inputs self_inputs self_outputs (1 + n_seqs op)
    (1 + n_seqs op + j) st = inr st' ->
  checked op inputs self_inputs self_outputs (S j) st'.
Proof.
  intros Hj (Hi & Ho & Hl & Htaps & Hsl & Hsot) H.
  unfold sot_checks in H.
  replace (1 + n_seqs op + j - (1 + n_seqs op)) with j in H by lia.
  apply nbind_inr in H as (taps & Ht & H). apply nfrom_opt_inr in Ht.
  apply nbind_inr in H as (i' & Hi' & H).
  apply nbind_inr in H as (o' & Ho' & H). injection H as <-.
  apply check_taps_inr in Hi' as [-> Hall].
  unfold check_out in Ho'.
  apply nbind_inr in Ho' as (u & Hu & Ho'). injection Ho' as <-.
  apply check_dtypes_inr in Hu.
  rewrite Nat.min_r in Ho, Hl by lia.
  split_and!; cbn [fst snd].
  - rewrite (tap_offset_S _ _ Ht). lia.
  - rewrite Nat.min_r by lia. lia.
  - rewrite Nat.min_r by lia. done.
  - intros j' taps' q Hj' Ht' Hq.
    destruct (decide (j' = j)) as [->|Hne].
    + rewrite Ht in Ht'. injection Ht' as <-. rewrite <- Hi. by apply Hall.
    + apply (Htaps j' taps'); [lia|done..].
  - intros j' sl' q Hj' Hmm Hs' Hq. apply (Hsl j' sl'); [lia|done..].
  - intros j' Hj'.
    destruct (decide (j' = j)) as [->|Hne].
    + replace (slices_upto op (n_mit_mot op) + j - n_mit_mot op)
        with (snd st) by lia.
      exact Hu.
    + apply Hsot. lia.
Qed.

Lemma check_seqs_inr u :
  nfor_each (xrange 0 (n_seqs op)) (check_seq inputs self_inputs) tt
  = inr u ->
  forall idx, idx < n_seqs op ->
    same_dtype (inputs !! (1 + idx)) (self_inputs !! idx).
Proof.
  intros H.
  refine (nfor_each_xrange
            (fun k (_ : unit) =>
               forall idx, idx < k ->
                 same_dtype (inputs !! (1 + idx)) (self_inputs !! idx))
            0 (n_seqs op) _ tt u _ _ _ H);
    [lia| |intros idx Hidx; lia].
  intros k t t' Hk Hall Hb idx Hidx.
  destruct (decide (idx = k)) as [->|Hne]; [|apply Hall; lia].
  unfold check_seq in Hb. by apply check_dtypes_inr in Hb.
Qed.

Lemma shared_checks_inr b e o o' :
  b <= e ->
  nfor_each (xrange b e) (shared_check inputs self_outputs) o = inr o' ->
  forall j d n, j < e - b -> inputs !! (b + j) = Some (Tensor d n) ->
    exists n', self_outputs !! (o + j) = Some (Tensor d n').
Proof.
  intros Hbe H.
  enough (o' = o + (e - b)
          /\ forall j d n, j < e - b ->
               inputs !! (b + j) = Some (Tensor d n) ->
               exists n', self_outputs !! (o + j) = Some (Tensor d n'))
    as [_ Hall] by exact Hall.
  refine (nfor_each_xrange
            (fun k o1 =>
               o1 = o + (k - b)
               /\ forall j d n, j < k - b ->
                    inputs !! (b + j) = Some (Tensor d n) ->
                    exists n', self_outputs !! (o + j) = Some (Tensor d n'))
            b e _ o o' Hbe _ _ H).
  - intros k t t' Hk [-> Hall] Hb. unfold shared_check in Hb.
    apply nbind_inr in Hb as (x & Hx & Hb). apply nfrom_opt_inr in Hx.
    assert (Ht' : t' = o + (S k - b)).
    { destruct x as [dx nx|].
      - apply nbind_inr in Hb as (y & _ & Hb).
        apply nbind_inr in Hb as (dy & _ & Hb).
        destruct (decide (dx = dy)); [|discriminate].
        injection Hb as <-. lia.
      - injection Hb as <-. lia. }
    split; [done|]. intros j d n Hj Hin.
    destruct (decide (j = k - b)) as [->|Hne];
      [|apply (Hall j d n); [lia|done]].
    replace (b + (k - b)) with k in Hin by lia.
    rewrite Hx in Hin. injection Hin as ->.
    apply nbind_inr in Hb as (y & Hy & Hb). apply nfrom_opt_inr in Hy.
    apply nbind_inr in Hb as (dy & Hdy & Hb).
    destruct (decide (d = dy)) as [<-|]; [|discriminate].
    destruct y as [d' n'|]; [|discriminate]. injection Hdy as ->.
    exists n'. exact Hy.
  - split; [lia|]. intros j d n Hj. lia.
Qed.

Lemma check_trip_counts_inr (l : list (variable D)) u :
  nfor_each l (check_trip_count is_int) tt = inr u ->
  Forall (fun x => exists d, x = Tensor d 0 /\ is_int d = true) l.
Proof.
  induction l as [|x l IH]; intros H; simpl in H; [constructor|].
  apply nbind_inr in H as ([] & Hx & H). constructor; [|by apply IH].
  unfold check_trip_count in Hx.
  apply nbind_inr in Hx as (d & Hd & Hx).
  destruct (is_int d) eqn:Ei; [|discriminate]. simpl in Hx.
  apply nbind_inr in Hx as (n & Hn & Hx).
  destruct (Nat.eqb_spec n 0) as [->|]; [|discriminate].
  destruct x as [d' n'|]; [|discriminate].
  injection Hd as ->. injection Hn as ->. eauto.
Qed.

Lemma vector_flags_inr (l : list (variable D)) fs :
  vector_flags l = inr fs ->
  Forall2 (fun x f => exists d n, x = Tensor d n /\ f = (n =? 1)%nat) l fs.
Proof.
  revert fs. induction l as [|x l IH]; intros fs H; simpl in H.
  - injection H as <-. constructor.
  - apply nbind_inr in H as (n & Hn & H).
    apply nbind_inr in H as (fs' & Hfs & H). injection H as <-.
    constructor; [|by apply IH].
    destruct x as [d n'|]; [|discriminate]. injection Hn as ->. eauto.
Qed.

(** What a node that [make_node] returns tells about the loops it ran. *)
Lemma make_node_inr {T} (tys : list T) node :
  make_node is_int op inputs self_inputs self_outputs tys = inr node ->
  exists st,
    checked op inputs self_inputs self_outputs (n_outs op) st
    /\ (forall idx, idx < n_seqs op ->
          same_dtype (inputs !! (1 + idx)) (self_inputs !! idx))
    /\ (forall j d n, j < n_shared_outs op ->
          inputs !! (1 + n_seqs op + n_outs op + j) = Some (Tensor d n) ->
          exists n', self_outputs !! (snd st + n_nit_sot op + j)
                     = Some (Tensor d n'))
    /\ Forall (fun x => exists d, x = Tensor d 0 /\ is_int d = true)
         (outer_nitsot op inputs)
    /\ Forall2 (fun x f => exists d n, x = Tensor d n /\ f = (n =? 1)%nat)
         (outer_seqs op inputs) (vector_seqs node)
    /\ node_inputs node = inputs /\ node_outputs node = tys.
Proof.
  unfold make_node. intros H.
  apply nbind_inr in H as (vs & Hvs & H).
  apply nbind_inr in H as (vo & Hvo & H).
  apply nbind_inr in H as (u1 & Hseq & H).
  apply nbind_inr in H as (st1 & Hmm & H).
  apply nbind_inr in H as (st2 & Hsot & H).
  apply nbind_inr in H as (o3 & Hsh & H).
  apply nbind_inr in H as (u2 & Htc & H). injection H as <-. simpl.
  assert (C1 : checked op inputs self_inputs self_outputs
                 (n_mit_mot op) st1).
  { apply (nfor_each_xrange
             (fun k st => checked op inputs self_inputs self_outputs
                            (k - (1 + n_seqs op)) st)) in Hmm.
    - by replace (1 + n_seqs op + n_mit_mot op - (1 + n_seqs op))
        with (n_mit_mot op) in Hmm by lia.
    - lia.
    - intros k t t' Hk Hc Hb.
      replace (S k - (1 + n_seqs op)) with (S (k - (1 + n_seqs op)))
        by lia.
      eapply mit_mot_checks_ok; [|exact Hc|]; [lia|].
      by replace (1 + n_seqs op + (k - (1 + n_seqs op))) with k by lia.
    - rewrite Nat.sub_diag. unfold checked, tap_offset, slices_upto.
      simpl. split_and!; try lia; intros; lia. }
  assert (C2 : checked op inputs self_inputs self_outputs (n_outs op) st2).
  { apply (nfor_each_xrange
             (fun k st => checked op inputs self_inputs self_outputs
                            (k - (1 + n_seqs op)) st)) in Hsot.
    - by replace (1 + n_seqs op + n_mit_mot op
                  + (n_mit_sot op + n_sit_sot op) - (1 + n_seqs op))
        with (n_outs op) in Hsot by (unfold n_outs; lia).
    - lia.
    - intros k t t' Hk Hc Hb.
      replace (S k - (1 + n_seqs op)) with (S (k - (1 + n_seqs op)))
        by lia.
      eapply sot_checks_ok; [|exact Hc|]; [lia|].
      by replace (1 + n_seqs op + (k - (1 + n_seqs op))) with k by lia.
    - by replace (1 + n_seqs op + n_mit_mot op - (1 + n_seqs op))
        with (n_mit_mot op) by lia. }
  exists st2. split_and!; [exact C2|by eapply check_seqs_inr| | |
                           by apply vector_flags_inr|done|done].
  - intros j d n Hj Hin.
    assert (Hle : 1 + n_seqs op + n_mit_mot op
                  + (n_mit_sot op + n_sit_sot op)
                  <= 1 + n_seqs op + n_mit_mot op
                     + (n_mit_sot op + n_sit_sot op) + n_shared_outs op)
      by lia.
    apply (shared_checks_inr _ _ _ _ Hle Hsh j d n); [lia|].
    rewrite <- Hin. f_equal. unfold n_outs. lia.
  - apply check_trip_counts_inr in Htc.
    unfold outer_nitsot. cbv zeta.
    replace (1 + n_seqs op + n_mit_mot op + n_mit_sot op + n_sit_sot op
             + n_shared_outs op)
      with (1 + n_seqs op + n_mit_mot op + (n_mit_sot op + n_sit_sot op)
            + n_shared_outs op) by lia.
    exact Htc.
Qed.

(** X22: a node that [make_node] returns has inputs whose dtypes agree
    with the inputs of the inner function, at the offsets that
    [execute] uses.  The sequence [idx], input [1 + idx] of the node,
    has the dtype of the input [idx] of the inner function; the initial
    state of the output [j], input [1 + n_seqs + j] of the node, has the
    dtype of every input of the inner function that [execute] fills with
    a tap of this output, the inputs [tap_offset j + q]; and every output
    with an initial state has a list of taps. *)
Theorem make_node_inputs_dtypes {T} (tys : list T) node :
  make_node is_int op inputs self_inputs self_outputs tys = inr node ->
  (forall idx, idx < n_seqs op ->
     same_dtype (inputs !! (1 + idx)) (self_inputs !! idx))
  /\ (forall j taps q, j < n_outs op -> tap_array op !! j = Some taps ->
        q < length taps ->
        same_dtype (inputs !! (1 + n_seqs op + j))
                   (self_inputs !! (tap_offset op j + q)))
  /\ node_inputs node = inputs /\ node_outputs node = tys.
Proof.
  intros H. apply make_node_inr in H
    as (st & (_ & _ & _ & Htaps & _) & Hseq & _ & _ & _ & Hin & Hout).
  split_and!; [exact Hseq| |exact Hin|exact Hout].
  intros j taps q Hj Ht Hq. by apply (Htaps j taps q).
Qed.

(** X23: a node that [make_node] returns has initial states and shared
    variables whose dtypes agree with the outputs of the inner function
    that [execute] stores for them.  The initial state of a MIT-MOT
    output has the dtype of each of its output slices; the initial state
    of a MIT-SOT or SIT-SOT output [j] has the dtype of the output
    [sot_out_index j]; a shared variable [j] that is a tensor has the
    dtype of the output [shared_out_index j]. *)
Theorem make_node_outputs_dtypes {T} (tys : list T) node :
  make_node is_int op inputs self_inputs self_outputs tys = inr node ->
  (forall j sl q, j < n_mit_mot op ->
     mit_mot_out_slices op !! j = Some sl -> q < length sl ->
     same_dtype (inputs !! (1 + n_seqs op + j))
                (self_outputs !! (slices_upto op j + q)))
  /\ (forall j, n_mit_mot op <= j < n_outs op ->
        same_dtype (inputs !! (1 + n_seqs op + j))
                   (self_outputs !! sot_out_index op j))
  /\ (forall j d n, j < n_shared_outs op ->
        inputs !! (1 + n_seqs op + n_outs op + j) = Some (Tensor d n) ->
        exists n', self_outputs !! shared_out_index op j
                   = Some (Tensor d n')).
Proof.
  intros H. apply make_node_inr in H
    as (st & (_ & Ho & Hl & _ & Hsl & Hsot) & _ & Hsh & _).
  assert (Hmm : n_mit_mot op <= n_outs op) by (unfold n_outs; lia).
  rewrite Nat.min_r in Ho, Hl by done.
  pose proof (mit_mot_total_upto Hl) as Ht.
  split_and!.
  - intros j sl q Hj Hs Hq. apply (Hsl j sl q); [lia|done..].
  - intros j Hj. unfold sot_out_index. rewrite Ht. by apply Hsot.
  - intros j d n Hj Hin. destruct (Hsh j d n Hj Hin) as (n' & Hn').
    exists n'. rewrite <- Hn'. f_equal.
    unfold shared_out_index, n_tracked. rewrite Ht, Ho. lia.
Qed.

(** X24: a node that [make_node] returns has, for every NIT-SOT output,
    a trip count that is a scalar of an integer dtype, and the flags
    [vector_seqs] that it leaves on the op tell which sequences have
    exactly one dimension. *)
Theorem make_node_trip_counts {T} (tys : list T) node k x :
  make_node is_int op inputs self_inputs self_outputs tys = inr node ->
  (outer_nitsot op inputs !! k = Some x ->
   exists d, x = Tensor d 0 /\ is_int d = true)
  /\ length (vector_seqs node) = length (outer_seqs op inputs)
  /\ forall idx f, vector_seqs node !! idx = Some f ->
       exists d n, outer_seqs op inputs !! idx = Some (Tensor d n)
                   /\ f = (n =? 1)%nat.
Proof.
  intros H. apply make_node_inr in H
    as (st & _ & _ & _ & Htc & Hvs & _).
  split_and!.
  - intros Hk. rewrite Forall_lookup in Htc. by apply (Htc k).
  - symmetry. by eapply Forall2_length.
  - intros idx f Hf.
    destruct (Forall2_lookup_r _ _ _ _ _ Hvs Hf) as (y & Hy & d & n & -> & ->).
    eauto.
Qed.
Lemma nfor_each_app {J S} (l1 l2 : list J) (body : J -> S -> nres S) s :
  nfor_each (l1 ++ l2) body s
  = nodo s' <- nfor_each l1 body s; nfor_each l2 body s'.
Proof.
  revert s. induction l1 as [|j l1 IH]; intros s; simpl; [done|].
  destruct (body j s) as [e|s1]; simpl; [done|apply IH].
Qed.

Lemma vector_flags_tensors (l : list (variable D)) :
  Forall (fun x => x <> Generic) l -> exists fs, vector_flags l = inr fs.
Proof.
  induction 1 as [|x l Hx _ (fs & IH)]; simpl; [eauto|].
  destruct x as [d n|]; [|done]. simpl. rewrite IH. simpl. eauto.
Qed.

(** X25: [make_node] refuses a sequence whose dtype is not that of the
    input of the inner function that stands for its slices.  When the
    sequences and the initial states given are tensor variables, the
    sequences before [idx] agree with their inner inputs and the
    sequence [idx] does not, the call raises the [ValueError] of
    [err_msg1] for the sequence [idx]; no node is made. *)
Theorem make_node_rejects_sequence {T} (tys : list T) idx d n d' n' :
  (forall k x, 1 <= k < 1 + n_seqs op + n_outs op ->
               inputs !! k = Some x -> x <> Generic) ->
  idx < n_seqs op ->
  (forall idx', idx' < idx ->
     same_dtype (inputs !! (1 + idx')) (self_inputs !! idx')) ->
  inputs !! (1 + idx) = Some (Tensor d n) ->
  self_inputs !! idx = Some (Tensor d' n') ->
  d <> d' ->
  make_node is_int op inputs self_inputs self_outputs tys
  = inl (SequenceDtype idx).
Proof.
  intros Htens Hidx Hbefore Hx Hy Hne. unfold make_node.
  assert (Hslice : forall b e, 1 <= b -> e <= 1 + n_seqs op + n_outs op ->
            Forall (fun x : variable D => x <> Generic)
              (py_slice inputs b e)).
  { intros b e Hb He. apply Forall_lookup. intros k x Hk.
    unfold py_slice in Hk. apply lookup_take_Some in Hk as [Hk Hlt].
    rewrite lookup_drop in Hk. apply (Htens (b + k)); [lia|done]. }
  destruct (vector_flags_tensors _
              (Hslice 1 (1 + n_seqs op) ltac:(lia) ltac:(lia)))
    as (vs & ->).
  destruct (vector_flags_tensors _
              (Hslice (1 + n_seqs op) (1 + n_seqs op + n_outs op)
                 ltac:(lia) ltac:(lia)))
    as (vo & ->).
  simpl.
  assert (Hloop : nfor_each (xrange 0 (n_seqs op))
                    (check_seq inputs self_inputs) tt
                  = inl (SequenceDtype idx)).
  { unfold xrange. rewrite Nat.sub_0_r.
    replace (n_seqs op) with (idx + S (n_seqs op - S idx)) by lia.
    rewrite seq_app, nfor_each_app.
    assert (Hpre : nfor_each (seq 0 idx) (check_seq inputs self_inputs) tt
                   = inr tt).
    { clear Hx Hy Hidx. induction idx as [|i IH]; [done|].
      rewrite seq_S, nfor_each_app, IH by (intros; apply Hbefore; lia).
      simpl. unfold check_seq, check_dtypes.
      destruct (Hbefore i ltac:(lia)) as (d0 & n0 & n0' & -> & ->).
      simpl. by rewrite decide_True. }
    rewrite Hpre. simpl. unfold check_seq, check_dtypes.
    rewrite Hx, Hy. simpl. by rewrite decide_False. }
  rewrite Hloop. done.
Qed.
End NodeChecks.
End NodeFacts.

(** ** The shapes of the inputs of the inner function *)

Lemma for_each_seq {S} (P : nat -> S -> Prop) b n
    (body : nat -> S -> res S) s s' :
  (forall k t t', b <= k < b + n -> P k t -> body k t = Ok t' ->
                  P (Datatypes.S k) t') ->
  P b s -> for_each (seq b n) body s = Ok s' -> P (b + n) s'.
Proof.
  revert b s. induction n as [|n IH]; intros b s Hbody Hs H; simpl in H.
  - injection H as <-. by rewrite Nat.add_0_r.
  - apply bind_Ok in H as (s1 & H1 & H).
    replace (b + Datatypes.S n) with (Datatypes.S b + n) by lia.
    apply (IH (Datatypes.S b) s1); [| |exact H].
    + intros k t t' Hk. apply Hbody. lia.
    + apply (Hbody b s s1); [lia|done|done].
Qed.

Module ShapesFacts.
Import Shapes.

Section InferShapeFacts.
Context {S : Type}.
Variable op : Scan.
Variable input_shapes : list (list S).

Lemma tap_shapes_loop idx (taps : list Z) (sh : list S) os os' :
  input_shapes !! (idx + n_seqs op + 1) = Some sh ->
  for_each taps
    (fun _ outs_shape =>
       do sh <- from_opt IndexError (input_shapes !! (idx + n_seqs op + 1));
       Ok (outs_shape ++ [drop 1 sh])) os = Ok os' ->
  os' = os ++ replicate (length taps) (drop 1 sh).
Proof.
  intros Hsh. revert os. induction taps as [|k taps IH]; intros os H.
  - simpl in H. injection H as <-. by rewrite app_nil_r.
  - simpl in H. apply bind_Ok in H as (os1 & H1 & H).
    rewrite Hsh in H1. simpl in H1. injection H1 as <-.
    rewrite (IH _ H), <- app_assoc. done.
Qed.

Lemma taps_shaped_step j os os' :
  taps_shaped op input_shapes j os ->
  (do taps <- from_opt IndexError (tap_array op !! j);
   for_each taps
     (fun _ outs_shape =>
        do sh <- from_opt IndexError (input_shapes !! (j + n_seqs op + 1));
        Ok (outs_shape ++ [drop 1 sh])) os) = Ok os' ->
  taps_shaped op input_shapes (Datatypes.S j) os'.
Proof.
  intros [Hlen Hall] H.
  apply bind_Ok in H as (taps & Ht & H). apply from_opt_Ok in Ht.
  assert (Hoff : tap_offset op (Datatypes.S j)
                 = tap_offset op j + length taps).
  { unfold tap_offset.
    rewrite (take_S_r _ _ _ Ht), fmap_app, sum_list_with_app. simpl. lia. }
  assert (Hmono : forall j', j' <= j -> tap_offset op j' <= tap_offset op j).
  { intros j' Hj'. unfold tap_offset.
    replace j with (j' + (j - j')) by lia.
    rewrite <- take_take_drop, fmap_app, sum_list_with_app. lia. }
  assert (Hn : n_seqs op <= tap_offset op j) by (unfold tap_offset; lia).
  destruct taps as [|k taps].
  { simpl in H. injection H as <-. split; [rewrite Hoff; simpl; lia|].
    intros j' taps' q Hj' Ht' Hq.
    destruct (decide (j' = j)) as [->|Hne].
    - rewrite Ht in Ht'. injection Ht' as <-. simpl in Hq. lia.
    - apply (Hall j' taps'); [lia|done..]. }
  assert (Hsh : exists sh, input_shapes !! (j + n_seqs op + 1) = Some sh).
  { simpl in H. apply bind_Ok in H as (os1 & H1 & _).
    apply bind_Ok in H1 as (sh & Hsh & _). apply from_opt_Ok in Hsh. eauto. }
  destruct Hsh as (sh & Hsh).
  rewrite (tap_shapes_loop _ _ _ _ _ Hsh H). split.
  - rewrite length_app, length_replicate, Hoff. lia.
  - intros j' taps' q Hj' Ht' Hq.
    destruct (decide (j' = j)) as [->|Hne].
    + rewrite Ht in Ht'. injection Ht' as <-.
      rewrite lookup_app_r by lia.
      replace (1 + n_seqs op + j) with (j + n_seqs op + 1) by lia.
      rewrite Hsh. change (drop 1 <$> Some sh) with (Some (drop 1 sh)).
      apply lookup_replicate_2. lia.
    + assert (Hlt : tap_offset op j' + length taps' <= tap_offset op j).
      { assert (E : tap_offset op (Datatypes.S j')
                    = tap_offset op j' + length taps').
        { unfold tap_offset.
          rewrite (take_S_r _ _ _ Ht'), fmap_app, sum_list_with_app.
          simpl. lia. }
        rewrite <- E. apply Hmono. lia. }
      assert (Hn' : n_seqs op <= tap_offset op j')
        by (unfold tap_offset; lia).
      rewrite lookup_app_l by lia.
      apply (Hall j' taps'); [lia|done..].
Qed.

(** X26: the shapes that [infer_shape] hands to the shape inference of
    the inner function are one per input of the inner function, in the
    order in which [execute] fills them.  The input [idx] gets the shape
    of the sequence [idx] without its leading dimension; every input
    [tap_offset j + q], a tap of the output [j], the shape of the
    initial state of that output without its leading dimension; the
    input [shared_offset + j] the shape of the shared variable [j]; and
    the inputs after them the shapes of the non-sequences. *)
Theorem inner_ins_shapes_layout (shs : list (list S)) :
  inner_ins_shapes op input_shapes = Ok shs ->
  1 + n_seqs op <= length input_shapes ->
  length shs
  = shared_offset op + n_shared_outs op
    + (length input_shapes
       - (1 + n_seqs op + n_outs op + n_nit_sot op + n_shared_outs op))
  /\ (forall idx, idx < n_seqs op ->
        shs !! idx = drop 1 <$> input_shapes !! (1 + idx))
  /\ (forall j taps q, j < n_outs op -> tap_array op !! j = Some taps ->
        q < length taps ->
        shs !! (tap_offset op j + q)
        = drop 1 <$> input_shapes !! (1 + n_seqs op + j))
  /\ (forall j, j < n_shared_outs op ->
        shs !! (shared_offset op + j)
        = input_shapes !! (1 + n_seqs op + n_outs op + j))
  /\ drop (shared_offset op + n_shared_outs op) shs
     = drop (1 + n_seqs op + n_outs op + n_nit_sot op + n_shared_outs op)
         input_shapes.
Proof.
  intros H Hlen. unfold inner_ins_shapes in H.
  apply bind_Ok in H as (os1 & H1 & H).
  apply bind_Ok in H as (os2 & H2 & H). injection H as <-.
  fold (n_outs op) in H1, H2 |- *.
  set (seqs_shape := drop 1 <$> py_slice input_shapes 1
                                  (Datatypes.S (n_seqs op))).
  assert (Lseq : length seqs_shape = n_seqs op).
  { unfold seqs_shape. rewrite length_fmap, length_py_slice; lia. }
  assert (T1 : taps_shaped op input_shapes (n_outs op) os1).
  { unfold xrange in H1. rewrite Nat.sub_0_r in H1.
    apply (for_each_seq (taps_shaped op input_shapes) 0 (n_outs op)
             _ _ _) in H1; [exact H1| |].
    - intros k t t' _ Hk Hb. by eapply taps_shaped_step.
    - split; [unfold tap_offset; simpl; lia|]. intros; lia. }
  destruct T1 as [L1 Hall].
  fold (shared_offset op) in L1.
  assert (T2 : length os2 = length os1 + n_shared_outs op
               /\ (forall k, k < length os1 -> os2 !! k = os1 !! k)
               /\ forall j, j < n_shared_outs op ->
                    os2 !! (length os1 + j)
                    = input_shapes !! (1 + n_seqs op + n_outs op + j)).
  { unfold xrange in H2. rewrite Nat.sub_0_r in H2.
    apply (for_each_seq
             (fun k (os : list (list S)) =>
                length os = length os1 + k
                /\ (forall i, i < length os1 -> os !! i = os1 !! i)
                /\ forall j, j < k ->
                     os !! (length os1 + j)
                     = input_shapes !! (1 + n_seqs op + n_outs op + j))
             0 (n_shared_outs op) _ _ _) in H2; [exact H2| |].
    - intros k t t' _ (Lt & Hpre & Hsh) Hb.
      apply bind_Ok in Hb as (sh & Hs & Hb). apply from_opt_Ok in Hs.
      injection Hb as <-. split_and!.
      + rewrite length_app. simpl. lia.
      + intros i Hi. rewrite lookup_app_l by lia. by apply Hpre.
      + intros j Hj. destruct (decide (j = k)) as [->|Hne].
        * rewrite lookup_app_r by lia.
          replace (length os1 + k - length t) with 0 by lia. simpl.
          rewrite <- Hs. f_equal. lia.
        * rewrite lookup_app_l by lia. apply Hsh. lia.
    - split_and!; [lia|done|intros; lia]. }
  destruct T2 as (L2 & Hpre & Hsh).
  split_and!.
  - rewrite !length_app, Lseq, L2, length_drop. lia.
  - intros idx Hidx. rewrite lookup_app_l by lia.
    unfold seqs_shape. rewrite list_lookup_fmap, lookup_py_slice by lia.
    done.
  - intros j taps q Hj Ht Hq.
    assert (Hge : n_seqs op <= tap_offset op j) by (unfold tap_offset; lia).
    assert (Hin : tap_offset op j - n_seqs op + q < length os1).
    { apply lookup_lt_is_Some. rewrite (Hall j taps q Hj Ht Hq).
      apply fmap_is_Some. apply lookup_lt_is_Some_2.
      destruct (input_shapes !! (1 + n_seqs op + j)) eqn:E.
      - by eapply lookup_lt_Some.
      - exfalso.
        pose proof (Hall j taps q Hj Ht Hq) as Hbad. rewrite E in Hbad.
        simpl in Hbad.
        (* the loop read this shape *)
        unfold xrange in H1. rewrite Nat.sub_0_r in H1.
        replace (n_outs op) with (j + Datatypes.S (n_outs op - Datatypes.S j))
          in H1 by lia.
        rewrite seq_app, GradFacts.for_each_app in H1.
        apply bind_Ok in H1 as (o0 & _ & H1). simpl in H1.
        apply bind_Ok in H1 as (o1 & Hb & _).
        apply bind_Ok in Hb as (taps' & Ht' & Hb). apply from_opt_Ok in Ht'.
        rewrite Ht in Ht'. injection Ht' as <-.
        destruct taps as [|k0 taps]; [simpl in Hq; lia|].
        simpl in Hb. apply bind_Ok in Hb as (o2 & Hb & _).
        apply bind_Ok in Hb as (sh & Hs & _). apply from_opt_Ok in Hs.
        replace (j + n_seqs op + 1) with (1 + n_seqs op + j) in Hs by lia.
        congruence. }
    rewrite lookup_app_r by lia. rewrite Lseq.
    rewrite lookup_app_l by lia.
    replace (tap_offset op j + q - n_seqs op)
      with (tap_offset op j - n_seqs op + q) by lia.
    rewrite Hpre by done. by apply (Hall j taps q).
  - intros j Hj. rewrite lookup_app_r by lia. rewrite Lseq.
    rewrite lookup_app_l by lia.
    replace (shared_offset op + j - n_seqs op) with (length os1 + j) by lia.
    by apply Hsh.
  - rewrite app_assoc. rewrite drop_app_length'.
    + f_equal. lia.
    + rewrite length_app, Lseq, L2. lia.
Qed.
End InferShapeFacts.
End ShapesFacts.

(** ** Examples of the properties above *)

Module CaseFacts.
Import Examples Runs Cases.

(** The SIT-SOT output of [mixed_op] gets the third output of the inner
    function, after the output slice of the MIT-MOT output and the
    output of the MIT-SOT output. *)
Lemma inner_outputs_offsets_witness :
  length (mit_mot_out_slices mixed_op) = n_mit_mot mixed_op
  /\ inner_sitsot_outs mixed_op [10; 20; 30]%Z !! 0
     = [10; 20; 30]%Z
         !! sot_out_index mixed_op
              (n_mit_mot mixed_op + n_mit_sot mixed_op + 0).
Proof.
  split; [reflexivity|].
  destruct (inner_outputs_offsets mixed_op [10; 20; 30]%Z eq_refl)
    as (_ & H & _).
  apply H. simpl. lia.
Defined.

(** The tap of the SIT-SOT output of [mixed_op] is the sixth input of
    the inner function. *)
Lemma inner_inputs_offsets_witness :
  inner_sitsot mixed_op [1; 2; 3; 4; 5; 6]%Z !! 0
  = [1; 2; 3; 4; 5; 6]%Z
      !! tap_offset mixed_op (n_mit_mot mixed_op + n_mit_sot mixed_op + 0)
  /\ inner_non_seqs mixed_op [1; 2; 3; 4; 5; 6]%Z
     = drop (shared_offset mixed_op + n_shared_outs mixed_op)
         [1; 2; 3; 4; 5; 6]%Z.
Proof.
  destruct (inner_inputs_offsets mixed_op [1; 2; 3; 4; 5; 6]%Z)
    as (H & _ & Hns).
  - intros j Hj. assert (j = 2) as -> by (vm_compute in Hj; lia).
    eexists. reflexivity.
  - split; [apply H; simpl; lia|exact Hns].
Defined.

(** The node of [mixed_op] has three outputs; types are numbers here and
    the leading dimension adds one. *)
Lemma output_types_layout_witness :
  exists tys,
    output_types Z.succ mixed_op [10; 20; 30]%Z = Ok tys
    /\ length tys = n_tracked mixed_op + n_shared_outs mixed_op
    /\ tys !! 1 = Z.succ <$> [10; 20; 30]%Z !! sot_out_index mixed_op 1.
Proof.
  destruct (output_types_layout Z.succ mixed_op [10; 20; 30]%Z)
    as (tys & Ht & Hl & _ & Hsot & _).
  - reflexivity.
  - repeat constructor. discriminate.
  - reflexivity.
  - reflexivity.
  - exists tys. split_and!; [exact Ht|exact Hl|].
    apply Hsot. vm_compute. lia.
Defined.

(** The Fibonacci op working in place destroys the input 1 of its node,
    the initial state. *)
Lemma destroy_map_initial_state_witness :
  (0, [0 + 1 + n_seqs fib_inplace_op]) ∈ destroy_map fib_inplace_op
  /\ [3; 7]%Z !! (0 + 1 + n_seqs fib_inplace_op)
     = (outer_mitmot fib_inplace_op [3; 7]%Z
        ++ outer_mitsot fib_inplace_op [3; 7]%Z
        ++ outer_sitsot fib_inplace_op [3; 7]%Z) !! 0.
Proof.
  destruct (@destroy_map_initial_state Z Z fib_inplace_op [3; 7]%Z 0)
    as [Hin _].
  - vm_compute. lia.
  - destruct (Hin eq_refl) as (H1 & _ & H2 & _). split; [exact H1|exact H2].
Defined.

(** The backward op of [mixed_op]: its five output slices are counted,
    though those of its second channel went to the first. *)
Lemma backward_info_consistent_witness :
  exists info,
    Grad.backward_info mixed_op 0 = Ok info
    /\ n_mit_mot info = n_outs mixed_op
    /\ n_mit_mot_outs info = n_out_slices info
    /\ mit_mot_total info = n_mit_mot_outs info.
Proof.
  destruct (Grad.backward_info mixed_op 0) as [info|e] eqn:E;
    [|vm_compute in E; discriminate].
  exists info. split; [reflexivity|].
  destruct (GradArgsFacts.backward_info_consistent mixed_op 0 info E)
    as (H1 & _ & _ & H4 & H5).
  split_and!; [exact H1|exact H4|exact H5].
Defined.

(** The backward op of [sot_op] starts every position at 0. *)
Lemma backward_info_positions_witness :
  exists info,
    Grad.backward_info sot_op 2 = Ok info
    /\ mintaps info = replicate (n_tracked info) 0%Z.
Proof.
  destruct (Grad.backward_info sot_op 2) as [info|e] eqn:E;
    [|vm_compute in E; discriminate].
  exists info. split; [reflexivity|].
  destruct (GradArgsFacts.backward_info_positions sot_op 2 info E)
    as (H & _ & _).
  - reflexivity.
  - intros j ta t Hj Hta Ht.
    assert (j = 0) as -> by (vm_compute in Hj; lia).
    vm_compute in Hta. injection Hta as <-.
    apply elem_of_cons in Ht as [->|Ht]; [lia|].
    apply elem_of_cons in Ht as [->|Ht]; [lia|].
    by apply elem_of_nil in Ht.
  - exact H.
Defined.

(** The backward loop of [sot_op] gets four sequences. *)
Lemma scan_seqs_count_witness :
  exists info ss,
    Grad.backward_info sot_op 2 = Ok info
    /\ GradArgs.scan_seqs sot_op [[1; 2; 3]%Z]
         [[1; 1; 2; 3; 5]; [0; 1; 2; 3]]%Z [[9; 9; 9; 9; 9]; [8; 8; 8; 8]]%Z
       = Ok ss
    /\ length ss = n_seqs info.
Proof.
  destruct (Grad.backward_info sot_op 2) as [info|e] eqn:E;
    [|vm_compute in E; discriminate].
  destruct (GradArgs.scan_seqs sot_op [[1; 2; 3]%Z]
              [[1; 1; 2; 3; 5]; [0; 1; 2; 3]]%Z
              [[9; 9; 9; 9; 9]; [8; 8; 8; 8]]%Z) as [ss|e] eqn:Es;
    [|vm_compute in Es; discriminate].
  exists info, ss. split_and!; [reflexivity..|].
  apply (GradArgsFacts.scan_seqs_count sot_op 2 info _ _ _ ss E Es).
  - reflexivity.
  - vm_compute. lia.
Defined.

(** The output [1; 1; 2; 3; 5] of the Fibonacci loop, taps -2 and -1:
    the first entry of the sequence cut for the tap -2 is the entry 3 of
    the output, the value of step 1. *)
Lemma tap_seq_aligned_witness :
  Z.of_nat (length (GradArgs.tap_seq (np_min [-2; -1]%Z) (np_max [-2; -1]%Z)
                      (reverse [1; 1; 2; 3; 5]%Z) (-2)))
  = (Z.of_nat (length [1; 1; 2; 3; 5]%Z) + np_min [-2; -1]%Z)%Z
  /\ GradArgs.tap_seq (np_min [-2; -1]%Z) (np_max [-2; -1]%Z)
       (reverse [1; 1; 2; 3; 5]%Z) (-2) !! 0
     = [1; 1; 2; 3; 5]%Z
         !! Z.to_nat (Z.of_nat (length [1; 1; 2; 3; 5]%Z) - 1 - Z.of_nat 0
                      + (np_min [-2; -1]%Z + np_max [-2; -1]%Z - -2)).
Proof.
  destruct (GradArgsFacts.tap_seq_aligned [-2; -1]%Z [1; 1; 2; 3; 5]%Z
              (-2)%Z 0) as [Hl Hi].
  - intros t Ht.
    apply elem_of_cons in Ht as [->|Ht]; [lia|].
    apply elem_of_cons in Ht as [->|Ht]; [lia|].
    by apply elem_of_nil in Ht.
  - by left.
  - vm_compute. discriminate.
  - vm_compute. discriminate.
  - split; [exact Hl|]. apply Hi. vm_compute. reflexivity.
Defined.

(** The gradients of [sot_op], from the five outputs of its backward
    loop: the gradient of the sequence is the third one reversed. *)
Lemma gradients_layout_witness :
  exists info,
    Grad.backward_info sot_op 2 = Ok info
    /\ outer_seqs sot_op
         (GradArgs.gradients sot_op 2 [[1]; [2]; [3; 4]; [5]; [6]]%Z)
       = (fun x => Some (reverse x))
           <$> outer_nitsot_outs info [[1]; [2]; [3; 4]; [5]; [6]]%Z.
Proof.
  destruct (Grad.backward_info sot_op 2) as [info|e] eqn:E;
    [|vm_compute in E; discriminate].
  exists info. split; [reflexivity|].
  destruct (GradArgsFacts.gradients_layout sot_op 2 info
              [[1]; [2]; [3; 4]; [5]; [6]]%Z E)
    as (_ & _ & H & _).
  - vm_compute in E. injection E as <-. reflexivity.
  - exact H.
Defined.

(** The evaluation point of the MIT-SOT output of [mixed_op] is the
    output 3 of the new op; it has the taps -2 and -1. *)
Lemma twin_taps_witness :
  tap_array (Rop.info mixed_op) !! Rop.twin_index mixed_op true 1
  = tap_array mixed_op !! 1
  /\ Rop.twin_index mixed_op true 1 = 3.
Proof.
  destruct (RopFacts.twin_taps mixed_op true 1) as (H & _).
  - reflexivity.
  - vm_compute. lia.
  - split; [exact H|reflexivity].
Defined.

(** Of the six outputs of the new op of [mixed_op], [R_op] returns the
    second, the fourth and the sixth. *)
Lemma final_outs_twins_witness :
  length (Rop.final_outs mixed_op [1; 2; 3; 4; 5; 6]%Z)
  = n_tracked mixed_op + n_shared_outs mixed_op
  /\ Rop.final_outs mixed_op [1; 2; 3; 4; 5; 6]%Z !! 2
     = [1; 2; 3; 4; 5; 6]%Z !! Rop.twin_index mixed_op true 2.
Proof.
  apply (RopFacts.final_outs_twins mixed_op [1; 2; 3; 4; 5; 6]%Z 2).
  - reflexivity.
  - vm_compute. lia.
Defined.

(** The R-operator of the counter loop: the condition is the third
    output of the new inner function, where [execute] reads it. *)
Lemma inner_outs_condition_witness :
  exists outs,
    Rop.inner_outs count_op [10; 20]%Z [30%Z] = Ok outs
    /\ length outs = cond_index (Rop.info count_op) + n_out_slices count_op + 1
    /\ outs !! cond_index (Rop.info count_op)
       = [10; 20]%Z !! (length [10; 20]%Z - 1).
Proof.
  destruct (RopFacts.inner_outs_condition count_op [10; 20]%Z [30%Z])
    as (outs & Ho & Hl & _ & Hc).
  - reflexivity.
  - reflexivity.
  - reflexivity.
  - exists outs. split_and!; [exact Ho|exact Hl|].
    apply Hc. reflexivity.
Defined.

(** The inputs of the node of the new op of [mixed_op]: the sequence and
    its evaluation point come first. *)
Lemma scan_inputs_layout_witness :
  exists si,
    Rop.scan_inputs mixed_op [1; 2; 3; 4; 5]%Z [11; 12; 13; 14; 15]%Z
    = Ok si
    /\ outer_seqs (Rop.info mixed_op) si
       = outer_seqs mixed_op [1; 2; 3; 4; 5]%Z
         ++ outer_seqs mixed_op [11; 12; 13; 14; 15]%Z.
Proof.
  destruct (Rop.scan_inputs mixed_op [1; 2; 3; 4; 5]%Z
              [11; 12; 13; 14; 15]%Z) as [si|e] eqn:E;
    [|vm_compute in E; discriminate].
  exists si. split; [reflexivity|].
  destruct (RopFacts.scan_inputs_layout mixed_op _ _ si E)
    as (_ & H & _).
  - vm_compute. lia.
  - vm_compute. lia.
  - exact H.
Defined.

(** The inputs of the inner function of the new op of [mixed_op]: the
    taps of the MIT-SOT output and then their evaluation points. *)
Lemma inner_ins_layout_witness :
  inner_mitsot (Rop.info mixed_op)
    (Rop.inner_ins mixed_op [1; 2; 3; 4; 5; 6]%Z
       [11; 12; 13; 14; 15; 16]%Z)
  = inner_mitsot mixed_op [1; 2; 3; 4; 5; 6]%Z
    ++ inner_mitsot mixed_op [11; 12; 13; 14; 15; 16]%Z.
Proof.
  destruct (RopFacts.inner_ins_layout mixed_op [1; 2; 3; 4; 5; 6]%Z
              [11; 12; 13; 14; 15; 16]%Z) as (_ & _ & H & _).
  - reflexivity.
  - vm_compute. lia.
  - vm_compute. lia.
  - exact H.
Defined.

(** The node of [sot_op]: the initial state of the SIT-SOT output and
    its tap, the fourth input of the inner function, have one dtype. *)
Lemma make_node_inputs_dtypes_witness :
  exists node,
    Node.make_node is_int sot_op sot_inputs sot_self_inputs
      sot_self_outputs [5; 6]%Z = inr node
    /\ Node.same_dtype (sot_inputs !! (1 + n_seqs sot_op + 1))
         (sot_self_inputs !! (tap_offset sot_op 1 + 0)).
Proof.
  destruct (Node.make_node is_int sot_op sot_inputs sot_self_inputs
              sot_self_outputs [5; 6]%Z) as [e|node] eqn:E;
    [vm_compute in E; discriminate|].
  exists node. split; [reflexivity|].
  destruct (NodeFacts.make_node_inputs_dtypes is_int sot_op sot_inputs
              sot_self_inputs sot_self_outputs [5; 6]%Z node E)
    as (_ & H & _).
  apply (H 1 [(-1)%Z] 0); [vm_compute; lia|reflexivity|simpl; lia].
Defined.

(** The node of [sot_op]: the initial state of the SIT-SOT output and
    the second output of the inner function have one dtype. *)
Lemma make_node_outputs_dtypes_witness :
  exists node,
    Node.make_node is_int sot_op sot_inputs sot_self_inputs
      sot_self_outputs [5; 6]%Z = inr node
    /\ Node.same_dtype (sot_inputs !! (1 + n_seqs sot_op + 1))
         (sot_self_outputs !! sot_out_index sot_op 1).
Proof.
  destruct (Node.make_node is_int sot_op sot_inputs sot_self_inputs
              sot_self_outputs [5; 6]%Z) as [e|node] eqn:E;
    [vm_compute in E; discriminate|].
  exists node. split; [reflexivity|].
  destruct (NodeFacts.make_node_outputs_dtypes is_int sot_op sot_inputs
              sot_self_inputs sot_self_outputs [5; 6]%Z node E)
    as (_ & H & _).
  apply H. vm_compute. lia.
Defined.

(** The node of [stack_op]: the trip count is a scalar integer. *)
Lemma make_node_trip_counts_witness :
  exists node,
    Node.make_node is_int stack_op stack_inputs stack_self_inputs
      stack_self_outputs [5%Z] = inr node
    /\ exists d, Node.Tensor 0 0 = Node.Tensor d 0 /\ is_int d = true.
Proof.
  destruct (Node.make_node is_int stack_op stack_inputs stack_self_inputs
              stack_self_outputs [5%Z]) as [e|node] eqn:E;
    [vm_compute in E; discriminate|].
  exists node. split; [reflexivity|].
  destruct (NodeFacts.make_node_trip_counts is_int stack_op stack_inputs
              stack_self_inputs stack_self_outputs [5%Z] node 0
              (Node.Tensor 0 0) E) as (H & _).
  apply H. reflexivity.
Defined.

(** A sequence of the dtype 2 for an inner input of the dtype 1. *)
Lemma make_node_rejects_sequence_witness :
  Node.make_node is_int sot_op sot_inputs_mixed sot_self_inputs
    sot_self_outputs [5; 6]%Z
  = inl (Node.SequenceDtype 0).
Proof.
  apply (NodeFacts.make_node_rejects_sequence is_int sot_op
           sot_inputs_mixed sot_self_inputs sot_self_outputs [5; 6]%Z
           0 2 2 1 1).
  - intros k x Hk Hx.
    assert (k = 1 \/ k = 2 \/ k = 3) as [-> | [-> | ->]]
      by (vm_compute in Hk; lia);
      vm_compute in Hx; injection Hx as <-; discriminate.
  - vm_compute. lia.
  - intros idx' Hidx'. lia.
  - reflexivity.
  - reflexivity.
  - lia.
Defined.

(** The shapes for the inner function of [sot_op]: the taps of the
    MIT-SOT output get the shape [3] of its initial state of shape
    [7; 3]. *)
Lemma inner_ins_shapes_layout_witness :
  exists shs,
    Shapes.inner_ins_shapes sot_op sot_shapes = Ok shs
    /\ shs !! (tap_offset sot_op 0 + 1)
       = drop 1 <$> sot_shapes !! (1 + n_seqs sot_op + 0).
Proof.
  destruct (Shapes.inner_ins_shapes sot_op sot_shapes) as [shs|e] eqn:E;
    [|vm_compute in E; discriminate].
  exists shs. split; [reflexivity|].
  destruct (ShapesFacts.inner_ins_shapes_layout sot_op sot_shapes shs E)
    as (_ & _ & H & _).
  - vm_compute. lia.
  - apply (H 0 [-2; -1]%Z 1); [vm_compute; lia|reflexivity|simpl; lia].
Defined.
End CaseFacts.
